(** * InteliCanvas: command pipeline and scene reducer

    A shallow embedding of the scene-graph reducer ([src/server/reducer.ts]),
    the ordering keys ([src/shared/layering.ts]), the command grammar
    ([src/shared/commands.ts], [scene.ts], [vectorShapes.ts], [ws.ts]) and the
    repair stages of the director ([normalizeToEnvelope],
    [normalizeCommandArray], [stripDestructiveCommands],
    [normalizeBandStack], the clamp of [stabilizeNewObject]).

    Modelling conventions.
    - A JS number is a rational [Q]; the embedded code only compares numbers
      and adds small integers, which IEEE doubles do exactly.
    - A JS string is a [string], one character per code unit.
    - [Record<string, SceneObject>] is a finite map [gmap string SceneObject]
      over the object's own keys; an id is taken not to name a property that
      a JS object literal inherits (such as [constructor]).
    - Values the source types as [any] are [json] values; a JS object is an
      association list in insertion order. *)

From Stdlib Require Import ZArith QArith Qround String Ascii DecimalString List Bool Lia.
From stdpp Require Import base option list sorting gmap strings.

Close Scope Q_scope.
Set Warnings "-register-all".
Local Open Scope string_scope.
Local Open Scope list_scope.
Local Open Scope Z_scope.

(** ** JSON-like values ([any] in the source) *)

Inductive json : Type :=
| JNull : json
| JBool : bool -> json
| JNum : Q -> json
| JStr : string -> json
| JArr : list json -> json
| JObj : list (string * json) -> json.

(** ** src/shared/layering.ts *)

Module Layering.

Definition HORIZON_Y : Z := 45.

Definition BACKDROP_TAGS : list string :=
  ["sky"; "field"; "grass"; "ground"; "water"; "sand";
   "background_backdrop"; "backdrop"].

Definition lowerAscii (c : ascii) : ascii :=
  let n := nat_of_ascii c in
  if ((65 <=? n)%nat && (n <=? 90)%nat)%bool then ascii_of_nat (n + 32) else c.

(** [String.prototype.toLowerCase] on the code units the model covers. *)
Fixpoint toLowerCase (s : string) : string :=
  match s with
  | EmptyString => EmptyString
  | String c r => String (lowerAscii c) (toLowerCase r)
  end.

Definition has (set : list string) (x : string) : bool :=
  existsb (String.eqb x) set.

(** [LAYER_RANK[layer]]: [None] is the [undefined] of a missing key. *)
Definition LAYER_RANK (layer : string) : option Z :=
  if String.eqb layer "sky" then Some 0
  else if String.eqb layer "background" then Some 1
  else if String.eqb layer "ground" then Some 2
  else if String.eqb layer "foreground" then Some 3
  else None.

(** [!semanticTag] holds for [undefined] and for the empty string. *)
Definition isBackdrop (semanticTag : option string) : bool :=
  match semanticTag with
  | None => false
  | Some EmptyString => false
  | Some t => has BACKDROP_TAGS (toLowerCase t)
  end.

Definition getLayerRank (layer : string) : Z :=
  match LAYER_RANK layer with Some r => r | None => 9 end.

Definition getBackdropRank (semanticTag : option string) : Z :=
  if isBackdrop semanticTag then 0 else 1.

Definition computeOrderKey (layer : string) (semanticTag : option string) : Z :=
  let lr := getLayerRank layer in
  let br := getBackdropRank semanticTag in
  lr * 100 + br * 10.

End Layering.

(** ** src/shared/scene.ts: the typed data model *)

Inductive SceneObjectStatus := preview | committed.

#[global] Instance SceneObjectStatus_eq_dec : EqDecision SceneObjectStatus.
Proof. solve_decision. Defined.

Record Transform := mkTransform {
  t_x : Q; t_y : Q; t_scale : Q; t_rotation : Q }.

(** [Partial<Transform>]: [None] is a field that is absent (or not a number). *)
Record PartialTransform := mkPartial {
  pt_x : option Q; pt_y : option Q; pt_scale : option Q; pt_rotation : option Q }.

Inductive Mood := calm | bright | dramatic | sunset.

Record SceneIntent := mkIntent {
  description : string; mood : option Mood; paletteHint : option string }.

Record SceneObject := mkObject {
  obj_id : string;
  obj_status : SceneObjectStatus;
  obj_layer : string;
  obj_transform : Transform;
  obj_semanticTag : option string;
  obj_shapes : list json }.

Record SceneGraph := mkScene {
  sg_intent : option SceneIntent;
  sg_objects : gmap string SceneObject;
  sg_order : list string }.

Record Point := mkPoint { p_x : Q; p_y : Q }.

Record Gradient := mkGradient {
  g_from : Point; g_to : Point; g_stops : list (Q * string) }.

(** ** src/shared/commands.ts: the typed commands the reducer receives *)

(** The patch after the reducer's cast to [Partial<SceneObject>]. *)
Record Patch := mkPatch {
  patch_layer : option string;
  patch_status : option SceneObjectStatus;
  patch_transform : option PartialTransform;
  patch_semanticTag : option string;
  patch_shapes : option (list json) }.

Inductive DrawingCommand : Type :=
| set_scene_intent (intent : option SceneIntent)
| add_preview_object (object : SceneObject)
| update_preview_object (id : string) (patch : Patch)
| commit_preview_object (id : string)
| cancel_preview_object (id : string)
| add_object (object : SceneObject)
| update_object (id : string) (patch : Patch)
| delete_object (id : string)
| set_background_gradient (gradient : Gradient)
| set_ground_fill (fill : string)
| set_path (id : string) (bezierPoints : list Point) (widthNear widthFar : Q)
| batch (commands : list DrawingCommand).

(** ** src/server/reducer.ts *)

Module Reducer.

(** [Math.min(hi, n)] and [Math.max(lo, n)] on numbers. *)
Definition mathMin (hi n : Q) : Q := if Qle_bool n hi then n else hi.
Definition mathMax (lo n : Q) : Q := if Qle_bool lo n then n else lo.

Definition clamp (n lo hi : Q) : Q := mathMax lo (mathMin hi n).

Definition numberOr (v : option Q) (d : Q) : Q :=
  match v with Some n => n | None => d end.

Definition clampTransform (t : PartialTransform) : Transform :=
  {| t_x := clamp (numberOr (pt_x t) 50) 0 100;
     t_y := clamp (numberOr (pt_y t) 50) 0 100;
     t_scale := clamp (numberOr (pt_scale t) 1) (1 # 10) 3;
     t_rotation := clamp (numberOr (pt_rotation t) 0) (-180) 180 |}.

Definition orderKey (obj : SceneObject) : Z :=
  Layering.computeOrderKey (obj_layer obj) (obj_semanticTag obj).

(** The [for] loop of [insertIntoOrder]: the first index whose object exists
    with a key strictly above [k], or the length of the list. *)
Fixpoint insertIndex (objects : gmap string SceneObject) (k : Z)
    (without : list string) : nat :=
  match without with
  | [] => 0%nat
  | otherId :: rest =>
      match objects !! otherId with
      | None => S (insertIndex objects k rest)
      | Some other =>
          if k <? orderKey other then 0%nat
          else S (insertIndex objects k rest)
      end
  end.

(** [arr.splice(idx, 0, x)]. *)
Definition splice (arr : list string) (idx : nat) (x : string) : list string :=
  take idx arr ++ x :: drop idx arr.

Definition insertIntoOrder (scene : SceneGraph) (id : string) : list string :=
  match sg_objects scene !! id with
  | None => sg_order scene
  | Some obj =>
      let k := orderKey obj in
      let without := filter (λ x, x ≠ id) (sg_order scene) in
      splice without (insertIndex (sg_objects scene) k without) id
  end.

Definition createEmptyScene : SceneGraph :=
  {| sg_intent := None; sg_objects := ∅; sg_order := [] |}.

(** [{ ...existing.transform, ...patch.transform }] *)
Definition spreadTransform (t : Transform) (p : PartialTransform) : PartialTransform :=
  {| pt_x := Some (numberOr (pt_x p) (t_x t));
     pt_y := Some (numberOr (pt_y p) (t_y t));
     pt_scale := Some (numberOr (pt_scale p) (t_scale t));
     pt_rotation := Some (numberOr (pt_rotation p) (t_rotation t)) |}.

(** The object literal [updated] of the update case. *)
Definition applyPatch (existing : SceneObject) (patch : Patch) : SceneObject :=
  let mergedTransform :=
    match patch_transform patch with
    | Some pt => clampTransform (spreadTransform (obj_transform existing) pt)
    | None => obj_transform existing
    end in
  {| obj_id := obj_id existing;
     obj_status := default (obj_status existing) (patch_status patch);
     obj_layer := default (obj_layer existing) (patch_layer patch);
     obj_transform := mergedTransform;
     obj_semanticTag :=
       match patch_semanticTag patch with
       | Some tag => Some tag
       | None => obj_semanticTag existing
       end;
     obj_shapes := default (obj_shapes existing) (patch_shapes patch) |}.

(** The case [add_preview_object] / [add_object] of [applyCommand]. *)
Definition addObject (scene : SceneGraph) (obj : SceneObject) : SceneGraph :=
  match sg_objects scene !! obj_id obj with
  | Some _ => scene
  | None =>
      let nextObjects := <[obj_id obj := obj]> (sg_objects scene) in
      let nextScene := {| sg_intent := sg_intent scene;
                          sg_objects := nextObjects;
                          sg_order := sg_order scene |} in
      {| sg_intent := sg_intent scene;
         sg_objects := nextObjects;
         sg_order := insertIntoOrder nextScene (obj_id obj) |}
  end.

(** The case [update_preview_object] / [update_object] of [applyCommand]. *)
Definition updateObject (scene : SceneGraph) (id : string) (patch : Patch)
    : SceneGraph :=
  match sg_objects scene !! id with
  | None => scene
  | Some existing =>
      let updated := applyPatch existing patch in
      let nextObjects := <[id := updated]> (sg_objects scene) in
      if orderKey existing =? orderKey updated then
        {| sg_intent := sg_intent scene;
           sg_objects := nextObjects;
           sg_order := sg_order scene |}
      else
        let nextScene := {| sg_intent := sg_intent scene;
                            sg_objects := nextObjects;
                            sg_order := sg_order scene |} in
        {| sg_intent := sg_intent scene;
           sg_objects := nextObjects;
           sg_order := insertIntoOrder nextScene id |}
  end.

(** The case [commit_preview_object] of [applyCommand]. *)
Definition commitObject (scene : SceneGraph) (id : string) : SceneGraph :=
  match sg_objects scene !! id with
  | None => scene
  | Some existing =>
      match obj_status existing with
      | committed => scene
      | preview =>
          let committedObj :=
            {| obj_id := obj_id existing;
               obj_status := committed;
               obj_layer := obj_layer existing;
               obj_transform := obj_transform existing;
               obj_semanticTag := obj_semanticTag existing;
               obj_shapes := obj_shapes existing |} in
          {| sg_intent := sg_intent scene;
             sg_objects := <[id := committedObj]> (sg_objects scene);
             sg_order := sg_order scene |}
      end
  end.

(** The case [cancel_preview_object] / [delete_object] of [applyCommand]. *)
Definition removeObject (scene : SceneGraph) (id : string) : SceneGraph :=
  match sg_objects scene !! id with
  | None => scene
  | Some _ =>
      {| sg_intent := sg_intent scene;
         sg_objects := delete id (sg_objects scene);
         sg_order := filter (λ x, x ≠ id) (sg_order scene) |}
  end.

Fixpoint applyCommand (scene : SceneGraph) (command : DrawingCommand)
    : SceneGraph :=
  match command with
  | set_scene_intent i =>
      {| sg_intent := i;
         sg_objects := sg_objects scene;
         sg_order := sg_order scene |}
  | add_preview_object obj | add_object obj => addObject scene obj
  | update_preview_object id patch | update_object id patch =>
      updateObject scene id patch
  | commit_preview_object id => commitObject scene id
  | cancel_preview_object id | delete_object id => removeObject scene id
  | set_background_gradient _ | set_ground_fill _ | set_path _ _ _ _ => scene
  | batch commands =>
      (fix loop (cmds : list DrawingCommand) (result : SceneGraph) :=
         match cmds with
         | [] => result
         | cmd :: rest => loop rest (applyCommand result cmd)
         end) commands scene
  end.

Fixpoint applyCommands (scene : SceneGraph) (commands : list DrawingCommand)
    : SceneGraph :=
  match commands with
  | [] => scene
  | cmd :: rest => applyCommands (applyCommand scene cmd) rest
  end.

End Reducer.


(** ** JavaScript object operations on [json]

    The director code is written against [any]; these are the property reads,
    spreads and deletes it performs. [None] stands for [undefined]. *)

Module Js.

Definition fields := list (string * json).

(** [o[k]] on the own properties of an object literal. *)
Fixpoint get (k : string) (fs : fields) : option json :=
  match fs with
  | [] => None
  | (k', v) :: rest => if String.eqb k' k then Some v else get k rest
  end.

(** [f(o[k])], written so that [f] may recurse into the value. *)
Definition getWith {A} (f : json -> A) (k : string) : fields -> option A :=
  fix go (fs : fields) : option A :=
    match fs with
    | [] => None
    | (k', v) :: rest => if String.eqb k' k then Some (f v) else go rest
    end.

(** [{ ...o, k: v }]: an existing key keeps its place, a new one goes last. *)
Fixpoint set (k : string) (v : json) (fs : fields) : fields :=
  match fs with
  | [] => [(k, v)]
  | (k', v') :: rest =>
      if String.eqb k' k then (k, v) :: rest else (k', v') :: set k v rest
  end.

(** [delete o[k]], also the rest of [const { k, ...rest } = o]. *)
Fixpoint remove (k : string) (fs : fields) : fields :=
  match fs with
  | [] => []
  | (k', v') :: rest =>
      if String.eqb k' k then remove k rest else (k', v') :: remove k rest
  end.

(** ["k" in o] *)
Definition hasKey (k : string) (fs : fields) : bool :=
  match get k fs with Some _ => true | None => false end.

(** [v.k] for a non-null [v]; arrays and primitives have none of the names
    the director reads. *)
Definition prop (v : json) (k : string) : option json :=
  match v with JObj fs => get k fs | _ => None end.

(** JavaScript truthiness; [undefined] is falsy. *)
Definition truthy (v : option json) : bool :=
  match v with
  | None | Some JNull => false
  | Some (JBool b) => b
  | Some (JNum q) => negb (Qeq_bool q 0)
  | Some (JStr s) => negb (String.eqb s "")
  | Some (JArr _) | Some (JObj _) => true
  end.

(** [typeof v === "object"] (true of [null] as well). *)
Definition typeofObject (v : option json) : bool :=
  match v with
  | Some JNull | Some (JArr _) | Some (JObj _) => true
  | _ => false
  end.

Definition isString (v : option json) : bool :=
  match v with Some (JStr _) => true | _ => false end.

Definition isNumber (v : option json) : bool :=
  match v with Some (JNum _) => true | _ => false end.

Definition isArray (v : option json) : bool :=
  match v with Some (JArr _) => true | _ => false end.

(** [v === "s"] *)
Definition isStr (v : option json) (s : string) : bool :=
  match v with Some (JStr s') => String.eqb s' s | _ => false end.

(** [a ?? b]: [null] and [undefined] fall through. *)
Definition nullish (a : option json) (b : option json) : option json :=
  match a with None | Some JNull => b | Some _ => a end.

Definition indexKey (i : nat) : string :=
  NilEmpty.string_of_uint (Nat.to_uint i).

Fixpoint indexed {A} (f : A -> json) (i : nat) (l : list A) : fields :=
  match l with
  | [] => []
  | x :: rest => (indexKey i, f x) :: indexed f (S i) rest
  end.

Fixpoint chars (s : string) : list string :=
  match s with
  | EmptyString => []
  | String c rest => String c EmptyString :: chars rest
  end.

(** The own enumerable properties a spread [{ ...v }] copies. *)
Definition spread (v : option json) : fields :=
  match v with
  | Some (JObj fs) => fs
  | Some (JArr l) => indexed (fun x => x) 0 l
  | Some (JStr s) => indexed JStr 0 (chars s)
  | _ => []
  end.

End Js.

(** ** The command grammar: src/shared/scene.ts, vectorShapes.ts, commands.ts
    and the envelope schema of ws.ts

    Each zod schema is the boolean function "[safeParse] succeeds". A zod
    object ignores keys it does not declare unless it is [.strict()]; the
    parameter [exact] turns every object schema strict, which describes the
    values that carry the declared keys and nothing else. *)

Module Schema.
Import Js.

Definition check := json -> bool.

(** A declared key: its name, whether it is required, its schema. *)
Definition fieldSpec : Type := string * bool * check.
Definition req (k : string) (c : check) : fieldSpec := (k, true, c).
Definition opt (k : string) (c : check) : fieldSpec := (k, false, c).

Definition declared (spec : list fieldSpec) : list string :=
  map (fun f => fst (fst f)) spec.

Definition keysWithin (names : list string) (fs : fields) : bool :=
  forallb (fun kv => Layering.has names (fst kv)) fs.

Definition fieldOk (fs : fields) (f : fieldSpec) : bool :=
  match get (fst (fst f)) fs with
  | Some v => snd f v
  | None => negb (snd (fst f))
  end.

Definition zObject (strict : bool) (spec : list fieldSpec) : check :=
  fun v =>
    match v with
    | JObj fs =>
        forallb (fieldOk fs) spec
        && (negb strict || keysWithin (declared spec) fs)
    | _ => false
    end.

Definition zAny : check := fun _ => true.
Definition zString : check := fun v => isString (Some v).
Definition zBoolean : check :=
  fun v => match v with JBool _ => true | _ => false end.
Definition zNumber : check := fun v => isNumber (Some v).
Definition zLiteral (s : string) : check := fun v => isStr (Some v) s.
Definition zEnum (names : list string) : check :=
  fun v => match v with JStr s => Layering.has names s | _ => false end.
Definition zNullable (c : check) : check :=
  fun v => match v with JNull => true | _ => c v end.
Definition zArray (c : check) : check :=
  fun v => match v with JArr l => forallb c l | _ => false end.
Definition zNumberMin (lo : Q) : check :=
  fun v => match v with JNum q => Qle_bool lo q | _ => false end.
Definition zNumberRange (lo hi : Q) : check :=
  fun v => match v with JNum q => Qle_bool lo q && Qle_bool q hi | _ => false end.
Definition zStringMax (n : nat) : check :=
  fun v => match v with JStr s => (String.length s <=? n)%nat | _ => false end.
Definition zStringMinMax (lo hi : nat) : check :=
  fun v =>
    match v with
    | JStr s => ((lo <=? String.length s) && (String.length s <=? hi))%nat
    | _ => false
    end.
Definition arrayLength (v : json) : nat :=
  match v with JArr l => length l | _ => 0%nat end.

Section Grammar.
Variable exact : bool.

(** *** scene.ts *)

Definition SemanticTagSchema : check := zStringMinMax 1 32.
Definition SceneLayer : check := zEnum ["sky"; "ground"; "background"; "foreground"].
Definition SceneObjectStatusSchema : check := zEnum ["preview"; "committed"].

Definition PointSchema : check :=
  zObject exact [req "x" (zNumberRange 0 100); req "y" (zNumberRange 0 100)].

Definition TransformSchema : check :=
  zObject exact
    [req "x" (zNumberRange 0 100); req "y" (zNumberRange 0 100);
     req "scale" (zNumberRange (1 # 10) 3);
     req "rotation" (zNumberRange (-180) 180)].

Definition SceneIntentSchema : check :=
  zObject exact
    [req "description" zString;
     opt "mood" (zEnum ["calm"; "bright"; "dramatic"; "sunset"]);
     opt "paletteHint" zString].

Definition GradientSchema : check :=
  zObject exact
    [req "kind" (zLiteral "linear"); req "from" PointSchema; req "to" PointSchema;
     req "stops"
       (zArray (zObject exact
                  [req "offset" (zNumberRange 0 1); req "color" zString]))].

(** *** vectorShapes.ts *)

(** The second refinement: every even index holds a number in [0,1]. *)
Fixpoint stopsAtEvenIndexes (arr : list json) : bool :=
  match arr with
  | [] => true
  | stop :: rest =>
      zNumberRange 0 1 stop
      && match rest with
         | [] => true
         | _ :: rest' => stopsAtEvenIndexes rest'
         end
  end.

Definition GradientColorStopsSchema : check :=
  fun v =>
    match v with
    | JArr arr =>
        forallb (fun e => zNumber e || zString e) arr
        && Nat.even (length arr)
        && stopsAtEvenIndexes arr
    | _ => false
    end.

Definition GradientPointSchema : check :=
  zObject exact [req "x" zNumber; req "y" zNumber].

Definition VectorShapeBase : list fieldSpec :=
  [req "id" zString;
   opt "role" zString;
   opt "opacity" (zNumberRange 0 1);
   opt "fill" zString;
   opt "stroke" zString;
   opt "strokeWidth" (zNumberRange 0 20);
   opt "fillLinearGradientStartPoint" GradientPointSchema;
   opt "fillLinearGradientEndPoint" GradientPointSchema;
   opt "fillLinearGradientColorStops" GradientColorStopsSchema;
   opt "fillRadialGradientStartPoint" GradientPointSchema;
   opt "fillRadialGradientEndPoint" GradientPointSchema;
   opt "fillRadialGradientStartRadius" (zNumberMin 0);
   opt "fillRadialGradientEndRadius" (zNumberMin 0);
   opt "fillRadialGradientColorStops" GradientColorStopsSchema].

Definition extend (base more : list fieldSpec) : check :=
  zObject exact (base ++ more).

Definition RectSchema : check :=
  extend VectorShapeBase
    [req "type" (zLiteral "rect"); req "x" zNumber; req "y" zNumber;
     req "width" (zNumberMin 0); req "height" (zNumberMin 0);
     opt "cornerRadius" (zNumberMin 0)].

Definition CircleSchema : check :=
  extend VectorShapeBase
    [req "type" (zLiteral "circle"); req "x" zNumber; req "y" zNumber;
     req "radius" (zNumberMin 0)].

Definition EllipseSchema : check :=
  extend VectorShapeBase
    [req "type" (zLiteral "ellipse"); req "x" zNumber; req "y" zNumber;
     req "radiusX" (zNumberMin 0); req "radiusY" (zNumberMin 0)].

Definition PointsSchema : check :=
  fun v => zArray zNumber v && (arrayLength v <=? 200)%nat.

Definition LineSchema : check :=
  extend VectorShapeBase
    [req "type" (zLiteral "line");
     req "points" (fun v => PointsSchema v && Nat.even (arrayLength v))].

Definition PolylineSchema : check :=
  extend VectorShapeBase
    [req "type" (zLiteral "polyline"); req "points" PointsSchema;
     opt "closed" zBoolean].

Definition PolygonSchema : check :=
  extend VectorShapeBase
    [req "type" (zLiteral "polygon"); req "points" PointsSchema].

Definition PathSchema : check :=
  extend VectorShapeBase
    [req "type" (zLiteral "path"); req "d" (zStringMax 800)].

Definition TextSchema : check :=
  extend VectorShapeBase
    [req "type" (zLiteral "text"); req "x" zNumber; req "y" zNumber;
     req "text" (zStringMax 80);
     opt "fontSize" (zNumberRange 6 96);
     opt "fontFamily" zString;
     opt "align" (zEnum ["left"; "center"; "right"])].

(** [z.discriminatedUnion("type", ...)] *)
Definition VectorShapeSchema : check :=
  fun v =>
    match prop v "type" with
    | Some (JStr t) =>
        if String.eqb t "rect" then RectSchema v
        else if String.eqb t "circle" then CircleSchema v
        else if String.eqb t "ellipse" then EllipseSchema v
        else if String.eqb t "line" then LineSchema v
        else if String.eqb t "polyline" then PolylineSchema v
        else if String.eqb t "polygon" then PolygonSchema v
        else if String.eqb t "path" then PathSchema v
        else if String.eqb t "text" then TextSchema v
        else false
    | _ => false
    end.

Definition SceneObjectSchema : check :=
  zObject exact
    [req "id" zString;
     req "status" SceneObjectStatusSchema;
     req "layer" SceneLayer;
     req "transform" TransformSchema;
     opt "semanticTag" SemanticTagSchema;
     req "shapes"
       (fun v => zArray VectorShapeSchema v
                 && (1 <=? arrayLength v)%nat && (arrayLength v <=? 60)%nat)].

(** *** commands.ts *)

Definition patchKeys : list fieldSpec :=
  [opt "layer" zAny; opt "status" zAny; opt "transform" zAny;
   opt "semanticTag" zAny; opt "shapes" zAny].

(** [z.object({...}).strict().refine(data => !('id' in data || 'type' in data))] *)
Definition PatchSchema : check :=
  fun v =>
    zObject true patchKeys v
    && match v with
       | JObj data => negb (hasKey "id" data || hasKey "type" data)
       | _ => false
       end.

(** [SceneObjectSchema.refine(o => o.status === s)] *)
Definition objectWithStatus (s : string) : check :=
  fun v => SceneObjectSchema v && isStr (prop v "status") s.

Definition commandsArray (each : check) : check :=
  fun v => match v with JArr l => forallb each l | _ => false end.

Fixpoint DrawingCommandSchema (v : json) : bool :=
  match v with
  | JObj fs =>
      match get "type" fs with
      | Some (JStr t) =>
          if String.eqb t "set_scene_intent" then
            zObject exact [req "type" (zLiteral "set_scene_intent");
                           req "intent" (zNullable SceneIntentSchema)] v
          else if String.eqb t "add_preview_object" then
            zObject exact [req "type" (zLiteral "add_preview_object");
                           req "object" (objectWithStatus "preview")] v
          else if String.eqb t "update_preview_object" then
            zObject exact [req "type" (zLiteral "update_preview_object");
                           req "id" zString; req "patch" PatchSchema] v
          else if String.eqb t "commit_preview_object" then
            zObject exact [req "type" (zLiteral "commit_preview_object");
                           req "id" zString] v
          else if String.eqb t "cancel_preview_object" then
            zObject exact [req "type" (zLiteral "cancel_preview_object");
                           req "id" zString] v
          else if String.eqb t "add_object" then
            zObject exact [req "type" (zLiteral "add_object");
                           req "object" (objectWithStatus "committed")] v
          else if String.eqb t "update_object" then
            zObject exact [req "type" (zLiteral "update_object");
                           req "id" zString; req "patch" PatchSchema] v
          else if String.eqb t "delete_object" then
            zObject exact [req "type" (zLiteral "delete_object");
                           req "id" zString] v
          else if String.eqb t "set_background_gradient" then
            zObject exact [req "type" (zLiteral "set_background_gradient");
                           req "gradient" GradientSchema] v
          else if String.eqb t "set_ground_fill" then
            zObject exact [req "type" (zLiteral "set_ground_fill");
                           req "fill" zString] v
          else if String.eqb t "set_path" then
            zObject exact [req "type" (zLiteral "set_path");
                           req "id" zString;
                           req "bezierPoints" (zArray PointSchema);
                           req "widthNear" (zNumberRange 0 50);
                           req "widthFar" (zNumberRange 0 50)] v
          else if String.eqb t "batch" then
            match getWith (commandsArray DrawingCommandSchema) "commands" fs with
            | Some inner =>
                inner && (negb exact || keysWithin ["type"; "commands"] fs)
            | None => false
            end
          else false
      | _ => false
      end
  | _ => false
  end.

(** *** ws.ts *)

Definition CommandEnvelopeSchema : check :=
  zObject exact
    [req "commands" (zArray DrawingCommandSchema);
     opt "notes" zString;
     opt "refused" zBoolean;
     opt "refusalReason" zString].

End Grammar.

(** [CommandEnvelopeSchema.safeParse(v).success] *)
Definition validates (v : json) : bool := CommandEnvelopeSchema false v.

(** [v] validates and carries no key the grammar does not declare. *)
Definition wellFormedExactly (v : json) : bool := CommandEnvelopeSchema true v.

End Schema.

(** ** The director's repair stages (src/unnamed/part_008) *)

Module Director.
Import Js.

(** *** Utterance tests

    Every pattern used by the guard has the form [/\b(w1|...|wn)\b/i] with
    alternatives that begin and end with a letter. *)

Definition isWordChar (c : ascii) : bool :=
  let n := nat_of_ascii c in
  ((48 <=? n) && (n <=? 57) || (65 <=? n) && (n <=? 90)
   || (97 <=? n) && (n <=? 122) || (n =? 95))%nat.

(** The text left after [w] when [s] begins with [w], letter case ignored. *)
Fixpoint afterPrefix (w s : string) : option string :=
  match w, s with
  | EmptyString, _ => Some s
  | String a w', String b s' =>
      if Ascii.eqb (Layering.lowerAscii a) (Layering.lowerAscii b)
      then afterPrefix w' s' else None
  | String _ _, EmptyString => None
  end.

(** [\b] after the match: end of input or a non-word character. *)
Definition boundaryHere (rest : string) : bool :=
  match rest with
  | EmptyString => true
  | String c _ => negb (isWordChar c)
  end.

Definition wordHere (words : list string) (s : string) : bool :=
  existsb (fun w => match afterPrefix w s with
                    | Some rest => boundaryHere rest
                    | None => false
                    end) words.

(** [prevIsWord] tells whether the character before [s] is a word character;
    the leading [\b] needs it to be false. *)
Fixpoint scanWords (words : list string) (prevIsWord : bool) (s : string) : bool :=
  (negb prevIsWord && wordHere words s)
  || match s with
     | EmptyString => false
     | String c rest => scanWords words (isWordChar c) rest
     end.

Definition testWords (words : list string) (utterance : string) : bool :=
  scanWords words false utterance.

Definition deleteWords : list string :=
  ["delete"; "remove"; "erase"; "clear"; "get rid"; "discard"; "wipe"].
Definition cancelWords : list string := ["cancel"; "discard"; "undo"].
Definition convertWords : list string :=
  ["turn into"; "convert"; "transform"; "change into"; "make it into"].

Definition userExplicitlyWantsDelete (utterance : string) : bool :=
  testWords deleteWords utterance.
Definition userExplicitlyWantsCancel (utterance : string) : bool :=
  testWords cancelWords utterance.
Definition userExplicitlyWantsConvert (utterance : string) : bool :=
  testWords convertWords utterance.

(** *** normalizeToEnvelope *)

Definition normalizeToEnvelope (candidate : json) : json :=
  match candidate with
  | JObj _ | JArr _ =>
      let candidate :=
        match prop candidate "envelope" with
        | Some (JObj e) => JObj e
        | Some (JArr e) => JArr e
        | _ => candidate
        end in
      match candidate with
      | JObj fs =>
          if (hasKey "refused" fs || hasKey "refusalReason" fs || hasKey "notes" fs)
             && negb (hasKey "commands" fs)
          then JObj (set "commands" (JArr []) fs)
          else if hasKey "commands" fs then candidate
          else if isString (get "type" fs) then JObj [("commands", JArr [candidate])]
          else candidate
      | _ => candidate
      end
  | _ => candidate
  end.

Definition clamp01to100 (n : Q) : Q := Reducer.clamp n 0 100.

Section Normalizer.

(** The template [`obj_${cmd.object_type ?? "obj"}_${Date.now()}`]: it reads
    the clock, so the text it yields for a given [cmd.object_type] is a
    parameter. *)
Variable syntheticId : option json -> string.

Definition clampIfNumber (p : json) : json :=
  match p with JNum n => JNum (clamp01to100 n) | _ => p end.

(** The callback of [cmd.shapes.map] in the legacy add repair. *)
Definition legacyShape (s : json) : json :=
  let out := spread (Some s) in
  let out := match get "x" out with
             | Some (JNum x) => set "x" (JNum (clamp01to100 x)) out
             | _ => out
             end in
  let out := match get "y" out with
             | Some (JNum y) => set "y" (JNum (clamp01to100 y)) out
             | _ => out
             end in
  let out := match get "points" out with
             | Some (JArr pts) => set "points" (JArr (map clampIfNumber pts)) out
             | _ => out
             end in
  JObj out.

Definition defaultTransform : json :=
  JObj [("x", JNum 50); ("y", JNum 70); ("scale", JNum 1); ("rotation", JNum 0)].

Definition orNull (v : option json) : json :=
  match v with Some x => x | None => JNull end.

(** An array passes the [typeof cmd === "object"] guard, but it has none of
    the properties read below, so it comes back unchanged. A key whose value
    would be [undefined] ([semanticTag]) is left out. *)
Definition normalizeLegacyCommand (cmd : json) : json :=
  match cmd with
  | JObj fs =>
      let fs :=
        match get "command_type" fs with
        | Some (JStr ct) =>
            if negb (truthy (get "type" fs))
            then remove "command_type" (set "type" (JStr ct) fs)
            else fs
        | _ => fs
        end in
      let fs :=
        match get "object_id" fs with
        | Some (JStr oid) =>
            if negb (truthy (get "objectId" fs))
            then remove "object_id" (set "objectId" (JStr oid) fs)
            else fs
        | _ => fs
        end in
      if (isStr (get "type" fs) "add_preview_object"
          || isStr (get "type" fs) "add_object")
         && negb (truthy (get "object" fs))
      then
        let id :=
          nullish (get "object_id" fs)
            (nullish (get "objectId" fs)
               (Some (JStr (syntheticId (nullish (get "object_type" fs) None))))) in
        let layer := nullish (get "layer" fs) (Some (JStr "ground")) in
        let status :=
          if isStr (get "type" fs) "add_preview_object"
          then "preview" else "committed" in
        let shapes :=
          match get "shapes" fs with
          | Some (JArr l) => map legacyShape l
          | _ => []
          end in
        JObj [("type", orNull (get "type" fs));
              ("object",
               JObj ([("id", orNull id); ("status", JStr status);
                      ("layer", orNull layer);
                      ("transform",
                       orNull (nullish (get "transform" fs) (Some defaultTransform)))]
                     ++ match nullish (get "object_type" fs) None with
                        | Some tag => [("semanticTag", tag)]
                        | None => []
                        end
                     ++ [("shapes", JArr shapes)]))]
      else JObj fs
  | _ => cmd
  end.

Definition COMMANDS_THAT_REQUIRE_TARGET_ID : list string :=
  ["update_preview_object"; "commit_preview_object"; "cancel_preview_object";
   "update_object"; "delete_object"; "set_path"].

Definition nonEmptyString (v : option json) : option string :=
  match v with
  | Some (JStr s) => if String.eqb s "" then None else Some s
  | _ => None
  end.

(** [(typeof cmd.id === "string" && cmd.id) || ... objectId ... || ... object_id]
    when it is a string of positive length. *)
Definition targetOf (fs : fields) : option string :=
  match nonEmptyString (get "id" fs) with
  | Some s => Some s
  | None =>
      match nonEmptyString (get "objectId" fs) with
      | Some s => Some s
      | None => nonEmptyString (get "object_id" fs)
      end
  end.

Definition mapArray (f : json -> json) (v : json) : option (list json) :=
  match v with JArr l => Some (map f l) | _ => None end.

(** The first block only fires for the six target types and leaves [type] and
    [commands] alone, so the batch block reads [commands] from the incoming
    fields. *)
Fixpoint normalizeTargetId (cmd : json) : json :=
  match cmd with
  | JObj fs =>
      let fs1 :=
        match get "type" fs with
        | Some (JStr type) =>
            if Layering.has COMMANDS_THAT_REQUIRE_TARGET_ID type then
              let c := match targetOf fs with
                       | Some target => set "id" (JStr target) fs
                       | None => fs
                       end in
              let c := if hasKey "objectId" c then remove "objectId" c else c in
              if hasKey "object_id" c then remove "object_id" c else c
            else fs
        | _ => fs
        end in
      if isStr (get "type" fs1) "batch" then
        match getWith (mapArray normalizeTargetId) "commands" fs with
        | Some (Some commands) => JObj (set "commands" (JArr commands) fs1)
        | _ => JObj fs1
        end
      else JObj fs1
  | _ => cmd
  end.

(** [if (a && !patch.k) patch.k = a] *)
Definition foldInto (k : string) (a : option json) (ok : bool) (patch : fields)
    : fields :=
  match a with
  | Some v => if ok && negb (truthy (get k patch)) then set k v patch else patch
  | None => patch
  end.

Definition foldFromObject (o : json) (patch : fields) : fields :=
  let patch := foldInto "transform" (prop o "transform")
                 (truthy (prop o "transform")) patch in
  let patch := foldInto "shapes" (prop o "shapes")
                 (isArray (prop o "shapes")) patch in
  let patch := foldInto "semanticTag" (prop o "semanticTag")
                 (truthy (prop o "semanticTag")) patch in
  let patch := foldInto "layer" (prop o "layer") (truthy (prop o "layer")) patch in
  foldInto "status" (prop o "status") (truthy (prop o "status")) patch.

Fixpoint normalizeMissingPatch (cmd : json) : json :=
  match cmd with
  | JObj fs =>
      if isStr (get "type" fs) "batch" && isArray (get "commands" fs) then
        match getWith (mapArray normalizeMissingPatch) "commands" fs with
        | Some (Some commands) => JObj (set "commands" (JArr commands) fs)
        | _ => cmd
        end
      else if isStr (get "type" fs) "update_object"
              || isStr (get "type" fs) "update_preview_object" then
        let patch :=
          if truthy (get "patch" fs) && typeofObject (get "patch" fs)
          then spread (get "patch" fs) else [] in
        let patch := foldInto "transform" (get "transform" fs)
                       (truthy (get "transform" fs)) patch in
        let patch := foldInto "shapes" (get "shapes" fs)
                       (truthy (get "shapes" fs)) patch in
        let patch :=
          match get "object" fs with
          | Some (JObj o) => foldFromObject (JObj o) patch
          | Some (JArr o) => foldFromObject (JArr o) patch
          | _ => patch
          end in
        match patch with
        | [] => cmd
        | _ =>
            let rest := remove "object" (remove "shapes" (remove "transform" fs)) in
            JObj (set "patch" (JObj patch) rest)
        end
      else cmd
  | _ => cmd
  end.

Definition normalizeLineShape (shape : json) : json :=
  match shape with
  | JObj fs =>
      if isStr (get "type" fs) "line" then
        match get "x1" fs, get "y1" fs, get "x2" fs, get "y2" fs with
        | Some (JNum x1), Some (JNum y1), Some (JNum x2), Some (JNum y2) =>
            if isArray (get "points" fs) then shape
            else
              let rest := remove "y2" (remove "x2" (remove "y1" (remove "x1" fs))) in
              JObj (set "points" (JArr [JNum x1; JNum y1; JNum x2; JNum y2]) rest)
        | _, _, _, _ => shape
        end
      else shape
  | _ => shape
  end.

Definition normalizeShapesInObject (obj : json) : json :=
  match obj with
  | JObj fs =>
      match get "shapes" fs with
      | Some (JArr shapes) => JObj (set "shapes" (JArr (map normalizeLineShape shapes)) fs)
      | _ => obj
      end
  | _ => obj
  end.

(** One turn of the [commands.map] callback. [None] is a thrown [TypeError]:
    reading [.type] of [null], or calling [.map] on shapes that are truthy but
    not an array. *)
Definition normalizeOneCommand (c : json) : option json :=
  let normalized := normalizeTargetId (normalizeLegacyCommand c) in
  let normalized := normalizeMissingPatch normalized in
  match normalized with
  | JNull => None
  | JObj fs =>
      if (isStr (get "type" fs) "add_preview_object"
          || isStr (get "type" fs) "add_object")
         && truthy (get "object" fs)
      then Some (JObj (set "object"
                         (normalizeShapesInObject (orNull (get "object" fs))) fs))
      else if (isStr (get "type" fs) "update_preview_object"
               || isStr (get "type" fs) "update_object")
              && truthy (match get "patch" fs with
                         | Some JNull | None => None
                         | Some p => prop p "shapes"
                         end)
      then
        match get "patch" fs with
        | Some (JObj patch) =>
            match get "shapes" patch with
            | Some (JArr shapes) =>
                Some (JObj (set "patch"
                              (JObj (set "shapes"
                                       (JArr (map normalizeLineShape shapes)) patch))
                              fs))
            | _ => None
            end
        | _ => None
        end
      else Some normalized
  | _ => Some normalized
  end.

Fixpoint mapThrowing (f : json -> option json) (l : list json)
    : option (list json) :=
  match l with
  | [] => Some []
  | x :: rest =>
      match f x with
      | None => None
      | Some y =>
          match mapThrowing f rest with
          | None => None
          | Some ys => Some (y :: ys)
          end
      end
  end.

Definition normalizeCommandArray (commands : list json) : option (list json) :=
  mapThrowing normalizeOneCommand commands.

(** The two normalizing statements of [generateCommandEnvelope], from the
    parsed value to the candidate handed to [safeParse]. *)
Definition normalizeCandidate (parsed : json) : option json :=
  let envelopeCandidate := normalizeToEnvelope parsed in
  match envelopeCandidate with
  | JObj fs =>
      match get "commands" fs with
      | Some (JArr commands) =>
          match normalizeCommandArray commands with
          | Some commands' => Some (JObj (set "commands" (JArr commands') fs))
          | None => None
          end
      | _ => Some envelopeCandidate
      end
  | _ => Some envelopeCandidate
  end.

End Normalizer.

(** *** stripDestructiveCommands *)

Record StripResult := mkStrip {
  cmds : list json; removed : nat; strippedSemantic : nat }.

(** [flatMap] with the two counters the callback increments. *)
Definition gather (parts : list StripResult) : StripResult :=
  fold_right
    (fun p acc => {| cmds := cmds p ++ cmds acc;
                     removed := removed p + removed acc;
                     strippedSemantic := strippedSemantic p + strippedSemantic acc |})
    {| cmds := []; removed := 0; strippedSemantic := 0 |} parts.

Definition stripArray (each : json -> StripResult) (v : json) : option StripResult :=
  match v with JArr l => Some (gather (map each l)) | _ => None end.

Definition keepCommand (cmd : json) : StripResult :=
  {| cmds := [cmd]; removed := 0; strippedSemantic := 0 |}.

(** The [flatMap] callback. *)
Fixpoint stripCommand (utterance : string) (cmd : json) : StripResult :=
  match cmd with
  | JObj fs =>
      match (if isStr (get "type" fs) "batch"
             then getWith (stripArray (stripCommand utterance)) "commands" fs
             else None) with
      | Some (Some inner) =>
          {| cmds := [JObj (set "commands" (JArr (cmds inner)) fs)];
             removed := removed inner;
             strippedSemantic := strippedSemantic inner |}
      | _ =>
          if isStr (get "type" fs) "delete_object"
             && negb (userExplicitlyWantsDelete utterance)
          then {| cmds := []; removed := 1; strippedSemantic := 0 |}
          else if isStr (get "type" fs) "cancel_preview_object"
                  && negb (userExplicitlyWantsCancel utterance)
          then {| cmds := []; removed := 1; strippedSemantic := 0 |}
          else
            match get "patch" fs with
            | Some (JObj patch) =>
                if (isStr (get "type" fs) "update_object"
                    || isStr (get "type" fs) "update_preview_object")
                   && hasKey "semanticTag" patch
                   && negb (userExplicitlyWantsConvert utterance)
                then {| cmds := [JObj (set "patch"
                                         (JObj (remove "semanticTag" patch)) fs)];
                        removed := 0; strippedSemantic := 1 |}
                else keepCommand cmd
            | _ => keepCommand cmd
            end
      end
  | _ => keepCommand cmd
  end.

Definition stripDestructiveCommands (commands : list json) (utterance : string)
    : StripResult :=
  gather (map (stripCommand utterance) commands).

(** *** Band stacks *)

Definition numberOrZero (v : option json) : Q :=
  match v with Some (JNum n) => n | _ => 0%Q end.

Definition Qltb (a b : Q) : bool := negb (Qle_bool b a).

Definition looksLikeFullWidthBandRect (shape : json) : bool :=
  isStr (prop shape "type") "rect"
  && (let x := numberOrZero (prop shape "x") in
      let w := numberOrZero (prop shape "width") in
      let h := numberOrZero (prop shape "height") in
      Qle_bool x 1 && Qle_bool 95 w && Qltb 0 h).

(** [a.y ?? 0] as the sort key of a band rect. A [y] that is present but not
    a number is read as 0 here, where JavaScript would coerce it; the order of
    the rects decides which rect gets which band, not the bands themselves. *)
Definition yKey (shape : json) : Q := numberOrZero (prop shape "y").

(** [Array.prototype.sort] is stable: an element goes before the first one
    whose key is not smaller than its own. *)
Fixpoint insertByY (r : json) (sorted : list json) : list json :=
  match sorted with
  | [] => [r]
  | a :: rest =>
      if Qle_bool (yKey r) (yKey a) then r :: a :: rest
      else a :: insertByY r rest
  end.

Definition sortByY (rects : list json) : list json :=
  fold_right insertByY [] rects.

Definition getBandRects (shapes : list json) : list json :=
  sortByY (filter (fun s => looksLikeFullWidthBandRect s = true) shapes).


(** The [rects.map] callback of [normalizeBandStack], with the two counters
    [rem] and [y] it updates passed along. *)
Fixpoint retile (base rem y : Q) (rects : list json) : list json :=
  match rects with
  | [] => []
  | r :: rest =>
      let extra := if Qltb 0 rem then 1%Q else 0%Q in
      let rem := if Qltb 0 rem then (rem - 1)%Q else rem in
      let h := (base + extra)%Q in
      let nr := set "height" (JNum h)
                  (set "width" (JNum 100)
                     (set "y" (JNum y)
                        (set "x" (JNum 0) (spread (Some r))))) in
      JObj nr :: retile base rem (y + h)%Q rest
  end.

Definition normalizeBandStack (shapes : list json) (targetHeight : Q)
    : option (list json) :=
  let rects := getBandRects shapes in
  if (length rects <? 3)%nat then None
  else
    let n := inject_Z (Z.of_nat (length rects)) in
    let base := inject_Z (Qfloor (targetHeight / n)) in
    let rem := (targetHeight - base * n)%Q in
    let outRects := retile base rem 0%Q rects in
    let others := filter (fun s => looksLikeFullWidthBandRect s <> true) shapes in
    Some (outRects ++ others).

(** *** The clamp of stabilizeNewObject

    The first statement of [stabilizeNewObject]: the object with its transform
    clamped. The rebase, shift, coverage and fit steps that follow round with
    [Math.round] and rewrite path data; they are not part of this model. *)

Definition clamp (n : Q) (lo hi : Q) : Q := Reducer.clamp n lo hi.

Definition transformNumber (obj : json) (k : string) (d : Q) : Q :=
  match prop obj "transform" with
  | Some t => match prop t k with Some (JNum n) => n | _ => d end
  | None => d
  end.

Definition clampedTransform (obj : json) : json :=
  let tx := transformNumber obj "x" 50 in
  let ty := transformNumber obj "y" 70 in
  let scale := transformNumber obj "scale" 1 in
  let rotation := transformNumber obj "rotation" 0 in
  JObj (set "rotation" (JNum (clamp rotation (-180) 180))
          (set "scale" (JNum (clamp scale (1 # 10) 3))
             (set "y" (JNum (clamp ty 0 100))
                (set "x" (JNum (clamp tx 0 100))
                   (spread (nullish (prop obj "transform") (Some (JObj [])))))))).

Definition stabilizeNewObject_clamp (obj : json) : json :=
  match obj with
  | JObj fs => JObj (set "transform" (clampedTransform obj) fs)
  | _ => obj
  end.

End Director.
(** ** Vocabulary of the reducer properties *)

Module ReducerSpec.
Import Reducer.

(** Scenes the reducer can produce, starting from [createEmptyScene]. *)
Inductive reachable : SceneGraph -> Prop :=
| reachable_empty : reachable createEmptyScene
| reachable_step scene command :
    reachable scene -> reachable (applyCommand scene command).

(** [order] lists exactly the keys of [objects], each once. *)
Definition orderIsKeySet (scene : SceneGraph) : Prop :=
  NoDup (sg_order scene) /\
  (forall id, id ∈ sg_order scene -> is_Some (sg_objects scene !! id)) /\
  (forall id, is_Some (sg_objects scene !! id) -> id ∈ sg_order scene).


Definition keyOf (objects : gmap string SceneObject) (id : string) : option Z :=
  orderKey <$> objects !! id.

Definition keyLe (objects : gmap string SceneObject) (a b : string) : Prop :=
  forall ka kb, keyOf objects a = Some ka -> keyOf objects b = Some kb -> ka <= kb.

(** Keys never decrease along [order]. *)
Definition orderedByKey (scene : SceneGraph) : Prop :=
  StronglySorted (keyLe (sg_objects scene)) (sg_order scene).

Definition sceneInvariant (scene : SceneGraph) : Prop :=
  orderIsKeySet scene /\ orderedByKey scene.

(** The recursive reading of "find the index, then splice". *)
Fixpoint insertByKey (objects : gmap string SceneObject) (k : Z) (id : string)
    (l : list string) : list string :=
  match l with
  | [] => [id]
  | x :: rest =>
      match objects !! x with
      | None => x :: insertByKey objects k id rest
      | Some other =>
          if k <? orderKey other then id :: x :: rest
          else x :: insertByKey objects k id rest
      end
  end.



Definition inBounds (t : Transform) : Prop :=
  (0 <= t_x t /\ t_x t <= 100)%Q /\ (0 <= t_y t /\ t_y t <= 100)%Q /\
  ((1 # 10) <= t_scale t /\ t_scale t <= 3)%Q /\
  (-180 <= t_rotation t /\ t_rotation t <= 180)%Q.


End ReducerSpec.

(** ** A small scene used by the examples *)

Module Examples.
Import Reducer.

Definition rectShape (id : string) (h : Q) : json :=
  JObj [("id", JStr id); ("type", JStr "rect"); ("x", JNum 0); ("y", JNum 0);
        ("width", JNum 100); ("height", JNum h)].

Definition skyObject : SceneObject :=
  {| obj_id := "sky-1"; obj_status := committed; obj_layer := "sky";
     obj_transform := mkTransform 0 0 1 0; obj_semanticTag := Some "sky";
     obj_shapes := [rectShape "sky-rect" 45] |}.

Definition sunObject : SceneObject :=
  {| obj_id := "sun-1"; obj_status := committed; obj_layer := "sky";
     obj_transform := mkTransform 78 20 1 0; obj_semanticTag := Some "sun";
     obj_shapes := [JObj [("id", JStr "sun-core"); ("type", JStr "circle");
                          ("x", JNum 0); ("y", JNum 0); ("radius", JNum 10)]] |}.

Definition treePreview : SceneObject :=
  {| obj_id := "tree-1"; obj_status := preview; obj_layer := "foreground";
     obj_transform := mkTransform 18 8 1 0; obj_semanticTag := Some "tree";
     obj_shapes := [rectShape "trunk" 18] |}.

Definition exampleScene : SceneGraph :=
  applyCommands createEmptyScene
    [add_preview_object treePreview; add_object sunObject; add_object skyObject].

End Examples.

(** ** Vocabulary of the pipeline properties *)

Module DirectorSpec.
Import Js Schema Director.

(** [c] occurs in a command list, at the top or inside nested batches. *)
Inductive occursIn (c : json) : list json -> Prop :=
| occurs_here commands : In c commands -> occursIn c commands
| occurs_in_batch commands fs inner :
    In (JObj fs) commands ->
    isStr (get "type" fs) "batch" = true ->
    get "commands" fs = Some (JArr inner) ->
    occursIn c inner -> occursIn c commands.

Definition isUpdateCommand (fs : fields) : bool :=
  isStr (get "type" fs) "update_object"
  || isStr (get "type" fs) "update_preview_object".

Definition patchableKeys : list string :=
  ["layer"; "status"; "transform"; "semanticTag"; "shapes"].

(** The vocabulary of the claim, taken as one list. *)
Definition destructiveWords : list string :=
  ["delete"; "remove"; "erase"; "clear"; "discard"; "wipe"; "cancel"; "undo"].

Definition commandOfType (ty id : string) : json :=
  JObj [("type", JStr ty); ("id", JStr id)].



Definition tileOf (shape : json) : option json * option json :=
  (prop shape "y", prop shape "height").

Definition integerTile (t : Z * Z) : option json * option json :=
  (Some (JNum (inject_Z (fst t))), Some (JNum (inject_Z (snd t)))).

Definition bandRectsOf (shapes : list json) : list json :=
  filter (fun s => looksLikeFullWidthBandRect s = true) shapes.



(** A shape that [normalizeLineShape] leaves alone. *)
Definition settledShape (shape : json) : bool :=
  match shape with
  | JObj fs =>
      negb (isStr (get "type" fs) "line"
            && isNumber (get "x1" fs) && isNumber (get "y1" fs)
            && isNumber (get "x2" fs) && isNumber (get "y2" fs)
            && negb (isArray (get "points" fs)))
  | _ => true
  end.

(** The [shapes] of an update patch are falsy, or an array of settled shapes. *)
Definition settledPatchShapes (cmd : json) : bool :=
  match cmd with
  | JObj fs =>
      if isUpdateCommand fs then
        match get "patch" fs with
        | Some (JObj patch) =>
            match get "shapes" patch with
            | Some (JArr shapes) => forallb settledShape shapes
            | other => negb (truthy other)
            end
        | _ => true
        end
      else true
  | _ => true
  end.

Definition settledEnvelope (v : json) : bool :=
  match prop v "commands" with
  | Some (JArr commands) => forallb settledPatchShapes commands
  | _ => true
  end.

Definition isInert (c : DrawingCommand) : bool :=
  match c with
  | set_background_gradient _ | set_ground_fill _ | set_path _ _ _ _ => true
  | _ => false
  end.

(** The command types of the grammar. *)
Definition commandTypes : list string :=
  ["set_scene_intent"; "add_preview_object"; "update_preview_object";
   "commit_preview_object"; "cancel_preview_object"; "add_object";
   "update_object"; "delete_object"; "set_background_gradient";
   "set_ground_fill"; "set_path"; "batch"].

Definition isAddType (t : string) : Prop :=
  t = "add_preview_object" \/ t = "add_object".

Definition isUpdateType (t : string) : Prop :=
  t = "update_preview_object" \/ t = "update_object".

(** What the normalizer reads in a command that carries exactly its declared
    keys. *)
Record commandFacts (fs : fields) (t : string) : Prop := {
  fact_type : get "type" fs = Some (JStr t);
  fact_known : In t commandTypes;
  fact_command_type : get "command_type" fs = None;
  fact_object_id : get "object_id" fs = None;
  fact_objectId : get "objectId" fs = None;
  fact_transform : get "transform" fs = None;
  fact_shapes : get "shapes" fs = None;
  fact_id : Layering.has COMMANDS_THAT_REQUIRE_TARGET_ID t = true ->
            exists i, get "id" fs = Some (JStr i);
  fact_object : isAddType t ->
                exists obj, get "object" fs = Some obj /\
                            SceneObjectSchema true obj = true;
  fact_no_object : ~ isAddType t -> get "object" fs = None;
  fact_patch : isUpdateType t -> exists p, get "patch" fs = Some (JObj p);
  fact_batch : t = "batch" ->
               exists inner, get "commands" fs = Some (JArr inner) /\
                             forallb (DrawingCommandSchema true) inner = true }.

Definition fixedByTargetAndPatch (c : json) : Prop :=
  normalizeTargetId c = c /\ normalizeMissingPatch c = c.

End DirectorSpec.

(** ** Values used by the pipeline examples *)

Module PipelineExamples.
Import Js Schema Director DirectorSpec.

(** A clock that always yields the same synthetic id. *)
Definition frozenClock : option json -> string := fun _ => "obj_obj_0".

Definition envelopeOf (commands : list json) : json :=
  JObj [("commands", JArr commands)].

(** Test 4 of the validation tests: an update that patches [id]. *)
Definition illegalPatch : json :=
  envelopeOf
    [JObj [("type", JStr "update_object"); ("id", JStr "tree-1");
           ("patch", JObj [("id", JStr "evil-id")])]].

Definition legacyLine : json :=
  JObj [("id", JStr "l1"); ("type", JStr "line");
        ("x1", JNum 0); ("y1", JNum 0); ("x2", JNum 1); ("y2", JNum 1)].

Definition legacyLinePatch : json :=
  envelopeOf
    [JObj [("type", JStr "update_object"); ("id", JStr "tree-1");
           ("patch", JObj [("shapes", JArr [legacyLine])])]].

Definition legacyLinePatchNormalized : json :=
  envelopeOf
    [JObj [("type", JStr "update_object"); ("id", JStr "tree-1");
           ("patch",
            JObj [("shapes",
                   JArr [JObj [("id", JStr "l1"); ("type", JStr "line");
                               ("points", JArr [JNum 0; JNum 0; JNum 1; JNum 1])]])])]].

Definition strayTargetKey : json :=
  envelopeOf
    [JObj [("type", JStr "delete_object"); ("id", JStr "a");
           ("objectId", JStr "b")]].

Definition strayTargetKeyNormalized : json :=
  envelopeOf [JObj [("type", JStr "delete_object"); ("id", JStr "a")]].

Definition bandRect (id : string) (y h : Q) : json :=
  JObj [("id", JStr id); ("type", JStr "rect"); ("x", JNum 0); ("y", JNum y);
        ("width", JNum 100); ("height", JNum h); ("fill", JStr "#7ec8ff")].

Definition circleShape : json :=
  JObj [("id", JStr "sun-core"); ("type", JStr "circle");
        ("x", JNum 0); ("y", JNum 0); ("radius", JNum 10)].

Definition threeBands : list json :=
  [bandRect "low" 60 30; bandRect "top" 0 30; circleShape; bandRect "mid" 30 30].

Definition treeObjectJson : json :=
  JObj [("id", JStr "tree-1"); ("layer", JStr "foreground");
        ("status", JStr "committed");
        ("transform", JObj [("x", JNum 50); ("y", JNum 80);
                            ("scale", JNum 1); ("rotation", JNum 0)]);
        ("semanticTag", JStr "tree");
        ("shapes", JArr [JObj [("id", JStr "trunk"); ("type", JStr "rect");
                               ("x", JNum 45); ("y", JNum 70);
                               ("width", JNum 10); ("height", JNum 30);
                               ("fill", JStr "brown")];
                         JObj [("id", JStr "twig"); ("type", JStr "line");
                               ("points", JArr [JNum 0; JNum 0; JNum 3; JNum 4])]])].

(** Test 1 of the validation tests, with a batch and an update added. *)
Definition validEnvelope : json :=
  JObj [("commands",
         JArr [JObj [("type", JStr "add_object"); ("object", treeObjectJson)];
               JObj [("type", JStr "batch");
                     ("commands",
                      JArr [commandOfType "commit_preview_object" "p1";
                            JObj [("type", JStr "update_object"); ("id", JStr "tree-1");
                                  ("patch", JObj [("layer", JStr "ground")])]])];
               JObj [("type", JStr "set_ground_fill"); ("fill", JStr "#3db85a")]]);
        ("notes", JStr "ok")].



End PipelineExamples.

(** ** Induction through nested lists *)

Module Induction.

Section command_induction.
Variable P : DrawingCommand -> Prop.
Hypothesis Hbatch : forall cs, Forall P cs -> P (batch cs).
Hypothesis Hleaf : forall c, (forall cs, c <> batch cs) -> P c.

Fixpoint command_ind_nested (c : DrawingCommand) : P c.
Proof.
  destruct c.
  12: { apply Hbatch. induction commands as [|x r IH]; constructor.
        - apply command_ind_nested.
        - exact IH. }
  all: apply Hleaf; discriminate.
Defined.
End command_induction.

Section json_induction.
Variable P : json -> Prop.
Hypothesis Hnull : P JNull.
Hypothesis Hbool : forall b, P (JBool b).
Hypothesis Hnum : forall q, P (JNum q).
Hypothesis Hstr : forall s, P (JStr s).
Hypothesis Harr : forall l, Forall P l -> P (JArr l).
Hypothesis Hobj : forall fs, Forall (fun kv => P (snd kv)) fs -> P (JObj fs).

Fixpoint json_ind_nested (v : json) : P v.
Proof.
  destruct v as [| b | q | s | l | fs].
  - exact Hnull.
  - apply Hbool.
  - apply Hnum.
  - apply Hstr.
  - apply Harr. induction l as [|x r IH]; constructor;
      [apply json_ind_nested | exact IH].
  - apply Hobj. induction fs as [|kv r IH]; constructor;
      [apply json_ind_nested | exact IH].
Defined.
End json_induction.

End Induction.

(** ** More of src/shared/layering.ts *)

Module LayeringBounds.
Import Layering.

(** [s.includes(p)] *)
Fixpoint includes (p s : string) : bool :=
  String.prefix p s
  || match s with
     | EmptyString => false
     | String _ rest => includes p rest
     end.

Definition fullCanvasPatterns : list string :=
  ["whole canvas"; "full canvas"; "entire canvas"; "fill canvas";
   "top to bottom"; "cover screen"; "full screen"; "cover everything";
   "entire screen"; "whole screen"].

Definition hasFullCanvasIntent (utterance : string) : bool :=
  let lower := toLowerCase utterance in
  existsb (fun p => includes p lower) fullCanvasPatterns.

Record Bounds := mkBounds { y1 : Z; y2 : Z; x1 : Z; x2 : Z }.

Definition getDefaultBounds (semanticTag : string) (fullCanvas : bool) : Bounds :=
  let tag := toLowerCase semanticTag in
  if fullCanvas then {| x1 := 0; x2 := 100; y1 := 0; y2 := 100 |}
  else if String.eqb tag "sky" then
    {| x1 := 0; x2 := 100; y1 := 0; y2 := HORIZON_Y |}
  else if String.eqb tag "grass" || String.eqb tag "field"
          || String.eqb tag "ground" then
    {| x1 := 0; x2 := 100; y1 := HORIZON_Y; y2 := 100 |}
  else {| x1 := 0; x2 := 100; y1 := 0; y2 := 100 |}.

End LayeringBounds.

(** ** More of the director (src/unnamed/part_008) *)

Module DirectorMore.
Import Js Director.

Definition createRefusedEnvelope (reason notes : string) : json :=
  JObj [("refused", JBool true); ("refusalReason", JStr reason);
        ("notes", JStr notes); ("commands", JArr [])].

(** The test of the [map] callback of [boostVisibility]: a [path] whose
    [strokeWidth], read as 0 when it is not a number, is below 3. *)
Definition thinPath (s : json) : bool :=
  isStr (prop s "type") "path" && Qltb (numberOrZero (prop s "strokeWidth")) 3.

Definition boostShape (s : json) : json :=
  if thinPath s then JObj (set "strokeWidth" (JNum 5) (spread (Some s))) else s.

(** [obj.shapes] of [null] throws; every other value without an array under
    [shapes] comes back as it is. *)
Definition boostVisibility (obj : json) : option json :=
  match obj with
  | JNull => None
  | _ =>
      match prop obj "shapes" with
      | Some (JArr shapes) =>
          if existsb thinPath shapes
          then Some (JObj (set "shapes" (JArr (map boostShape shapes))
                             (spread (Some obj))))
          else Some obj
      | _ => Some obj
      end
  end.

End DirectorMore.

(** ** src/server/routes.ts: active previews, event log, last touched id *)

Module Routes.

(** [getActivePreviewIds], whose result the callers turn into a [Set]. *)
Definition getActivePreviewIds (scene : SceneGraph) : gset string :=
  dom (filter (fun kv => obj_status (snd kv) = preview) (sg_objects scene)).

(** [events.slice(-n)]: the last [n] elements, all of them when there are
    fewer. *)
Definition sliceLast {A} (n : nat) (events : list A) : list A :=
  drop (length events - n) events.

(** [canonical.sessionEvents = [...canonical.sessionEvents.slice(-99), event]],
    the statement with which every handler records an event. *)
Definition recordEvent {A} (sessionEvents : list A) (event : A) : list A :=
  sliceLast 99 sessionEvents ++ [event].

Definition nonEmpty (s : string) : bool := negb (String.eqb s "").

(** The body of the [for] loop of [inferLastTouched], from the value of [last]
    before a command to its value after it. The commands are those of a
    validated envelope, whose commands carry the declared keys only, so
    [cmd.objectId ?? cmd.previewId ?? cmd.id] is [cmd.id]. *)
Fixpoint lastTouchedAfter (last : option string) (cmd : DrawingCommand)
    : option string :=
  match cmd with
  | add_preview_object object | add_object object =>
      if nonEmpty (obj_id object) then Some (obj_id object) else last
  | update_preview_object id _ | commit_preview_object id
  | cancel_preview_object id | update_object id _ | delete_object id => Some id
  | batch commands =>
      let inner :=
        (fix loop (l : list DrawingCommand) (last : option string) :=
           match l with
           | [] => last
           | c :: rest => loop rest (lastTouchedAfter last c)
           end) commands None in
      match inner with
      | Some id => if nonEmpty id then Some id else last
      | None => last
      end
  | _ => last
  end.

Definition inferLastTouched (commands : list DrawingCommand) : option string :=
  fold_left lastTouchedAfter commands None.

End Routes.

(** ** The bracket scan of extractJson (src/unnamed/part_008)

    [extractJson] trims its input, takes the inside of a Markdown fence when
    there is one, and trims again; what follows is modelled here, from the
    search for the first opening bracket on. *)

Module ExtractJson.

(** The double-quote and backslash characters, by their codes. *)
Definition doubleQuote : ascii := ascii_of_nat 34.
Definition backslash : ascii := ascii_of_nat 92.

Definition isOpen (ch : ascii) : bool :=
  Ascii.eqb ch "{" || Ascii.eqb ch "[".

Definition isClose (ch : ascii) : bool :=
  Ascii.eqb ch "}" || Ascii.eqb ch "]".

(** [(ch === "}" && last === "{") || (ch === "]" && last === "[")], the top of
    the stack being the head of the list. *)
Definition closes (ch : ascii) (stack : list ascii) : bool :=
  match stack with
  | last :: _ =>
      (Ascii.eqb ch "}" && Ascii.eqb last "{")
      || (Ascii.eqb ch "]" && Ascii.eqb last "[")
  | [] => false
  end.

(** The [for] loop from index [i] on: the characters from [s[i]] up to the
    one at which the loop returns, or to the end of [s]. *)
Fixpoint scan (stack : list ascii) (inString escape : bool) (rest : string)
    : string :=
  match rest with
  | EmptyString => EmptyString
  | String ch rest =>
      if inString then
        if escape then String ch (scan stack inString false rest)
        else if Ascii.eqb ch "\" then String ch (scan stack inString true rest)
        else if Ascii.eqb ch doubleQuote then String ch (scan stack false escape rest)
        else String ch (scan stack inString escape rest)
      else if Ascii.eqb ch doubleQuote then String ch (scan stack true escape rest)
      else
        let stack := if isOpen ch then ch :: stack else stack in
        if isClose ch then
          let stack := if closes ch stack then tl stack else stack in
          match stack with
          | [] => String ch EmptyString
          | _ => String ch (scan stack inString escape rest)
          end
        else String ch (scan stack inString escape rest)
  end.

(** [s.slice(s.search(/[{[]/))], [None] when the search gives -1. *)
Fixpoint fromFirstBracket (s : string) : option string :=
  match s with
  | EmptyString => None
  | String ch rest => if isOpen ch then Some s else fromFirstBracket rest
  end.

Definition extractJsonScan (s : string) : string :=
  match fromFirstBracket s with
  | None => s
  | Some fromStart => scan [] false false fromStart
  end.

End ExtractJson.

(** ** Vocabulary of the further properties *)

Module MoreSpec.
Import Js Reducer ReducerSpec Director.


(** A command list with its batches opened, in order. *)
Fixpoint flattenCommand (c : DrawingCommand) : list DrawingCommand :=
  match c with
  | batch commands => flat_map flattenCommand commands
  | _ => [c]
  end.

(** The ids a command names, as [inferLastTouched] reads them. *)
Fixpoint touchedIds (c : DrawingCommand) : list string :=
  match c with
  | add_preview_object obj | add_object obj => [obj_id obj]
  | update_preview_object id _ | commit_preview_object id
  | cancel_preview_object id | update_object id _ | delete_object id => [id]
  | batch commands => flat_map touchedIds commands
  | _ => []
  end.

Definition flattenCommands (commands : list DrawingCommand) : list DrawingCommand :=
  flat_map flattenCommand commands.

(** [typeof type === "string" && COMMANDS_THAT_REQUIRE_TARGET_ID.has(type)] *)
Definition requiresTargetId (fs : fields) : bool :=
  match get "type" fs with
  | Some (JStr type) => Layering.has COMMANDS_THAT_REQUIRE_TARGET_ID type
  | _ => false
  end.

(** The first block of [normalizeTargetId] on a command that requires a
    target id, the two [in] tests folded into the removals. *)
Definition retarget (fs : fields) : fields :=
  remove "object_id"
    (remove "objectId"
       (match targetOf fs with
        | Some target => set "id" (JStr target) fs
        | None => fs
        end)).

(** [cmd.patch && typeof cmd.patch === "object" ? { ...cmd.patch } : {}] *)
Definition startingPatch (fs : fields) : fields :=
  if truthy (get "patch" fs) && typeofObject (get "patch" fs)
  then spread (get "patch" fs) else [].

(** A command on which [normalizeLegacyCommand] finds nothing to repair: no
    [command_type] to move to an empty [type], no [object_id] to move to an
    empty [objectId], and no add command without an object. *)
Definition legacySettled (c : json) : bool :=
  match c with
  | JObj fs =>
      negb (isString (get "command_type" fs) && negb (truthy (get "type" fs)))
      && negb (isString (get "object_id" fs) && negb (truthy (get "objectId" fs)))
      && negb ((isStr (get "type" fs) "add_preview_object"
                || isStr (get "type" fs) "add_object")
               && negb (truthy (get "object" fs)))
  | _ => true
  end.

(** The last step of the [commands.map] callback of [normalizeCommandArray],
    from the command the three repairs give to the command returned. *)
Definition normalizeShapesOfCommand (normalized : json) : option json :=
  match normalized with
  | JNull => None
  | JObj fs =>
      if (isStr (get "type" fs) "add_preview_object"
          || isStr (get "type" fs) "add_object")
         && truthy (get "object" fs)
      then Some (JObj (set "object"
                         (normalizeShapesInObject (orNull (get "object" fs))) fs))
      else if (isStr (get "type" fs) "update_preview_object"
               || isStr (get "type" fs) "update_object")
              && truthy (match get "patch" fs with
                         | Some JNull | None => None
                         | Some p => prop p "shapes"
                         end)
      then
        match get "patch" fs with
        | Some (JObj patch) =>
            match get "shapes" patch with
            | Some (JArr shapes) =>
                Some (JObj (set "patch"
                              (JObj (set "shapes"
                                       (JArr (map normalizeLineShape shapes)) patch))
                              fs))
            | _ => None
            end
        | _ => None
        end
      else Some normalized
  | _ => Some normalized
  end.

Definition typeIs (c : json) (t : string) : Prop :=
  prop c "type" = Some (JStr t).

(** An update command whose patch still has a [semanticTag] key. *)
Definition retagsObject (c : json) : Prop :=
  (typeIs c "update_object" \/ typeIs c "update_preview_object") /\
  exists patch, prop c "patch" = Some (JObj patch) /\
                hasKey "semanticTag" patch = true.

Definition untouched (r : StripResult) : Prop :=
  removed r = 0%nat /\ strippedSemantic r = 0%nat.

End MoreSpec.

(** * Properties of the reducer *)

Module ReducerProofs.
Import Reducer ReducerSpec Examples Induction.


Lemma applyCommand_batch_loop scene cs :
  applyCommand scene (batch cs) = applyCommands scene cs.
Proof.
  revert scene. induction cs as [|c r IH]; intros scene; [reflexivity|].
  simpl. simpl in IH. apply IH.
Qed.

Lemma applyCommands_app scene cs1 cs2 :
  applyCommands (applyCommands scene cs1) cs2 = applyCommands scene (cs1 ++ cs2).
Proof.
  revert scene. induction cs1 as [|c r IH]; intros scene; simpl; [reflexivity|].
  apply IH.
Qed.

Lemma splice_insertIndex objects k id l :
  splice l (insertIndex objects k l) id = insertByKey objects k id l.
Proof.
  unfold splice. induction l as [|x r IH]; simpl; [reflexivity|].
  destruct (objects !! x) as [o|].
  - destruct (k <? orderKey o); simpl; [reflexivity|]. by rewrite IH.
  - simpl. by rewrite IH.
Qed.

Lemma insertByKey_perm objects k id l :
  insertByKey objects k id l ≡ₚ id :: l.
Proof.
  induction l as [|x r IH]; simpl; [reflexivity|].
  destruct (objects !! x) as [o|].
  - destruct (k <? orderKey o); [reflexivity|].
    rewrite IH. apply Permutation_swap.
  - rewrite IH. apply Permutation_swap.
Qed.

Lemma sorted_filter {A} (R : relation A) (P : A -> Prop) `{forall x, Decision (P x)} l :
  StronglySorted R l -> StronglySorted R (filter P l).
Proof.
  induction 1 as [|x l Hs IH Hall]; [constructor|].
  rewrite filter_cons. destruct (decide (P x)); [|exact IH].
  constructor; [exact IH|].
  apply Forall_forall. intros y Hy. apply list_elem_of_filter in Hy as [_ Hy].
  rewrite Forall_forall in Hall. by apply Hall.
Qed.

Lemma sorted_ext objects objects' l :
  (forall x, x ∈ l -> keyOf objects' x = keyOf objects x) ->
  StronglySorted (keyLe objects) l -> StronglySorted (keyLe objects') l.
Proof.
  intros Hext Hs. induction Hs as [|x l Hs IH Hall]; [constructor|].
  constructor.
  - apply IH. intros y Hy. apply Hext. by right.
  - apply Forall_forall. intros y Hy. rewrite Forall_forall in Hall.
    intros ka kb Ha Hb. rewrite Hext in Ha by left.
    rewrite Hext in Hb by (by right). by apply (Hall y Hy).
Qed.


Lemma insertByKey_sorted objects k id obj l :
  objects !! id = Some obj -> orderKey obj = k ->
  StronglySorted (keyLe objects) l ->
  StronglySorted (keyLe objects) (insertByKey objects k id l).
Proof.
  intros Hid Hk Hs. induction Hs as [|x l Hs IH Hall]; simpl.
  - repeat constructor.
  - rewrite Forall_forall in Hall.
    assert (Hrest : Forall (keyLe objects x) (insertByKey objects k id l) <->
                    keyLe objects x id /\ Forall (keyLe objects x) l).
    { rewrite (insertByKey_perm objects k id l). apply Forall_cons. }
    destruct (objects !! x) as [o|] eqn:Hx.
    + destruct (k <? orderKey o) eqn:Hlt.
      * apply Z.ltb_lt in Hlt. constructor.
        { constructor; [exact Hs | by apply Forall_forall]. }
        constructor.
        { intros ka kb Ha Hb. unfold keyOf in Ha, Hb. rewrite Hid in Ha.
          rewrite Hx in Hb. simpl in *. inversion Ha; inversion Hb; lia. }
        apply Forall_forall. intros y Hy ka kb Ha Hb.
        unfold keyOf in Ha. rewrite Hid in Ha. simpl in Ha. inversion Ha; subst ka.
        specialize (Hall y Hy (orderKey o) kb). unfold keyOf in Hall at 1.
        rewrite Hx in Hall. specialize (Hall eq_refl Hb). lia.
      * apply Z.ltb_ge in Hlt. constructor; [exact IH|].
        apply Hrest. split; [|by apply Forall_forall].
        intros ka kb Ha Hb. unfold keyOf in Ha, Hb. rewrite Hid in Hb.
        rewrite Hx in Ha. simpl in *. inversion Ha; inversion Hb; lia.
    + constructor; [exact IH|]. apply Hrest. split; [|by apply Forall_forall].
      intros ka kb Ha. unfold keyOf in Ha. rewrite Hx in Ha. discriminate.
Qed.


Lemma keyOf_insert_ne objects id obj x :
  x <> id -> keyOf (<[id := obj]> objects) x = keyOf objects x.
Proof. intros Hne. unfold keyOf. by rewrite lookup_insert_ne. Qed.

Lemma keyOf_delete_ne objects id x :
  x <> id -> keyOf (delete id objects) x = keyOf objects x.
Proof. intros Hne. unfold keyOf. by rewrite lookup_delete_ne. Qed.

(** Re-inserting [id] after storing [obj] under it keeps the invariant; the
    add case and the re-ordering update case are both instances. *)
Lemma reinsert_invariant intent objects order id obj :
  NoDup order ->
  StronglySorted (keyLe objects) order ->
  (forall x, x <> id -> x ∈ order <-> is_Some (objects !! x)) ->
  let objects' := <[id := obj]> objects in
  sceneInvariant
    {| sg_intent := intent; sg_objects := objects';
       sg_order := insertIntoOrder
                     {| sg_intent := intent; sg_objects := objects';
                        sg_order := order |} id |}.
Proof.
  intros Hnd Hs Hmem objects'. unfold insertIntoOrder. simpl.
  assert (Hlk : objects' !! id = Some obj) by apply lookup_insert_eq.
  rewrite Hlk, splice_insertIndex.
  set (without := filter (λ x, x ≠ id) order).
  assert (Hperm := insertByKey_perm objects' (orderKey obj) id without).
  assert (Hin : forall x, x ∈ without <-> x <> id /\ x ∈ order).
  { intros x. unfold without. by rewrite list_elem_of_filter. }
  split; [split; [|split]|]; simpl.
  - rewrite Hperm. apply NoDup_cons. split.
    + rewrite Hin. tauto.
    + by apply NoDup_filter.
  - intros x Hx. rewrite Hperm in Hx. apply elem_of_cons in Hx as [->|Hx].
    + unfold objects'. rewrite lookup_insert_eq. by eexists.
    + apply Hin in Hx as [Hne Hx]. unfold objects'.
      rewrite lookup_insert_ne by done. by apply Hmem.
  - intros x Hx. rewrite Hperm. destruct (decide (x = id)) as [->|Hne]; [by left|].
    right. apply Hin. split; [done|]. apply Hmem; [done|].
    unfold objects' in Hx. by rewrite lookup_insert_ne in Hx.
  - unfold orderedByKey. simpl.
    apply (insertByKey_sorted objects' _ id obj); [apply lookup_insert_eq|done|].
    apply (sorted_ext objects).
    + intros x Hx. apply Hin in Hx as [Hne _]. by apply keyOf_insert_ne.
    + by apply sorted_filter.
Qed.

Lemma addObject_invariant scene obj :
  sceneInvariant scene -> sceneInvariant (addObject scene obj).
Proof.
  intros Hinv. unfold addObject.
  destruct (sg_objects scene !! obj_id obj) eqn:Hl; [exact Hinv|].
  destruct Hinv as [(Hnd & Hin & Hout) Hs].
  apply reinsert_invariant; [done..|].
  intros x _. split; [apply Hin | apply Hout].
Qed.

Lemma updateObject_invariant scene id patch :
  sceneInvariant scene -> sceneInvariant (updateObject scene id patch).
Proof.
  intros Hinv. unfold updateObject.
  destruct (sg_objects scene !! id) as [existing|] eqn:Hl; [|exact Hinv].
  destruct Hinv as [(Hnd & Hin & Hout) Hs].
  destruct (orderKey existing =? orderKey (applyPatch existing patch)) eqn:Hk.
  - apply Z.eqb_eq in Hk.
    assert (Hsome : forall x, is_Some (<[id := applyPatch existing patch]> (sg_objects scene) !! x)
                          <-> is_Some (sg_objects scene !! x)).
    { intros x. destruct (decide (x = id)) as [->|Hne].
      - rewrite lookup_insert_eq, Hl. split; intros _; by eexists.
      - by rewrite lookup_insert_ne. }
    split; [split; [|split]|]; simpl; [done| | |].
    + intros x Hx. apply Hsome. by apply Hin.
    + intros x Hx. apply Hout. by apply Hsome.
    + unfold orderedByKey. simpl. apply (sorted_ext (sg_objects scene)); [|done].
      intros x _. destruct (decide (x = id)) as [->|Hne].
      * unfold keyOf. rewrite lookup_insert_eq, Hl. simpl. by rewrite Hk.
      * by apply keyOf_insert_ne.
  - apply reinsert_invariant; [done..|].
    intros x _. split; [apply Hin | apply Hout].
Qed.

Lemma commitObject_invariant scene id :
  sceneInvariant scene -> sceneInvariant (commitObject scene id).
Proof.
  intros Hinv. unfold commitObject.
  destruct (sg_objects scene !! id) as [existing|] eqn:Hl; [|exact Hinv].
  destruct (obj_status existing); [|exact Hinv].
  destruct Hinv as [(Hnd & Hin & Hout) Hs].
  set (c := {| obj_id := obj_id existing |}).
  assert (Hsome : forall x, is_Some (<[id := c]> (sg_objects scene) !! x)
                        <-> is_Some (sg_objects scene !! x)).
  { intros x. destruct (decide (x = id)) as [->|Hne].
    - rewrite lookup_insert_eq, Hl. split; intros _; by eexists.
    - by rewrite lookup_insert_ne. }
  split; [split; [|split]|]; simpl; [done| | |].
  - intros x Hx. apply Hsome. by apply Hin.
  - intros x Hx. apply Hout. by apply Hsome.
  - unfold orderedByKey. simpl. apply (sorted_ext (sg_objects scene)); [|done].
    intros x _. destruct (decide (x = id)) as [->|Hne].
    + unfold keyOf. by rewrite lookup_insert_eq, Hl.
    + by apply keyOf_insert_ne.
Qed.

Lemma removeObject_invariant scene id :
  sceneInvariant scene -> sceneInvariant (removeObject scene id).
Proof.
  intros Hinv. unfold removeObject.
  destruct (sg_objects scene !! id) as [existing|] eqn:Hl; [|exact Hinv].
  destruct Hinv as [(Hnd & Hin & Hout) Hs].
  split; [split; [|split]|]; simpl.
  - by apply NoDup_filter.
  - intros x Hx. apply list_elem_of_filter in Hx as [Hne Hx].
    rewrite lookup_delete_ne by done. by apply Hin.
  - intros x Hx. apply list_elem_of_filter.
    destruct (decide (x = id)) as [->|Hne].
    + rewrite lookup_delete_eq in Hx. by destruct Hx.
    + split; [done|]. apply Hout. by rewrite lookup_delete_ne in Hx.
  - unfold orderedByKey. simpl. apply (sorted_ext (sg_objects scene)).
    + intros x Hx. apply list_elem_of_filter in Hx as [Hne _].
      by apply keyOf_delete_ne.
    + by apply sorted_filter.
Qed.

Lemma applyCommands_invariant cs :
  Forall (fun c => forall s, sceneInvariant s -> sceneInvariant (applyCommand s c)) cs ->
  forall s, sceneInvariant s -> sceneInvariant (applyCommands s cs).
Proof.
  induction 1 as [|c r Hc _ IH]; intros s Hs; simpl; [done|].
  apply IH. by apply Hc.
Qed.

Lemma applyCommand_invariant c :
  forall s, sceneInvariant s -> sceneInvariant (applyCommand s c).
Proof.
  induction c as [cs IH|c Hleaf] using command_ind_nested; intros s Hs.
  - rewrite applyCommand_batch_loop. by apply applyCommands_invariant.
  - destruct c; simpl; try exact Hs;
      eauto using addObject_invariant, updateObject_invariant,
        commitObject_invariant, removeObject_invariant.
    by destruct (Hleaf commands).
Qed.

Lemma emptyScene_invariant : sceneInvariant createEmptyScene.
Proof.
  split; [split; [|split]|]; simpl.
  - constructor.
  - intros x Hx. by apply elem_of_nil in Hx.
  - intros x [o Hx]. by rewrite lookup_empty in Hx.
  - constructor.
Qed.

Lemma reachable_invariant scene : reachable scene -> sceneInvariant scene.
Proof.
  induction 1; [apply emptyScene_invariant | by apply applyCommand_invariant].
Qed.



Example exampleScene_order :
  sg_order exampleScene = ["sky-1"; "sun-1"; "tree-1"].
Proof. vm_compute. reflexivity. Qed.

(** The scenario of the specification: sky and sun share the sky layer, and
    the backdrop comes first whichever is added first. *)
Example sky_and_sun_either_way :
  sg_order (applyCommands createEmptyScene [add_object skyObject; add_object sunObject])
    = ["sky-1"; "sun-1"] /\
  sg_order (applyCommands createEmptyScene [add_object sunObject; add_object skyObject])
    = ["sky-1"; "sun-1"].
Proof. split; vm_compute; reflexivity. Qed.









(** Claim C3. [applyCommands] is a function of the scene and the command
    list; applying [C1] and then [C2] is applying [C1 ++ C2]; and a batch
    command is the sequential application of its inner commands. *)
Theorem applyCommands_deterministic_and_sequential S C1 C2 cs :
  applyCommands S C1 = applyCommands S C1 /\
  applyCommands (applyCommands S C1) C2 = applyCommands S (C1 ++ C2) /\
  applyCommand S (batch cs) = applyCommands S cs.
Proof.
  split; [reflexivity|]. split; [apply applyCommands_app | apply applyCommand_batch_loop].
Qed.





End ReducerProofs.

(** * Properties of the command pipeline *)

(** ** Facts about the object operations *)

Module JsFacts.
Import Js.

Lemma getWith_get {A} (f : json -> A) k fs : getWith f k fs = f <$> get k fs.
Proof.
  induction fs as [|[k' v] rest IH]; simpl; [done|].
  destruct (String.eqb k' k); [done|exact IH].
Qed.

Lemma get_set_eq k v fs : get k (set k v fs) = Some v.
Proof.
  induction fs as [|[k' v'] rest IH]; simpl.
  - by rewrite String.eqb_refl.
  - destruct (String.eqb k' k) eqn:E; simpl.
    + by rewrite String.eqb_refl.
    + by rewrite E.
Qed.

Lemma get_set_ne k k' v fs : k <> k' -> get k (set k' v fs) = get k fs.
Proof.
  intros Hne. induction fs as [|[k0 v0] rest IH]; simpl.
  - apply String.eqb_neq in Hne. rewrite String.eqb_sym in Hne. by rewrite Hne.
  - destruct (String.eqb k0 k') eqn:E; simpl.
    + apply String.eqb_eq in E as ->.
      assert (String.eqb k' k = false) as -> by (apply String.eqb_neq; congruence).
      done.
    + destruct (String.eqb k0 k); [done|exact IH].
Qed.

Lemma set_same k v fs : get k fs = Some v -> set k v fs = fs.
Proof.
  induction fs as [|[k' v'] rest IH]; simpl; [done|].
  destruct (String.eqb k' k) eqn:E.
  - apply String.eqb_eq in E as ->. by intros [= ->].
  - intros H. by rewrite IH.
Qed.

Lemma remove_absent k fs : get k fs = None -> remove k fs = fs.
Proof.
  induction fs as [|[k' v'] rest IH]; simpl; [done|].
  destruct (String.eqb k' k); [done|]. intros H. by rewrite IH.
Qed.

Lemma get_remove_ne k k' fs : k <> k' -> get k (remove k' fs) = get k fs.
Proof.
  intros Hne. induction fs as [|[k0 v0] rest IH]; simpl; [done|].
  destruct (String.eqb k0 k') eqn:E; simpl.
  - apply String.eqb_eq in E as ->.
    assert (String.eqb k' k = false) as -> by (apply String.eqb_neq; congruence).
    exact IH.
  - destruct (String.eqb k0 k); [done|exact IH].
Qed.

Lemma hasKey_false k fs : hasKey k fs = false <-> get k fs = None.
Proof. unfold hasKey. destruct (get k fs); split; congruence. Qed.

Lemma has_In names k : Layering.has names k = true <-> In k names.
Proof.
  unfold Layering.has. rewrite existsb_exists. split.
  - intros (x & Hx & E). apply String.eqb_eq in E. by subst.
  - intros H. exists k. split; [done|apply String.eqb_refl].
Qed.

Lemma keysWithin_get names fs k :
  Schema.keysWithin names fs = true -> is_Some (get k fs) -> In k names.
Proof.
  unfold Schema.keysWithin. induction fs as [|[k' v] rest IH]; simpl.
  - intros _ [? ?]. discriminate.
  - intros H Hs. apply andb_true_iff in H as [Hk Hrest].
    destruct (String.eqb k' k) eqn:E.
    + apply String.eqb_eq in E as <-. by apply has_In.
    + by apply IH.
Qed.

Lemma keysWithin_absent names fs k :
  Schema.keysWithin names fs = true -> ~ In k names -> get k fs = None.
Proof.
  intros H Hn. destruct (get k fs) eqn:E; [|done].
  exfalso. apply Hn. eapply keysWithin_get; [done|]. by rewrite E.
Qed.

End JsFacts.

(** ** Clamping (reducer and stabilizer) *)

Module ClampProofs.
Import Js Reducer ReducerSpec Director PipelineExamples JsFacts.

Lemma Qle_bool_false a b : Qle_bool a b = false -> (b < a)%Q.
Proof.
  intros H. apply Qnot_le_lt. intros Hle. apply Qle_bool_iff in Hle. congruence.
Qed.

Lemma clamp_inside n lo hi : (lo <= n)%Q -> (n <= hi)%Q -> Reducer.clamp n lo hi = n.
Proof.
  intros Hlo Hhi. unfold Reducer.clamp, mathMax, mathMin.
  apply Qle_bool_iff in Hhi. rewrite Hhi.
  apply Qle_bool_iff in Hlo. by rewrite Hlo.
Qed.



Lemma clamp_bounds n lo hi :
  (lo <= hi)%Q -> (lo <= Reducer.clamp n lo hi /\ Reducer.clamp n lo hi <= hi)%Q.
Proof.
  intros Hb. unfold Reducer.clamp, mathMax, mathMin.
  destruct (Qle_bool n hi) eqn:E1.
  - apply Qle_bool_iff in E1. destruct (Qle_bool lo n) eqn:E2.
    + apply Qle_bool_iff in E2. done.
    + split; [apply Qle_refl|done].
  - assert (Qle_bool lo hi = true) as -> by by apply Qle_bool_iff.
    split; [done|apply Qle_refl].
Qed.



End ClampProofs.

(** ** Validation *)

Module SchemaProofs.
Import Js Schema Director DirectorSpec PipelineExamples JsFacts.

Lemma isStr_eq v s : isStr v s = true -> v = Some (JStr s).
Proof.
  destruct v as [[| | |s'| |]|]; simpl; try discriminate.
  intros H. apply String.eqb_eq in H. by subst.
Qed.

(** What a valid batch command holds. *)
Lemma valid_batch exact fs inner :
  DrawingCommandSchema exact (JObj fs) = true ->
  isStr (get "type" fs) "batch" = true ->
  get "commands" fs = Some (JArr inner) ->
  forallb (DrawingCommandSchema exact) inner = true.
Proof.
  intros Hv Ht Hc. apply isStr_eq in Ht. simpl in Hv. rewrite Ht in Hv.
  simpl in Hv. rewrite getWith_get, Hc in Hv. simpl in Hv.
  by apply andb_true_iff in Hv as [Hv _].
Qed.

(** What a valid update command holds. *)
Lemma valid_update exact fs :
  DrawingCommandSchema exact (JObj fs) = true ->
  isUpdateCommand fs = true ->
  exists patch, get "patch" fs = Some (JObj patch) /\
                PatchSchema (JObj patch) = true /\
                isString (get "id" fs) = true /\
                (exact = true -> keysWithin ["type"; "id"; "patch"] fs = true).
Proof.
  intros Hv Hu. unfold isUpdateCommand in Hu.
  apply orb_true_iff in Hu as [Ht|Ht]; apply isStr_eq in Ht;
    simpl in Hv; rewrite Ht in Hv; simpl in Hv; unfold fieldOk in Hv; simpl in Hv;
    rewrite Ht in Hv; simpl in Hv.
  all: destruct (get "id" fs) as [i|] eqn:Hid; simpl in Hv; [|discriminate].
  all: destruct (get "patch" fs) as [p|] eqn:Hp; simpl in Hv;
       [|by rewrite andb_false_r in Hv].
  all: rewrite andb_true_r in Hv.
  all: apply andb_true_iff in Hv as [Hv Hk];
       apply andb_true_iff in Hv as [Hi Hps].
  all: assert (Hobj : exists patch, p = JObj patch)
         by (destruct p; try discriminate; eauto).
  all: destruct Hobj as [patch ->]; exists patch.
  all: repeat split; try done.
  all: intros ->; exact Hk.
Qed.

Lemma valid_commands_occurs exact commands c :
  forallb (DrawingCommandSchema exact) commands = true ->
  occursIn c commands -> DrawingCommandSchema exact c = true.
Proof.
  intros Hall Hocc. induction Hocc as [commands Hin|commands fs inner Hin Ht Hc _ IH].
  - rewrite forallb_forall in Hall. by apply Hall.
  - apply IH. rewrite forallb_forall in Hall.
    by apply (valid_batch exact fs inner); [apply Hall|..].
Qed.

Lemma valid_envelope_commands exact fs :
  CommandEnvelopeSchema exact (JObj fs) = true ->
  exists commands, get "commands" fs = Some (JArr commands) /\
                   forallb (DrawingCommandSchema exact) commands = true.
Proof.
  intros Hv. unfold CommandEnvelopeSchema, zObject in Hv. simpl in Hv.
  unfold fieldOk at 1 in Hv. simpl in Hv.
  destruct (get "commands" fs) as [c|] eqn:Hc; [|done].
  apply andb_true_iff in Hv as [Hv _]. apply andb_true_iff in Hv as [Hv _].
  destruct c; try discriminate. eauto.
Qed.

Lemma valid_patch_keys patch k :
  PatchSchema (JObj patch) = true -> hasKey k patch = true -> In k patchableKeys.
Proof.
  intros Hv Hk. unfold PatchSchema in Hv. apply andb_true_iff in Hv as [Hv _].
  unfold zObject in Hv. apply andb_true_iff in Hv as [_ Hv]. simpl in Hv.
  apply (keysWithin_get _ patch k Hv). unfold hasKey in Hk.
  destruct (get k patch); [by eexists|discriminate].
Qed.

(** Claim C9. An envelope that holds, at any batch depth, an [update_object]
    or [update_preview_object] command whose patch has a key [id] or a key
    [type] fails validation; and a patch that validates has no key outside
    layer, status, transform, semanticTag and shapes. *)
Theorem patch_with_id_or_type_fails_validation
    (envelope : fields) (commands : list json) (cmd patch : fields) (k : string) :
  (get "commands" envelope = Some (JArr commands) ->
   occursIn (JObj cmd) commands ->
   isUpdateCommand cmd = true ->
   get "patch" cmd = Some (JObj patch) ->
   hasKey "id" patch || hasKey "type" patch = true ->
   validates (JObj envelope) = false) /\
  (PatchSchema (JObj patch) = true -> hasKey k patch = true ->
   In k patchableKeys).
Proof.
  split; [|apply valid_patch_keys].
  intros Hc Hocc Hu Hp Hbad.
  destruct (validates (JObj envelope)) eqn:Hv; [exfalso|done].
  apply valid_envelope_commands in Hv as (commands' & Hc' & Hall).
  rewrite Hc in Hc'. injection Hc' as <-.
  pose proof (valid_commands_occurs _ _ _ Hall Hocc) as Hcmd.
  destruct (valid_update _ _ Hcmd Hu) as (patch' & Hp' & Hps & _).
  rewrite Hp in Hp'. injection Hp' as <-.
  apply orb_true_iff in Hbad as [Hbad|Hbad];
    apply (valid_patch_keys _ _ Hps) in Hbad; simpl in Hbad;
    repeat (destruct Hbad as [Hbad|Hbad]; [discriminate|]); done.
Qed.

Lemma patch_with_id_or_type_fails_validation_witness :
  validates illegalPatch = false.
Proof.
  eapply (proj1 (patch_with_id_or_type_fails_validation
                   _ _ _ [("id", JStr "evil-id")] "id")).
  - reflexivity.
  - apply occurs_here. left. reflexivity.
  - reflexivity.
  - reflexivity.
  - reflexivity.
Defined.

(** The guarded test envelopes behave as the validation tests expect. *)
Example validEnvelope_validates :
  validates validEnvelope = true /\ wellFormedExactly validEnvelope = true.
Proof. split; vm_compute; reflexivity. Qed.

End SchemaProofs.

(** ** Inert commands *)

Module InertProofs.
Import Js Schema Reducer DirectorSpec PipelineExamples.

(** Claim C10. [set_background_gradient], [set_ground_fill] and [set_path]
    pass the command grammar, and the reducer returns the scene it was given
    for each of them, so a command list gives the same scene with or without
    them. *)
Theorem inert_commands_leave_scene_unchanged
    (scene : SceneGraph) (gradient : Gradient) (fill id : string)
    (bezierPoints : list Point) (widthNear widthFar : Q)
    (commands : list DrawingCommand) :
  applyCommand scene (set_background_gradient gradient) = scene /\
  applyCommand scene (set_ground_fill fill) = scene /\
  applyCommand scene (set_path id bezierPoints widthNear widthFar) = scene /\
  applyCommands scene commands
    = applyCommands scene (filter (fun c => isInert c = false) commands) /\
  validates
    (envelopeOf
       [JObj [("type", JStr "set_ground_fill"); ("fill", JStr fill)];
        JObj [("type", JStr "set_path"); ("id", JStr id);
              ("bezierPoints", JArr [JObj [("x", JNum 10); ("y", JNum 90)]]);
              ("widthNear", JNum 8); ("widthFar", JNum 2)];
        JObj [("type", JStr "set_background_gradient");
              ("gradient",
               JObj [("kind", JStr "linear");
                     ("from", JObj [("x", JNum 0); ("y", JNum 0)]);
                     ("to", JObj [("x", JNum 0); ("y", JNum 100)]);
                     ("stops", JArr [JObj [("offset", JNum 0);
                                           ("color", JStr fill)]])])]])
    = true.
Proof.
  split; [done|]. split; [done|]. split; [done|]. split; [|reflexivity].
  revert scene. induction commands as [|c rest IH]; intros scene; [done|].
  rewrite filter_cons. destruct (decide (isInert c = false)) as [Hc|Hc]; simpl.
  - apply IH.
  - assert (applyCommand scene c = scene) as ->; [|apply IH].
    destruct c; simpl in Hc; try done.
Qed.

End InertProofs.

(** ** The safety guard *)

Module GuardProofs.
Import Js Schema Director DirectorSpec PipelineExamples JsFacts SchemaProofs.

Lemma isStr_type_ne fs a b :
  isStr (get "type" fs) a = true -> a <> b -> isStr (get "type" fs) b = false.
Proof.
  intros Ha Hne. apply isStr_eq in Ha. rewrite Ha. simpl.
  apply String.eqb_neq. exact Hne.
Qed.

Lemma cmds_gather parts : cmds (gather parts) = concat (map cmds parts).
Proof. induction parts as [|p r IH]; simpl; [done|]. by rewrite IH. Qed.

Lemma stripCommand_delete utterance fs :
  isStr (get "type" fs) "delete_object" = true ->
  stripCommand utterance (JObj fs) =
    if userExplicitlyWantsDelete utterance then keepCommand (JObj fs)
    else {| cmds := []; removed := 1; strippedSemantic := 0 |}.
Proof.
  intros Ht. apply isStr_eq in Ht. simpl. rewrite Ht. simpl.
  destruct (userExplicitlyWantsDelete utterance); simpl; [|done].
  by destruct (get "patch" fs) as [[]|].
Qed.

Lemma stripCommand_cancel utterance fs :
  isStr (get "type" fs) "cancel_preview_object" = true ->
  stripCommand utterance (JObj fs) =
    if userExplicitlyWantsCancel utterance then keepCommand (JObj fs)
    else {| cmds := []; removed := 1; strippedSemantic := 0 |}.
Proof.
  intros Ht. apply isStr_eq in Ht. simpl. rewrite Ht. simpl.
  destruct (userExplicitlyWantsCancel utterance); simpl; [|done].
  by destruct (get "patch" fs) as [[]|].
Qed.

Lemma stripCommand_batch utterance fs inner :
  isStr (get "type" fs) "batch" = true ->
  get "commands" fs = Some (JArr inner) ->
  stripCommand utterance (JObj fs) =
    let r := stripDestructiveCommands inner utterance in
    {| cmds := [JObj (set "commands" (JArr (cmds r)) fs)];
       removed := removed r; strippedSemantic := strippedSemantic r |}.
Proof.
  intros Ht Hc. simpl. rewrite Ht, getWith_get, Hc. reflexivity.
Qed.

Lemma stripCommand_other utterance c :
  prop c "type" <> Some (JStr "delete_object") ->
  prop c "type" <> Some (JStr "cancel_preview_object") ->
  exists c', cmds (stripCommand utterance c) = [c'] /\
             prop c' "type" = prop c "type".
Proof.
  intros Hd Hc. destruct c as [| | | | |fs]; try (eexists; split; reflexivity).
  simpl in Hd, Hc.
  assert (Hnd : isStr (get "type" fs) "delete_object" = false).
  { destruct (isStr (get "type" fs) "delete_object") eqn:E; [|done].
    by apply isStr_eq in E. }
  assert (Hnc : isStr (get "type" fs) "cancel_preview_object" = false).
  { destruct (isStr (get "type" fs) "cancel_preview_object") eqn:E; [|done].
    by apply isStr_eq in E. }
  simpl. rewrite Hnd, Hnc. simpl.
  destruct (isStr (get "type" fs) "batch") eqn:Hb.
  - rewrite getWith_get. destruct (get "commands" fs) as [v|] eqn:Hcm; simpl.
    + destruct (stripArray (stripCommand utterance) v) as [inner|] eqn:Hs; simpl.
      * eexists. split; [reflexivity|]. simpl. by apply get_set_ne.
      * destruct (get "patch" fs) as [[]|]; try (eexists; split; reflexivity).
        match goal with |- context [if ?b then _ else _] => destruct b end;
          eexists; (split; [reflexivity|]); simpl; [by apply get_set_ne|done].
    + destruct (get "patch" fs) as [[]|]; try (eexists; split; reflexivity).
      match goal with |- context [if ?b then _ else _] => destruct b end;
        eexists; (split; [reflexivity|]); simpl; [by apply get_set_ne|done].
  - destruct (get "patch" fs) as [[]|]; try (eexists; split; reflexivity).
    match goal with |- context [if ?b then _ else _] => destruct b end;
      eexists; (split; [reflexivity|]); simpl; [by apply get_set_ne|done].
Qed.

(** Claim C4, as the guard implements it. A [delete_object] command is
    removed exactly when the utterance has no whole word among delete, remove,
    erase, clear, "get rid", discard, wipe; a [cancel_preview_object] command
    is removed exactly when it has no whole word among cancel, discard, undo
    (letter case ignored in both). A command of any other type is never
    removed and keeps its type, a batch is kept with its inner commands
    guarded the same way, and the guard treats the commands of a list one by
    one, in order. *)
Theorem guard_strips_by_command_vocabulary
    (utterance : string) (fs : fields) (inner rest : list json) (c : json) :
  (isStr (get "type" fs) "delete_object" = true ->
   stripCommand utterance (JObj fs) =
     if userExplicitlyWantsDelete utterance then keepCommand (JObj fs)
     else {| cmds := []; removed := 1; strippedSemantic := 0 |}) /\
  (isStr (get "type" fs) "cancel_preview_object" = true ->
   stripCommand utterance (JObj fs) =
     if userExplicitlyWantsCancel utterance then keepCommand (JObj fs)
     else {| cmds := []; removed := 1; strippedSemantic := 0 |}) /\
  (prop c "type" <> Some (JStr "delete_object") ->
   prop c "type" <> Some (JStr "cancel_preview_object") ->
   exists c', cmds (stripCommand utterance c) = [c'] /\
              prop c' "type" = prop c "type") /\
  (isStr (get "type" fs) "batch" = true ->
   get "commands" fs = Some (JArr inner) ->
   cmds (stripCommand utterance (JObj fs)) =
     [JObj (set "commands"
              (JArr (cmds (stripDestructiveCommands inner utterance))) fs)]) /\
  cmds (stripDestructiveCommands (c :: rest) utterance) =
    cmds (stripCommand utterance c)
    ++ cmds (stripDestructiveCommands rest utterance).
Proof.
  split; [apply stripCommand_delete|]. split; [apply stripCommand_cancel|].
  split; [apply stripCommand_other|]. split; [|reflexivity].
  intros Ht Hc. by rewrite (stripCommand_batch utterance fs inner).
Qed.

Lemma guard_strips_by_command_vocabulary_witness :
  stripCommand "add a tree" (commandOfType "delete_object" "tree-1")
    = {| cmds := []; removed := 1; strippedSemantic := 0 |} /\
  stripCommand "Please DELETE the tree" (commandOfType "delete_object" "tree-1")
    = keepCommand (commandOfType "delete_object" "tree-1").
Proof.
  split.
  - exact (proj1 (guard_strips_by_command_vocabulary
                    "add a tree"
                    [("type", JStr "delete_object"); ("id", JStr "tree-1")]
                    [] [] JNull) eq_refl).
  - exact (proj1 (guard_strips_by_command_vocabulary
                    "Please DELETE the tree"
                    [("type", JStr "delete_object"); ("id", JStr "tree-1")]
                    [] [] JNull) eq_refl).
Defined.

(** The patterns match whole words only, in any letter case. *)
Example utterance_tests :
  userExplicitlyWantsDelete "Please DELETE the tree" = true /\
  userExplicitlyWantsDelete "get rid of it" = true /\
  userExplicitlyWantsDelete "delete-me" = true /\
  userExplicitlyWantsDelete "undelete it" = false /\
  userExplicitlyWantsDelete "deleted" = false /\
  userExplicitlyWantsDelete "delete_me" = false /\
  userExplicitlyWantsDelete "add a tree" = false /\
  userExplicitlyWantsCancel "never mind, undo" = true /\
  userExplicitlyWantsCancel "delete it" = false.
Proof. repeat split; reflexivity. Qed.

(** The claim read with one shared vocabulary fails: "undo" does not keep a
    delete, and "delete" does not keep a cancel. *)
Lemma guard_vocabulary_is_not_shared :
  testWords destructiveWords "undo that" = true /\
  cmds (stripDestructiveCommands [commandOfType "delete_object" "tree-1"]
          "undo that") = [] /\
  testWords destructiveWords "delete it" = true /\
  cmds (stripDestructiveCommands [commandOfType "cancel_preview_object" "p1"]
          "delete it") = [].
Proof. repeat split; vm_compute; reflexivity. Qed.

End GuardProofs.

(** ** Band stacks *)

Module BandProofs.
Import Js Schema Director DirectorSpec PipelineExamples JsFacts SchemaProofs.






















(** The three bands against 100: heights 34, 33, 33 at y = 0, 34, 67. *)
Example threeBands_against_100 :
  option_map (fun out => map tileOf (bandRectsOf out))
             (normalizeBandStack threeBands 100)
    = Some (map integerTile [(0, 34); (34, 33); (67, 33)]).
Proof. vm_compute. reflexivity. Qed.

End BandProofs.

(** ** The normalizer on well-formed envelopes *)

Module NormalizerProofs.
Import Js Schema Director DirectorSpec PipelineExamples Induction JsFacts SchemaProofs.


Lemma get_In k fs v : get k fs = Some v -> In (k, v) fs.
Proof.
  induction fs as [|[k' v'] rest IH]; simpl; [done|].
  destruct (String.eqb k' k) eqn:E.
  - apply String.eqb_eq in E as ->. intros [= ->]. by left.
  - intros H. right. by apply IH.
Qed.

Lemma map_fixed {A} (f : A -> A) l : Forall (fun x => f x = x) l -> map f l = l.
Proof. induction 1 as [|x l Hx _ IH]; simpl; [done|]. by rewrite Hx, IH. Qed.

Lemma mapThrowing_fixed f l :
  Forall (fun x => f x = Some x) l -> mapThrowing f l = Some l.
Proof. induction 1 as [|x l Hx _ IH]; simpl; [done|]. by rewrite Hx, IH. Qed.

(** *** Shapes *)

Lemma zObject_field strict spec fs f :
  zObject strict spec (JObj fs) = true -> In f spec -> fieldOk fs f = true.
Proof.
  unfold zObject. intros H Hin. apply andb_true_iff in H as [H _].
  rewrite forallb_forall in H. by apply H.
Qed.

Lemma zObject_keys spec fs :
  zObject true spec (JObj fs) = true -> keysWithin (declared spec) fs = true.
Proof. unfold zObject. intros H. by apply andb_true_iff in H as [_ H]. Qed.

Lemma required_field fs k c :
  fieldOk fs (req k c) = true -> exists v, get k fs = Some v /\ c v = true.
Proof.
  unfold fieldOk, req. simpl. destruct (get k fs) as [v|]; [eauto|discriminate].
Qed.

Lemma VectorShapeSchema_line exact fs :
  get "type" fs = Some (JStr "line") ->
  VectorShapeSchema exact (JObj fs) = LineSchema exact (JObj fs).
Proof. intros H. unfold VectorShapeSchema. cbn [prop]. rewrite H. reflexivity. Qed.

Lemma valid_shape_settled exact s :
  VectorShapeSchema exact s = true -> normalizeLineShape s = s.
Proof.
  intros Hv. destruct s as [| | | | |fs]; try done.
  unfold normalizeLineShape.
  destruct (isStr (get "type" fs) "line") eqn:Ht; [|done].
  apply isStr_eq in Ht. rewrite (VectorShapeSchema_line exact fs Ht) in Hv.
  unfold LineSchema, extend in Hv.
  assert (Hp : fieldOk fs (req "points"
                 (fun v => PointsSchema v && Nat.even (arrayLength v))) = true).
  { eapply zObject_field; [exact Hv|]. apply in_app_iff. right. simpl. auto. }
  apply required_field in Hp as (v & Hg & Hc).
  apply andb_true_iff in Hc as [Hc _]. unfold PointsSchema in Hc.
  apply andb_true_iff in Hc as [Hc _]. destruct v; try discriminate.
  rewrite Hg. simpl. by repeat case_match.
Qed.

Lemma settled_shape_fixed s : settledShape s = true -> normalizeLineShape s = s.
Proof.
  destruct s as [| | | | |fs]; try done. unfold settledShape, normalizeLineShape.
  destruct (isStr (get "type" fs) "line"); [|done]. simpl.
  destruct (get "x1" fs) as [[]|]; try done.
  destruct (get "y1" fs) as [[]|]; try done.
  destruct (get "x2" fs) as [[]|]; try done.
  destruct (get "y2" fs) as [[]|]; try done.
  simpl. by destruct (isArray (get "points" fs)).
Qed.

Lemma valid_object_shapes exact obj :
  SceneObjectSchema exact obj = true -> normalizeShapesInObject obj = obj.
Proof.
  intros Hv. destruct obj as [| | | | |fs]; try done.
  unfold SceneObjectSchema in Hv.
  assert (Hs : fieldOk fs (req "shapes"
                 (fun v => zArray (VectorShapeSchema exact) v
                           && (1 <=? arrayLength v)%nat
                           && (arrayLength v <=? 60)%nat)) = true).
  { eapply zObject_field; [exact Hv|]. simpl. auto 10. }
  apply required_field in Hs as (v & Hg & Hc).
  apply andb_true_iff in Hc as [Hc _]. apply andb_true_iff in Hc as [Hc _].
  destruct v as [| | | |shapes|]; try discriminate.
  unfold normalizeShapesInObject. rewrite Hg.
  rewrite map_fixed; [by rewrite set_same|].
  simpl in Hc. rewrite forallb_forall in Hc. apply Forall_forall.
  intros s Hs. apply (valid_shape_settled exact). apply Hc.
  by apply list_elem_of_In.
Qed.


(** *** Commands *)

Ltac absent_key Hk :=
  eapply keysWithin_absent; [exact Hk | simpl; intuition discriminate].

Lemma string_of_field fs k :
  fieldOk fs (req k zString) = true -> exists i, get k fs = Some (JStr i).
Proof.
  intros H. apply required_field in H as (v & Hg & Hc).
  destruct v; try discriminate. eauto.
Qed.

Ltac facts_of Hz Ht t :=
  let Hk := fresh "Hk" in
  pose proof (zObject_keys _ _ Hz) as Hk; simpl in Hk;
  refine {| fact_type := Ht |};
  [ simpl; tauto
  | absent_key Hk | absent_key Hk | absent_key Hk | absent_key Hk | absent_key Hk
  | try (simpl; intros; discriminate)
  | try (intros [?|?]; discriminate)
  | try (intros _; absent_key Hk)
  | try (intros [?|?]; discriminate)
  | try (intros ?; discriminate) ].

Lemma exact_command_facts fs :
  DrawingCommandSchema true (JObj fs) = true -> exists t, commandFacts fs t.
Proof.
  intros Hv. cbn [DrawingCommandSchema] in Hv.
  destruct (get "type" fs) as [[| | |t| |]|] eqn:Ht; try discriminate.
  exists t.
  destruct (String.eqb_spec t "set_scene_intent") as [->|_].
  { facts_of Hv Ht "set_scene_intent". }
  destruct (String.eqb_spec t "add_preview_object") as [->|_].
  { facts_of Hv Ht "add_preview_object".
    - intros _.
      destruct (required_field fs "object" (objectWithStatus true "preview"))
        as (obj & Hg & Hc); [eapply zObject_field; [exact Hv|simpl; auto]|].
      exists obj. split; [done|]. unfold objectWithStatus in Hc.
      by apply andb_true_iff in Hc as [Hc _].
    - intros Hn. exfalso. apply Hn. by left. }
  destruct (String.eqb_spec t "update_preview_object") as [->|_].
  { facts_of Hv Ht "update_preview_object".
    - intros _. apply string_of_field. eapply zObject_field; [exact Hv|simpl; auto].
    - intros _.
      destruct (required_field fs "patch" PatchSchema)
        as (p & Hg & Hc); [eapply zObject_field; [exact Hv|simpl; auto]|].
      destruct p; try discriminate. eauto. }
  destruct (String.eqb_spec t "commit_preview_object") as [->|_].
  { facts_of Hv Ht "commit_preview_object".
    intros _. apply string_of_field. eapply zObject_field; [exact Hv|simpl; auto]. }
  destruct (String.eqb_spec t "cancel_preview_object") as [->|_].
  { facts_of Hv Ht "cancel_preview_object".
    intros _. apply string_of_field. eapply zObject_field; [exact Hv|simpl; auto]. }
  destruct (String.eqb_spec t "add_object") as [->|_].
  { facts_of Hv Ht "add_object".
    - intros _.
      destruct (required_field fs "object" (objectWithStatus true "committed"))
        as (obj & Hg & Hc); [eapply zObject_field; [exact Hv|simpl; auto]|].
      exists obj. split; [done|]. unfold objectWithStatus in Hc.
      by apply andb_true_iff in Hc as [Hc _].
    - intros Hn. exfalso. apply Hn. by right. }
  destruct (String.eqb_spec t "update_object") as [->|_].
  { facts_of Hv Ht "update_object".
    - intros _. apply string_of_field. eapply zObject_field; [exact Hv|simpl; auto].
    - intros _.
      destruct (required_field fs "patch" PatchSchema)
        as (p & Hg & Hc); [eapply zObject_field; [exact Hv|simpl; auto]|].
      destruct p; try discriminate. eauto. }
  destruct (String.eqb_spec t "delete_object") as [->|_].
  { facts_of Hv Ht "delete_object".
    intros _. apply string_of_field. eapply zObject_field; [exact Hv|simpl; auto]. }
  destruct (String.eqb_spec t "set_background_gradient") as [->|_].
  { facts_of Hv Ht "set_background_gradient". }
  destruct (String.eqb_spec t "set_ground_fill") as [->|_].
  { facts_of Hv Ht "set_ground_fill". }
  destruct (String.eqb_spec t "set_path") as [->|_].
  { facts_of Hv Ht "set_path".
    intros _. apply string_of_field. eapply zObject_field; [exact Hv|simpl; auto]. }
  destruct (String.eqb_spec t "batch") as [->|_]; [|discriminate].
  rewrite getWith_get in Hv.
  destruct (get "commands" fs) as [c|] eqn:Hc; simpl in Hv; [|discriminate].
  apply andb_true_iff in Hv as [Hin Hk].
  refine {| fact_type := Ht |};
    [ simpl; tauto
    | absent_key Hk | absent_key Hk | absent_key Hk | absent_key Hk | absent_key Hk
    | simpl; intros; discriminate
    | intros [?|?]; discriminate
    | intros _; absent_key Hk
    | intros [?|?]; discriminate
    | ].
  intros _. destruct c; try discriminate. eauto.
Qed.


Lemma isStr_type fs t s :
  get "type" fs = Some (JStr t) -> isStr (get "type" fs) s = true -> t = s.
Proof. intros Ht H. apply isStr_eq in H. congruence. Qed.

Lemma isStr_type_false fs t s :
  get "type" fs = Some (JStr t) -> t <> s -> isStr (get "type" fs) s = false.
Proof.
  intros Ht Hne. rewrite Ht. simpl. by apply String.eqb_neq.
Qed.

Lemma valid_object_is_object exact obj :
  SceneObjectSchema exact obj = true -> exists ofs, obj = JObj ofs.
Proof. destruct obj; try discriminate. eauto. Qed.

Lemma legacy_fixed syntheticId fs t :
  commandFacts fs t -> normalizeLegacyCommand syntheticId (JObj fs) = JObj fs.
Proof.
  intros F. unfold normalizeLegacyCommand.
  rewrite (fact_command_type _ _ F). cbv beta iota zeta.
  rewrite (fact_object_id _ _ F). cbv beta iota zeta.
  match goal with |- (if ?b then _ else _) = _ => destruct b eqn:E end; [|done].
  exfalso. apply andb_true_iff in E as [Ht Ho].
  assert (Hadd : isAddType t).
  { apply orb_true_iff in Ht as [Ht|Ht];
      apply (isStr_type _ _ _ (fact_type _ _ F)) in Ht; [by left|by right]. }
  destruct (fact_object _ _ F Hadd) as (obj & Hg & Hv).
  destruct (valid_object_is_object _ _ Hv) as [ofs ->].
  by rewrite Hg in Ho.
Qed.

Lemma target_type_not_batch t :
  Layering.has COMMANDS_THAT_REQUIRE_TARGET_ID t = true -> t <> "batch".
Proof. intros H ->. discriminate. Qed.

Lemma update_type_is_target t :
  isUpdateType t -> Layering.has COMMANDS_THAT_REQUIRE_TARGET_ID t = true.
Proof. by intros [->| ->]. Qed.

Lemma targetId_fixed fs t :
  commandFacts fs t ->
  (forall inner, get "commands" fs = Some (JArr inner) ->
                 map normalizeTargetId inner = inner) ->
  normalizeTargetId (JObj fs) = JObj fs.
Proof.
  intros F Hinner. cbn [normalizeTargetId]. rewrite (fact_type _ _ F).
  destruct (Layering.has COMMANDS_THAT_REQUIRE_TARGET_ID t) eqn:Htarget.
  - destruct (fact_id _ _ F Htarget) as [i Hi].
    unfold targetOf. rewrite Hi, (fact_objectId _ _ F), (fact_object_id _ _ F).
    assert (Hset : match nonEmptyString (Some (JStr i)) with
                   | Some s => Some s
                   | None => None
                   end = nonEmptyString (Some (JStr i))) by by case_match.
    assert (Hsame : match
                      match nonEmptyString (Some (JStr i)) with
                      | Some s => Some s
                      | None =>
                          match nonEmptyString None with
                          | Some s => Some s
                          | None => nonEmptyString None
                          end
                      end
                    with
                    | Some target => set "id" (JStr target) fs
                    | None => fs
                    end = fs).
    { simpl. destruct (String.eqb i ""); [done|]. by apply set_same. }
    rewrite Hsame. unfold hasKey.
    rewrite (fact_objectId _ _ F), (fact_object_id _ _ F).
    rewrite (isStr_type_false _ _ _ (fact_type _ _ F)
               (target_type_not_batch _ Htarget)).
    done.
  - destruct (isStr (get "type" fs) "batch") eqn:Hb; [|done].
    apply (isStr_type _ _ _ (fact_type _ _ F)) in Hb.
    destruct (fact_batch _ _ F Hb) as (inner & Hc & _).
    rewrite getWith_get, Hc. simpl. rewrite (Hinner inner Hc).
    by rewrite set_same.
Qed.

Lemma missingPatch_fixed fs t :
  commandFacts fs t ->
  (forall inner, get "commands" fs = Some (JArr inner) ->
                 map normalizeMissingPatch inner = inner) ->
  normalizeMissingPatch (JObj fs) = JObj fs.
Proof.
  intros F Hinner. cbn [normalizeMissingPatch].
  destruct (isStr (get "type" fs) "batch") eqn:Hb.
  - apply (isStr_type _ _ _ (fact_type _ _ F)) in Hb.
    destruct (fact_batch _ _ F Hb) as (inner & Hc & _).
    rewrite getWith_get, Hc. simpl. rewrite (Hinner inner Hc).
    by rewrite set_same.
  - cbn [andb].
    match goal with |- (if ?b then _ else _) = _ => destruct b eqn:Hu end; [|done].
    assert (Hupd : isUpdateType t).
    { apply orb_true_iff in Hu as [Hu|Hu];
        apply (isStr_type _ _ _ (fact_type _ _ F)) in Hu; [by right|by left]. }
    destruct (fact_patch _ _ F Hupd) as (p & Hp).
    assert (Hno : get "object" fs = None).
    { apply (fact_no_object _ _ F). intros [->| ->]; destruct Hupd; discriminate. }
    rewrite Hp, (fact_transform _ _ F), (fact_shapes _ _ F), Hno.
    cbn [truthy typeofObject andb spread foldInto].
    destruct p as [|kv p']; [done|].
    rewrite (remove_absent "transform") by apply (fact_transform _ _ F).
    rewrite (remove_absent "shapes") by apply (fact_shapes _ _ F).
    rewrite (remove_absent "object") by exact Hno.
    by rewrite set_same.
Qed.

Lemma target_and_patch_fixed c :
  DrawingCommandSchema true c = true -> fixedByTargetAndPatch c.
Proof.
  enough (H : (DrawingCommandSchema true c = true -> fixedByTargetAndPatch c) /\
              (forall l, c = JArr l ->
                 Forall (fun x => DrawingCommandSchema true x = true ->
                                  fixedByTargetAndPatch x) l)) by apply H.
  induction c as [| | | |l IH|fs IH] using json_ind_nested;
    try (split; [discriminate|discriminate]).
  - split; [discriminate|]. intros l' [= <-].
    eapply Forall_impl; [exact IH|]. by intros x [Hx _].
  - split; [|discriminate]. intros Hv.
    destruct (exact_command_facts fs Hv) as [t F].
    assert (Hin : forall inner, get "commands" fs = Some (JArr inner) ->
                    Forall fixedByTargetAndPatch inner).
    { intros inner Hc.
      assert (Hb : t = "batch").
      { destruct (String.eqb_spec t "batch") as [|Hne]; [done|].
        exfalso. destruct F. clear - fact_known0 Hne Hc Hv fact_type0.
        cbn [DrawingCommandSchema] in Hv. rewrite fact_type0 in Hv.
        simpl in fact_known0.
        repeat (destruct fact_known0 as [<-|fact_known0];
                [ first [ congruence
                        | apply zObject_keys in Hv; simpl in Hv;
                          assert (get "commands" fs = None) by absent_key Hv;
                          congruence ] |]).
        done. }
      destruct (fact_batch _ _ F Hb) as (inner' & Hc' & Hall).
      rewrite Hc in Hc'. injection Hc' as <-.
      rewrite Forall_forall in IH.
      destruct (IH _ (proj2 (list_elem_of_In _ _) (get_In _ _ _ Hc))) as [_ Hl].
      simpl in Hl.
      specialize (Hl inner eq_refl).
      rewrite forallb_forall in Hall. apply Forall_forall. intros x Hx.
      rewrite Forall_forall in Hl. apply (Hl x Hx). apply Hall.
      by apply list_elem_of_In. }
    split.
    + apply (targetId_fixed fs t F). intros inner Hc. apply map_fixed.
      eapply Forall_impl; [exact (Hin inner Hc)|]. by intros x [Hx _].
    + apply (missingPatch_fixed fs t F). intros inner Hc. apply map_fixed.
      eapply Forall_impl; [exact (Hin inner Hc)|]. by intros x [_ Hx].
Qed.


Lemma normalizeOneCommand_fixed syntheticId c :
  DrawingCommandSchema true c = true -> settledPatchShapes c = true ->
  normalizeOneCommand syntheticId c = Some c.
Proof.
  intros Hv Hs. destruct c as [| | | | |fs]; try discriminate.
  destruct (exact_command_facts fs Hv) as [t F].
  destruct (target_and_patch_fixed _ Hv) as [Htarget Hpatch].
  unfold normalizeOneCommand.
  rewrite (legacy_fixed syntheticId fs t F), Htarget, Hpatch.
  destruct ((isStr (get "type" fs) "add_preview_object"
             || isStr (get "type" fs) "add_object")
            && truthy (get "object" fs)) eqn:Hadd.
  - apply andb_true_iff in Hadd as [Ht _].
    assert (Ha : isAddType t).
    { apply orb_true_iff in Ht as [Ht|Ht];
        apply (isStr_type _ _ _ (fact_type _ _ F)) in Ht; [by left|by right]. }
    destruct (fact_object _ _ F Ha) as (obj & Hg & Hobj).
    rewrite Hg. simpl. rewrite (valid_object_shapes _ _ Hobj).
    by rewrite set_same.
  - match goal with |- (if ?b then _ else _) = _ => destruct b eqn:Hupd end;
      [|done].
    apply andb_true_iff in Hupd as [Ht Htruthy].
    unfold settledPatchShapes, isUpdateCommand in Hs.
    rewrite orb_comm in Ht. rewrite Ht in Hs.
    destruct (get "patch" fs) as [p|] eqn:Hp; [|done].
    destruct p as [| | | | |patch]; try done.
    simpl in Htruthy.
    destruct (get "shapes" patch) as [sh|] eqn:Hsh; [|done].
    destruct sh as [| | | |shapes|]; try (by rewrite Htruthy in Hs).
    rewrite map_fixed.
    + by rewrite (set_same "shapes"), set_same.
    + rewrite forallb_forall in Hs. apply Forall_forall. intros x Hx.
      apply settled_shape_fixed. apply Hs. by apply list_elem_of_In.
Qed.

(** Claim C7, as the normalizer implements it. An envelope that validates,
    carries no key the grammar does not declare, and whose top-level update
    patches have [shapes] that are falsy or an array free of legacy
    [{x1,y1,x2,y2}] lines, comes out of [normalizeToEnvelope] followed by
    [normalizeCommandArray] unchanged, whatever the clock reads. *)
Theorem normalizing_settled_envelope_is_noop
    (syntheticId : option json -> string) (v : json) :
  wellFormedExactly v = true ->
  settledEnvelope v = true ->
  normalizeCandidate syntheticId v = Some v.
Proof.
  intros Hv Hs. destruct v as [| | | | |fs]; try discriminate.
  destruct (valid_envelope_commands _ _ Hv) as (commands & Hc & Hall).
  pose proof (zObject_keys _ _ Hv) as Hk. simpl in Hk.
  assert (He : get "envelope" fs = None) by absent_key Hk.
  assert (Hn : normalizeToEnvelope (JObj fs) = JObj fs).
  { unfold normalizeToEnvelope. cbn [prop]. rewrite He.
    unfold hasKey. rewrite Hc. by rewrite andb_false_r. }
  unfold normalizeCandidate. rewrite Hn, Hc.
  unfold settledEnvelope in Hs. cbn [prop] in Hs. rewrite Hc in Hs.
  unfold normalizeCommandArray. rewrite mapThrowing_fixed.
  - by rewrite set_same.
  - rewrite forallb_forall in Hall, Hs. apply Forall_forall. intros c Hin.
    apply list_elem_of_In in Hin.
    apply normalizeOneCommand_fixed; [by apply Hall|by apply Hs].
Qed.

Lemma normalizing_settled_envelope_is_noop_witness :
  normalizeCandidate frozenClock validEnvelope = Some validEnvelope.
Proof.
  apply normalizing_settled_envelope_is_noop; vm_compute; reflexivity.
Defined.

(** An envelope that validates is not always left alone: a legacy line inside
    an update patch is rewritten, and a stray [objectId] is dropped. *)
Lemma normalizer_rewrites_valid_envelopes :
  (validates legacyLinePatch = true /\
   wellFormedExactly legacyLinePatch = true /\
   normalizeCandidate frozenClock legacyLinePatch = Some legacyLinePatchNormalized /\
   legacyLinePatchNormalized <> legacyLinePatch) /\
  (validates strayTargetKey = true /\
   normalizeCandidate frozenClock strayTargetKey = Some strayTargetKeyNormalized /\
   strayTargetKeyNormalized <> strayTargetKey).
Proof.
  split; repeat split; try (vm_compute; reflexivity); discriminate.
Qed.

End NormalizerProofs.

(** * Further properties of the reducer *)

Module ReducerMore.
Import Reducer ReducerSpec Examples Induction ReducerProofs MoreSpec.

Lemma filter_ne_absent (id : string) (l : list string) :
  id ∉ l -> filter (λ x, x ≠ id) l = l.
Proof.
  induction l as [|x l IH]; intros Hn; [done|].
  rewrite filter_cons. apply not_elem_of_cons in Hn as [Hne Hn].
  destruct (decide (x ≠ id)) as [_|E]; [by rewrite IH|].
  exfalso. apply E. congruence.
Qed.

Lemma filter_ne_insertByKey objects k (id : string) l :
  id ∉ l -> filter (λ x, x ≠ id) (insertByKey objects k id l) = l.
Proof.
  induction l as [|x l IH]; intros Hn; simpl.
  - rewrite filter_cons. by destruct (decide (id ≠ id)).
  - apply not_elem_of_cons in Hn as [Hne Hn].
    assert (Hhead : filter (λ y, y ≠ id) (id :: x :: l) = x :: l).
    { rewrite filter_cons. destruct (decide (id ≠ id)); [done|].
      apply filter_ne_absent. apply not_elem_of_cons. split; [done|done]. }
    assert (Htail : filter (λ y, y ≠ id) (x :: insertByKey objects k id l) = x :: l).
    { rewrite filter_cons. destruct (decide (x ≠ id)) as [_|E]; [by rewrite IH|].
      exfalso. apply E. congruence. }
    destruct (objects !! x) as [o|]; [|exact Htail].
    destruct (k <? orderKey o); [exact Hhead|exact Htail].
Qed.

Lemma insertIntoOrder_insertByKey intent objects order id obj :
  objects !! id = Some obj ->
  insertIntoOrder {| sg_intent := intent; sg_objects := objects; sg_order := order |} id
    = insertByKey objects (orderKey obj) id (filter (λ x, x ≠ id) order).
Proof.
  intros H. unfold insertIntoOrder. simpl. rewrite H. apply splice_insertIndex.
Qed.

Lemma reachable_fresh_not_in_order scene id :
  reachable scene -> sg_objects scene !! id = None -> id ∉ sg_order scene.
Proof.
  intros Hr Hn Hin. destruct (reachable_invariant _ Hr) as [(_ & Hi & _) _].
  destruct (Hi id Hin) as [o Ho]. congruence.
Qed.

(** X1. Adding an object under a fresh id and deleting it again (or cancelling
    it) gives back the scene, objects and paint order alike. *)
Theorem add_then_delete_restores_scene scene obj :
  reachable scene ->
  sg_objects scene !! obj_id obj = None ->
  applyCommand (applyCommand scene (add_object obj)) (delete_object (obj_id obj))
    = scene /\
  applyCommand (applyCommand scene (add_preview_object obj))
               (cancel_preview_object (obj_id obj)) = scene.
Proof.
  intros Hr Hfresh.
  pose proof (reachable_fresh_not_in_order _ _ Hr Hfresh) as Hnin.
  assert (H : removeObject (addObject scene obj) (obj_id obj) = scene).
  { unfold addObject. rewrite Hfresh. unfold removeObject. simpl.
    rewrite lookup_insert_eq.
    rewrite (insertIntoOrder_insertByKey _ _ _ _ obj) by apply lookup_insert_eq.
    rewrite (filter_ne_absent _ _ Hnin).
    rewrite filter_ne_insertByKey by done.
    rewrite delete_insert_id by done. by destruct scene. }
  split; exact H.
Qed.

Lemma add_then_delete_restores_scene_witness :
  applyCommand (applyCommand createEmptyScene (add_object skyObject))
               (delete_object "sky-1") = createEmptyScene.
Proof.
  apply (proj1 (add_then_delete_restores_scene createEmptyScene skyObject
                  reachable_empty eq_refl)).
Defined.





(** *** Where ids come from *)

Lemma elem_of_insertIntoOrder scene id x :
  x ∈ insertIntoOrder scene id -> x = id \/ x ∈ sg_order scene.
Proof.
  unfold insertIntoOrder. destruct (sg_objects scene !! id) as [o|]; [|by right].
  rewrite splice_insertIndex, insertByKey_perm. intros Hx.
  apply elem_of_cons in Hx as [->|Hx]; [by left|right].
  by apply list_elem_of_filter in Hx as [_ Hx].
Qed.





(** *** Updates *)




(** A move across layers re-orders: the sun leaves the sky layer. *)
Example sun_moved_to_foreground :
  sg_order (applyCommand exampleScene
              (update_object "sun-1"
                 (mkPatch (Some "foreground") None None None None)))
    = ["sky-1"; "tree-1"; "sun-1"].
Proof. vm_compute. reflexivity. Qed.

(** X5. An update whose patch carries a transform stores a transform inside
    the declared bounds, whatever the stored and the patched values were. *)
Theorem update_with_transform_lands_in_bounds scene id patch existing pt :
  sg_objects scene !! id = Some existing ->
  patch_transform patch = Some pt ->
  exists updated,
    sg_objects (applyCommand scene (update_object id patch)) !! id = Some updated /\
    inBounds (obj_transform updated).
Proof.
  intros Hl Hp. exists (applyPatch existing patch). split.
  - simpl. unfold updateObject. rewrite Hl.
    destruct (orderKey existing =? orderKey (applyPatch existing patch)); simpl;
      apply lookup_insert_eq.
  - unfold applyPatch. rewrite Hp. simpl.
    unfold inBounds, clampTransform. simpl.
    repeat split; apply ClampProofs.clamp_bounds; done.
Qed.


Lemma update_with_transform_lands_in_bounds_witness :
  exists updated,
    sg_objects (applyCommand exampleScene
                  (update_object "sun-1"
                     (mkPatch None None
                        (Some (mkPartial (Some 250%Q) None (Some 0%Q) None))
                        None None))) !! "sun-1" = Some updated /\
    inBounds (obj_transform updated).
Proof.
  apply (update_with_transform_lands_in_bounds exampleScene "sun-1" _ sunObject
           (mkPartial (Some 250%Q) None (Some 0%Q) None)).
  - vm_compute. reflexivity.
  - reflexivity.
Defined.

(** *** Where a new object lands *)




(** The cloud ties with the sun and lands right behind it. *)
Example cloud_lands_behind_the_sun :
  sg_order (applyCommand exampleScene
              (add_object (mkObject "cloud-1" committed "sky"
                             (mkTransform 30 10 1 0) (Some "cloud") [])))
    = ["sky-1"; "sun-1"; "cloud-1"; "tree-1"].
Proof. vm_compute. reflexivity. Qed.

(** *** Batches *)

Lemma applyCommands_flat_map (f : DrawingCommand -> list DrawingCommand) cs :
  Forall (fun c => forall scene, applyCommands scene (f c) = applyCommand scene c) cs ->
  forall scene, applyCommands scene (flat_map f cs) = applyCommands scene cs.
Proof.
  induction 1 as [|c r Hc _ IH]; intros scene; [done|].
  simpl. rewrite <- applyCommands_app, Hc. apply IH.
Qed.

Lemma applyCommands_flattenCommand c : forall scene,
  applyCommands scene (flattenCommand c) = applyCommand scene c.
Proof.
  induction c as [cs IH|c Hleaf] using command_ind_nested; intros scene.
  - rewrite applyCommand_batch_loop. cbn [flattenCommand].
    by apply applyCommands_flat_map.
  - destruct c; try done. by destruct (Hleaf commands).
Qed.

(** X7. Batches are transparent to the reducer at every depth: a command list
    and the list with all its batches opened give the same scene, and the
    opened list holds no batch. *)
Theorem flattening_batches_keeps_the_scene scene commands :
  applyCommands scene (flattenCommands commands) = applyCommands scene commands /\
  Forall (fun c => forall cs, c <> batch cs) (flattenCommands commands).
Proof.
  split.
  - apply applyCommands_flat_map. apply Forall_forall. intros c _.
    apply applyCommands_flattenCommand.
  - unfold flattenCommands. apply Forall_forall. intros c Hc.
    apply list_elem_of_In, in_flat_map in Hc as (c0 & _ & Hc).
    revert c Hc. induction c0 as [cs IH|c0 Hleaf] using command_ind_nested;
      intros c Hc.
    + cbn [flattenCommand] in Hc. apply in_flat_map in Hc as (c1 & H1 & Hc).
      rewrite Forall_forall in IH. apply (IH c1); [by apply list_elem_of_In|done].
    + destruct c0;
        try (match goal with
             | H : forall cs, batch ?x <> batch cs |- _ => by destruct (H x)
             end);
        simpl in Hc; destruct Hc as [<-|[]]; done.
Qed.

End ReducerMore.

(** * The active previews (routes.ts) after reducer steps *)

Module RoutesFacts.
Import Reducer ReducerSpec Examples Routes.

Lemma active_iff scene x :
  x ∈ getActivePreviewIds scene <->
  exists o, sg_objects scene !! x = Some o /\ obj_status o = preview.
Proof.
  unfold getActivePreviewIds. rewrite elem_of_dom. split.
  - intros [o Ho]. apply map_lookup_filter_Some in Ho as [Ho Hp]. eauto.
  - intros (o & Ho & Hp). exists o. by apply map_lookup_filter_Some.
Qed.

(** X8. Committing, cancelling or deleting an id takes exactly that id out of
    the active previews, whether or not it was one; no other id enters or
    leaves. *)
Theorem finishing_a_preview_deactivates_it scene id :
  getActivePreviewIds (applyCommand scene (commit_preview_object id))
    = getActivePreviewIds scene ∖ {[id]} /\
  getActivePreviewIds (applyCommand scene (cancel_preview_object id))
    = getActivePreviewIds scene ∖ {[id]} /\
  getActivePreviewIds (applyCommand scene (delete_object id))
    = getActivePreviewIds scene ∖ {[id]}.
Proof.
  assert (Hrem : getActivePreviewIds (removeObject scene id)
                 = getActivePreviewIds scene ∖ {[id]}).
  { apply set_eq. intros x. rewrite elem_of_difference, elem_of_singleton, !active_iff.
    unfold removeObject. destruct (sg_objects scene !! id) as [e|] eqn:Hl; simpl.
    - destruct (decide (x = id)) as [->|Hne].
      + rewrite lookup_delete_eq. split; [by intros (? & ? & _)|tauto].
      + rewrite lookup_delete_ne by done. tauto.
    - split; [|tauto]. intros (o & Ho & Hp). split; [eauto|]. congruence. }
  split; [|by split].
  apply set_eq. intros x. rewrite elem_of_difference, elem_of_singleton, !active_iff.
  simpl. unfold commitObject.
  destruct (sg_objects scene !! id) as [e|] eqn:Hl.
  - destruct (obj_status e) eqn:Hst; simpl.
    + destruct (decide (x = id)) as [->|Hne].
      * rewrite lookup_insert_eq. split; [|tauto].
        intros (o & [= <-] & Hp). discriminate.
      * rewrite lookup_insert_ne by done. tauto.
    + split; [|tauto]. intros (o & Ho & Hp). split; [eauto|].
      intros ->. congruence.
  - split; [|tauto]. intros (o & Ho & Hp). split; [eauto|]. congruence.
Qed.

End RoutesFacts.

(** * Further properties of the layering module *)

Module LayeringFacts.
Import Layering LayeringBounds.



Lemma toLowerCase_empty s : toLowerCase s = "" <-> s = "".
Proof. destruct s; simpl; split; congruence. Qed.

Lemma toLowerCase_app a b :
  toLowerCase (a ++ b)%string = (toLowerCase a ++ toLowerCase b)%string.
Proof. induction a as [|c a IH]; simpl; [done|]. by rewrite IH. Qed.

Lemma prefix_app p s : String.prefix p (p ++ s)%string = true.
Proof.
  induction p as [|c p IH]; simpl; [by destruct s|].
  destruct (ascii_dec c c); [exact IH|done].
Qed.

Lemma includes_prefix p s : String.prefix p s = true -> includes p s = true.
Proof. intros H. destruct s; simpl in *; by rewrite H. Qed.

Lemma includes_app p a b : includes p (a ++ p ++ b)%string = true.
Proof.
  induction a as [|c a IH].
  - apply includes_prefix. exact (prefix_app p b).
  - simpl. rewrite IH. apply orb_true_r.
Qed.

(** X10. An utterance that holds one of the ten full-canvas phrases, in any
    letter case and with any text around it, has full-canvas intent. *)
Theorem full_canvas_phrase_is_found (before phrase after pattern : string) :
  In pattern fullCanvasPatterns ->
  toLowerCase phrase = pattern ->
  hasFullCanvasIntent (before ++ phrase ++ after)%string = true.
Proof.
  intros Hin Hp. unfold hasFullCanvasIntent. apply existsb_exists.
  exists pattern. split; [done|].
  rewrite !toLowerCase_app, Hp. apply includes_app.
Qed.

Lemma full_canvas_phrase_is_found_witness :
  hasFullCanvasIntent
    ("Please cover the " ++ "Whole Canvas" ++ " with sky")%string = true.
Proof.
  apply (full_canvas_phrase_is_found _ _ _ "whole canvas"); [|reflexivity].
  simpl. tauto.
Defined.

(** The tests of the layering module on normal requests. *)
Example no_full_canvas_intent :
  hasFullCanvasIntent "add a tree" = false /\
  hasFullCanvasIntent "put a sky" = false /\
  hasFullCanvasIntent "draw the sun" = false.
Proof. repeat split; reflexivity. Qed.

(** X11. Default bounds always span the full width and a non-empty vertical band
    inside the canvas; with [fullCanvas] they are the whole canvas, and
    otherwise sky keeps above the horizon and grass, field and ground below
    it, in any letter case. *)
Theorem default_bounds_stay_on_canvas (tag : string) (fullCanvas : bool) :
  let b := getDefaultBounds tag fullCanvas in
  x1 b = 0 /\ x2 b = 100 /\ 0 <= y1 b < y2 b /\ y2 b <= 100 /\
  (fullCanvas = true -> y1 b = 0 /\ y2 b = 100) /\
  (fullCanvas = false -> toLowerCase tag = "sky" -> y1 b = 0 /\ y2 b = HORIZON_Y) /\
  (fullCanvas = false ->
   In (toLowerCase tag) ["grass"; "field"; "ground"] ->
   y1 b = HORIZON_Y /\ y2 b = 100).
Proof.
  unfold getDefaultBounds, HORIZON_Y.
  destruct fullCanvas; simpl; [repeat split; (lia || discriminate)|].
  destruct (String.eqb_spec (toLowerCase tag) "sky") as [Hs|Hs]; simpl.
  { rewrite Hs. repeat split; try lia.
    all: match goal with
         | H : _ \/ _ |- _ => destruct H as [?|[?|[?|[]]]]; discriminate
         end. }
  destruct (String.eqb_spec (toLowerCase tag) "grass") as [Hg|Hg]; simpl;
    [repeat split; (lia || discriminate || congruence)|].
  destruct (String.eqb_spec (toLowerCase tag) "field") as [Hf|Hf]; simpl;
    [repeat split; (lia || discriminate || congruence)|].
  destruct (String.eqb_spec (toLowerCase tag) "ground") as [Hd|Hd]; simpl;
    [repeat split; (lia || discriminate || congruence)|].
  repeat split; try lia; try congruence.
  all: match goal with
       | H : _ \/ _ |- _ => destruct H as [?|[?|[?|[]]]]; congruence
       end.
Qed.

Lemma default_bounds_stay_on_canvas_witness :
  y1 (getDefaultBounds "Grass" false) = 45 /\
  y2 (getDefaultBounds "Grass" false) = 100.
Proof.
  apply (default_bounds_stay_on_canvas "Grass" false); [reflexivity|].
  simpl. tauto.
Defined.

End LayeringFacts.

(** * Further properties of the normalizer *)

Module NormalizerMore.
Import Js Schema Director DirectorSpec PipelineExamples Induction JsFacts
  SchemaProofs NormalizerProofs DirectorMore MoreSpec.

Lemma get_remove_eq k fs : get k (remove k fs) = None.
Proof.
  induction fs as [|[k' v] rest IH]; simpl; [done|].
  destruct (String.eqb k' k) eqn:E; [exact IH|]. simpl. by rewrite E.
Qed.

Lemma set_set k v v' fs : set k v (set k v' fs) = set k v fs.
Proof.
  induction fs as [|[k' w] rest IH]; simpl.
  - by rewrite String.eqb_refl.
  - destruct (String.eqb k' k) eqn:E; simpl.
    + by rewrite String.eqb_refl.
    + by rewrite E, IH.
Qed.

Lemma set_fixed_get k v fs : set k v fs = fs -> get k fs = Some v.
Proof. intros H. rewrite <- H. apply get_set_eq. Qed.

Lemma hasKey_set k v fs : hasKey k (set k v fs) = true.
Proof. unfold hasKey. by rewrite get_set_eq. Qed.

(** *** normalizeToEnvelope *)

(** X12. Whatever comes in, an object that leaves [normalizeToEnvelope] with a
    [refused], [refusalReason] or [notes] key has a [commands] key; a bare
    command (an object with a string [type] and none of those keys) leaves
    wrapped as the only command of an envelope; a value that is not an object
    or array leaves as it came. *)
Theorem normalizeToEnvelope_supplies_commands (v : json) (fs : fields) :
  (normalizeToEnvelope v = JObj fs ->
   hasKey "refused" fs || hasKey "refusalReason" fs || hasKey "notes" fs = true ->
   hasKey "commands" fs = true) /\
  (v = JObj fs ->
   truthy (get "envelope" fs) = false ->
   hasKey "refused" fs || hasKey "refusalReason" fs || hasKey "notes" fs = false ->
   hasKey "commands" fs = false ->
   isString (get "type" fs) = true ->
   normalizeToEnvelope v = JObj [("commands", JArr [v])]) /\
  (typeofObject (Some v) && truthy (Some v) = false -> normalizeToEnvelope v = v).
Proof.
  split; [|split].
  - intros Hn Hr.
    assert (Hinner : forall g,
              (if (hasKey "refused" g || hasKey "refusalReason" g || hasKey "notes" g)
                  && negb (hasKey "commands" g)
               then JObj (set "commands" (JArr []) g)
               else if hasKey "commands" g then JObj g
               else if isString (get "type" g)
                    then JObj [("commands", JArr [JObj g])]
                    else JObj g) = JObj fs ->
              hasKey "commands" fs = true).
    { intros g Hg.
      destruct (hasKey "refused" g || hasKey "refusalReason" g || hasKey "notes" g)
        eqn:Hrg; simpl in Hg.
      - destruct (hasKey "commands" g) eqn:Hc; simpl in Hg.
        + by injection Hg as <-.
        + injection Hg as <-. apply hasKey_set.
      - destruct (hasKey "commands" g) eqn:Hc; [by injection Hg as <-|].
        destruct (isString (get "type" g)); injection Hg as <-; [done|].
        congruence. }
    unfold normalizeToEnvelope in Hn.
    destruct v as [| | | |l|g]; try (simpl in Hn; discriminate).
    cbn [prop] in Hn.
    destruct (get "envelope" g) as [[| | | |e|e]|];
      first [by apply (Hinner g) | by apply (Hinner e) | discriminate].
  - intros -> He Hr Hc Ht. unfold normalizeToEnvelope. cbn [prop].
    assert (Hsame : match get "envelope" fs with
                    | Some (JObj e) => JObj e
                    | Some (JArr e) => JArr e
                    | _ => JObj fs
                    end = JObj fs).
    { by destruct (get "envelope" fs) as [[| | | | |]|]. }
    rewrite Hsame, Hr, Hc, Ht. done.
  - destruct v as [|b|q|s|l|g]; try done.
Qed.

Lemma normalizeToEnvelope_supplies_commands_witness :
  hasKey "commands" [("refused", JBool true); ("commands", JArr [])] = true /\
  normalizeToEnvelope (commandOfType "commit_preview_object" "p1")
    = JObj [("commands", JArr [commandOfType "commit_preview_object" "p1"])].
Proof.
  split.
  - apply (proj1 (normalizeToEnvelope_supplies_commands
                    (JObj [("envelope", JObj [("refused", JBool true)])])
                    [("refused", JBool true); ("commands", JArr [])]));
      reflexivity.
  - apply (proj1 (proj2 (normalizeToEnvelope_supplies_commands
                    (commandOfType "commit_preview_object" "p1")
                    [("type", JStr "commit_preview_object"); ("id", JStr "p1")])));
      reflexivity.
Defined.

(** *** normalizeLineShape *)

Lemma settled_after_normalizeLineShape s : settledShape (normalizeLineShape s) = true.
Proof.
  destruct s as [| | | | |fs]; try done. unfold normalizeLineShape.
  destruct (isStr (get "type" fs) "line") eqn:Ht; [|by simpl; rewrite Ht].
  destruct (get "x1" fs) as [[| |x1| | |]|] eqn:H1; try (by simpl; rewrite Ht, H1).
  destruct (get "y1" fs) as [[| |y1| | |]|] eqn:H2;
    try (by simpl; rewrite Ht, H1, H2; simpl; rewrite ?andb_false_r).
  destruct (get "x2" fs) as [[| |x2| | |]|] eqn:H3;
    try (by simpl; rewrite Ht, H1, H2, H3; simpl; rewrite ?andb_false_r).
  destruct (get "y2" fs) as [[| |y2| | |]|] eqn:H4;
    try (by simpl; rewrite Ht, H1, H2, H3, H4; simpl; rewrite ?andb_false_r).
  destruct (isArray (get "points" fs)) eqn:Hp.
  - simpl. by rewrite Ht, H1, H2, H3, H4, Hp.
  - simpl. rewrite get_set_eq. simpl. by rewrite !andb_false_r.
Qed.

(** X13. [normalizeLineShape] is idempotent and always yields a shape it would
    leave alone. On a line in the legacy form it writes
    [points: [x1, y1, x2, y2]], drops the four legacy keys and keeps every
    other property. *)
Theorem normalizeLineShape_settles (s : json) (fs : fields) (x1 y1 x2 y2 : Q)
    (k : string) :
  normalizeLineShape (normalizeLineShape s) = normalizeLineShape s /\
  settledShape (normalizeLineShape s) = true /\
  (s = JObj fs -> isStr (get "type" fs) "line" = true ->
   get "x1" fs = Some (JNum x1) -> get "y1" fs = Some (JNum y1) ->
   get "x2" fs = Some (JNum x2) -> get "y2" fs = Some (JNum y2) ->
   isArray (get "points" fs) = false ->
   prop (normalizeLineShape s) "points"
     = Some (JArr [JNum x1; JNum y1; JNum x2; JNum y2]) /\
   prop (normalizeLineShape s) "x1" = None /\
   prop (normalizeLineShape s) "y1" = None /\
   prop (normalizeLineShape s) "x2" = None /\
   prop (normalizeLineShape s) "y2" = None /\
   (~ In k ["x1"; "y1"; "x2"; "y2"; "points"] ->
    prop (normalizeLineShape s) k = get k fs)).
Proof.
  split; [|split].
  - apply settled_shape_fixed, settled_after_normalizeLineShape.
  - apply settled_after_normalizeLineShape.
  - intros -> Ht H1 H2 H3 H4 Hp. unfold normalizeLineShape.
    rewrite Ht, H1, H2, H3, H4, Hp. cbn [prop].
    split; [apply get_set_eq|].
    assert (Hne : forall a b : string, a <> b -> b <> a) by congruence.
    split; [rewrite get_set_ne by done|].
    { rewrite !(get_remove_ne "x1") by done. apply get_remove_eq. }
    split; [rewrite get_set_ne by done|].
    { rewrite !(get_remove_ne "y1" "y2"), (get_remove_ne "y1" "x2") by done.
      apply get_remove_eq. }
    split; [rewrite get_set_ne by done|].
    { rewrite (get_remove_ne "x2" "y2") by done. apply get_remove_eq. }
    split; [rewrite get_set_ne by done; apply get_remove_eq|].
    intros Hk. simpl in Hk.
    rewrite get_set_ne by (intros ->; tauto).
    rewrite !get_remove_ne by (intros ->; tauto). done.
Qed.

Lemma normalizeLineShape_settles_witness :
  prop (normalizeLineShape legacyLine) "points"
    = Some (JArr [JNum 0; JNum 0; JNum 1; JNum 1]) /\
  prop (normalizeLineShape legacyLine) "x1" = None.
Proof.
  destruct (proj2 (proj2 (normalizeLineShape_settles legacyLine
              [("id", JStr "l1"); ("type", JStr "line");
               ("x1", JNum 0); ("y1", JNum 0); ("x2", JNum 1); ("y2", JNum 1)]
              0 0 1 1 "id")) eq_refl eq_refl eq_refl eq_refl eq_refl eq_refl eq_refl)
    as (Hp & Hx & _).
  split; [exact Hp|exact Hx].
Defined.

End NormalizerMore.

(** * Target ids and missing patches *)

Module RepairFacts.
Import Js Schema Director DirectorSpec PipelineExamples Induction JsFacts
  SchemaProofs NormalizerProofs DirectorMore MoreSpec NormalizerMore.

(** Induction on a command in its JSON form: the commands of the array under
    [commands] come with the induction hypothesis. *)
Lemma nested_commands_ind (P : json -> Prop) :
  (forall c,
     (forall fs inner, c = JObj fs -> get "commands" fs = Some (JArr inner) ->
                       Forall P inner) -> P c) ->
  forall c, P c.
Proof.
  intros Hstep.
  assert (H : forall v, P v /\ (forall l, v = JArr l -> Forall P l)).
  { induction v as [| | | |l IH|fs IH] using json_ind_nested;
      try (split; [apply Hstep; discriminate|discriminate]).
    - split; [apply Hstep; discriminate|].
      intros l' [= <-]. eapply Forall_impl; [exact IH|]. by intros x [Hx _].
    - split; [|discriminate]. apply Hstep. intros fs' inner [= <-] Hc.
      apply get_In in Hc.
      rewrite Forall_forall in IH.
      apply list_elem_of_In in Hc.
      exact (proj2 (IH _ Hc) inner eq_refl). }
  intros c. apply H.
Qed.

Lemma remove_if_present k fs :
  (if hasKey k fs then remove k fs else fs) = remove k fs.
Proof.
  unfold hasKey. destruct (get k fs) eqn:E; [done|]. symmetry. by apply remove_absent.
Qed.

(** *** normalizeTargetId *)

Lemma normalizeTargetId_eq fs :
  normalizeTargetId (JObj fs) =
  if requiresTargetId fs then JObj (retarget fs)
  else if isStr (get "type" fs) "batch" then
         match get "commands" fs with
         | Some (JArr inner) =>
             JObj (set "commands" (JArr (map normalizeTargetId inner)) fs)
         | _ => JObj fs
         end
       else JObj fs.
Proof.
  cbn [normalizeTargetId]. rewrite getWith_get. unfold requiresTargetId, retarget.
  assert (Hcmds : match mapArray normalizeTargetId <$> get "commands" fs with
                  | Some (Some commands) => JObj (set "commands" (JArr commands) fs)
                  | _ => JObj fs
                  end
                  = match get "commands" fs with
                    | Some (JArr inner) =>
                        JObj (set "commands" (JArr (map normalizeTargetId inner)) fs)
                    | _ => JObj fs
                    end).
  { by destruct (get "commands" fs) as [[| | | | |]|]. }
  destruct (get "type" fs) as [[| | |ty| |]|] eqn:Ht; rewrite ?Ht;
    try (by rewrite Hcmds).
  destruct (Layering.has COMMANDS_THAT_REQUIRE_TARGET_ID ty) eqn:Hreq.
  - rewrite !remove_if_present.
    rewrite !get_remove_ne by done.
    assert (Hty : isStr (get "type"
              (match targetOf fs with
               | Some target => set "id" (JStr target) fs
               | None => fs
               end)) "batch" = false).
    { assert (get "type" (match targetOf fs with
               | Some target => set "id" (JStr target) fs
               | None => fs
               end) = Some (JStr ty)) as ->.
      { destruct (targetOf fs); [rewrite get_set_ne by done|]; exact Ht. }
      simpl. destruct (String.eqb_spec ty "batch") as [->|]; [done|done]. }
    by rewrite Hty.
  - by rewrite Ht, Hcmds.
Qed.

Lemma targetOf_nonempty fs t :
  targetOf fs = Some t -> nonEmptyString (Some (JStr t)) = Some t.
Proof.
  assert (H : forall v, nonEmptyString v = Some t ->
                        nonEmptyString (Some (JStr t)) = Some t).
  { intros [[| | |s| |]|]; simpl; try discriminate.
    destruct (String.eqb s "") eqn:E; [discriminate|]. intros [= ->].
    simpl. by rewrite E. }
  unfold targetOf.
  destruct (nonEmptyString (get "id" fs)) eqn:E1; [intros [= ->]; eauto|].
  destruct (nonEmptyString (get "objectId" fs)) eqn:E2; [intros [= ->]; eauto|].
  eauto.
Qed.

Lemma get_retarget k fs :
  k <> "id" -> k <> "objectId" -> k <> "object_id" ->
  get k (retarget fs) = get k fs.
Proof.
  intros. unfold retarget. rewrite !get_remove_ne by done.
  destruct (targetOf fs); [by rewrite get_set_ne|done].
Qed.

Lemma get_id_retarget fs :
  get "id" (retarget fs) =
  match targetOf fs with Some t => Some (JStr t) | None => get "id" fs end.
Proof.
  unfold retarget. rewrite !get_remove_ne by done.
  destruct (targetOf fs); [apply get_set_eq|done].
Qed.

Lemma retarget_no_aliases fs :
  get "objectId" (retarget fs) = None /\ get "object_id" (retarget fs) = None.
Proof.
  unfold retarget. split; [|apply get_remove_eq].
  rewrite get_remove_ne by done. apply get_remove_eq.
Qed.

Lemma retarget_retarget fs : retarget (retarget fs) = retarget fs.
Proof.
  destruct (retarget_no_aliases fs) as [Ha Hb].
  assert (Ht : match targetOf (retarget fs) with
               | Some target => set "id" (JStr target) (retarget fs)
               | None => retarget fs
               end = retarget fs).
  { unfold targetOf at 1. rewrite Ha, Hb, get_id_retarget. simpl.
    destruct (targetOf fs) as [t|] eqn:E.
    - rewrite (targetOf_nonempty _ _ E). apply set_same.
      rewrite get_id_retarget. by rewrite E.
    - unfold targetOf in E.
      destruct (nonEmptyString (get "id" fs)); [discriminate|done]. }
  unfold retarget at 1. rewrite Ht.
  rewrite (remove_absent "objectId") by exact Ha. by apply remove_absent.
Qed.

Lemma requiresTargetId_retarget fs :
  requiresTargetId (retarget fs) = requiresTargetId fs.
Proof. unfold requiresTargetId. by rewrite get_retarget. Qed.

Lemma requiresTargetId_not_batch fs :
  isStr (get "type" fs) "batch" = true -> requiresTargetId fs = false.
Proof.
  unfold requiresTargetId. destruct (get "type" fs) as [[| | |ty| |]|]; try done.
  simpl. intros ->%String.eqb_eq. reflexivity.
Qed.

Lemma normalizeTargetId_idempotent c :
  normalizeTargetId (normalizeTargetId c) = normalizeTargetId c.
Proof.
  induction c as [c IH] using nested_commands_ind.
  destruct c as [| | | | |fs]; try done.
  rewrite (normalizeTargetId_eq fs).
  destruct (requiresTargetId fs) eqn:Hreq.
  - rewrite normalizeTargetId_eq, requiresTargetId_retarget, Hreq.
    by rewrite retarget_retarget.
  - destruct (isStr (get "type" fs) "batch") eqn:Hb;
      [|by rewrite normalizeTargetId_eq, Hreq, Hb].
    destruct (get "commands" fs) as [[| | | |inner|]|] eqn:Hc;
      try (by rewrite normalizeTargetId_eq, Hreq, Hb, Hc).
    rewrite normalizeTargetId_eq.
    unfold requiresTargetId. rewrite !get_set_ne by done.
    fold (requiresTargetId fs). rewrite Hreq, Hb, get_set_eq, set_set.
    do 3 f_equal. rewrite map_map. apply map_ext_Forall.
    exact (IH fs inner eq_refl Hc).
Qed.

(** X14. [normalizeTargetId] is idempotent. After it, no command that requires a
    target id, at the top or inside nested batches, has an [objectId] or
    [object_id] key; and the first non-empty string among [id], [objectId],
    [object_id] of such a command is its [id]. *)
Theorem normalizeTargetId_settles_the_target (c x : json) (fs : fields)
    (t : string) :
  normalizeTargetId (normalizeTargetId c) = normalizeTargetId c /\
  (occursIn x [normalizeTargetId c] -> x = JObj fs ->
   requiresTargetId fs = true ->
   hasKey "objectId" fs = false /\ hasKey "object_id" fs = false) /\
  (c = JObj fs -> requiresTargetId fs = true -> targetOf fs = Some t ->
   prop (normalizeTargetId c) "id" = Some (JStr t)).
Proof.
  split; [apply normalizeTargetId_idempotent|split].
  - revert x fs.
    induction c as [c IH] using nested_commands_ind.
    assert (Hone : forall y v, occursIn y [v] ->
              y = v \/
              exists gs inner, v = JObj gs /\
                            isStr (get "type" gs) "batch" = true /\
                            get "commands" gs = Some (JArr inner) /\
                            occursIn y inner).
    { intros y v Hy. inversion Hy as [? Hin|? gs' inner Hin Hb Hc Hocc]; subst.
      - destruct Hin as [<-|[]]. by left.
      - destruct Hin as [->|[]]. right. eauto 6. }
    assert (Hflat : forall y gs, occursIn y [JObj gs] ->
              y = JObj gs \/
              exists inner, isStr (get "type" gs) "batch" = true /\
                            get "commands" gs = Some (JArr inner) /\
                            occursIn y inner).
    { intros y gs Hy.
      destruct (Hone _ _ Hy) as [->|(gs' & inner & [= <-] & ?)]; eauto. }
    assert (Hlist : forall inner y,
              Forall (fun c0 => forall x fs, occursIn x [normalizeTargetId c0] ->
                        x = JObj fs -> requiresTargetId fs = true ->
                        hasKey "objectId" fs = false /\
                        hasKey "object_id" fs = false) inner ->
              occursIn y (map normalizeTargetId inner) ->
              exists c0, In c0 inner /\ occursIn y [normalizeTargetId c0]).
    { intros inner y _ Hy.
      inversion Hy as [? Hin|? gs' inner' Hin Hb Hc Hocc]; subst.
      - apply in_map_iff in Hin as (c0 & <- & Hin).
        exists c0. split; [done|]. apply occurs_here. by left.
      - apply in_map_iff in Hin as (c0 & Heq & Hin).
        exists c0. split; [done|].
        eapply occurs_in_batch; [left; exact Heq|exact Hb|exact Hc|done]. }
    intros x fs Hocc -> Hreq.
    destruct c as [| | | | |gs];
      try (by destruct (Hone _ _ Hocc) as [?|(? & ? & ? & _)]).
    rewrite normalizeTargetId_eq in Hocc.
    destruct (requiresTargetId gs) eqn:Hrg.
    + apply Hflat in Hocc as [[= ->]|(inner & Hb & _)].
      * unfold hasKey. by destruct (retarget_no_aliases gs) as [-> ->].
      * apply requiresTargetId_not_batch in Hb.
        rewrite requiresTargetId_retarget in Hb. congruence.
    + assert (Hplain : occursIn (JObj fs) [JObj gs] ->
                (forall inner, get "commands" gs = Some (JArr inner) -> False) ->
                hasKey "objectId" fs = false /\ hasKey "object_id" fs = false).
      { intros H Hno. apply Hflat in H as [[= ->]|(inner & _ & Hc & _)];
          [congruence|by destruct (Hno inner)]. }
      destruct (isStr (get "type" gs) "batch") eqn:Hb.
      * destruct (get "commands" gs) as [[| | | |inner|]|] eqn:Hc;
          try (apply Hplain; [exact Hocc|discriminate]).
        apply Hflat in Hocc as [[= ->]|(inner' & _ & Hc' & Hin)].
        { unfold requiresTargetId in Hreq, Hrg.
          rewrite get_set_ne in Hreq by done. congruence. }
        rewrite get_set_eq in Hc'. injection Hc' as <-.
        pose proof (IH gs inner eq_refl Hc) as IHl.
        destruct (Hlist inner _ IHl Hin) as (c0 & Hc0 & Hocc0).
        rewrite Forall_forall in IHl.
        apply list_elem_of_In in Hc0.
        exact (IHl c0 Hc0 _ fs Hocc0 eq_refl Hreq).
      * apply Hflat in Hocc as [[= ->]|(inner & Hb' & _)]; congruence.
  - intros -> Hreq Ht. rewrite normalizeTargetId_eq, Hreq. cbn [prop].
    by rewrite get_id_retarget, Ht.
Qed.

Lemma normalizeTargetId_settles_the_target_witness :
  (hasKey "objectId" [("type", JStr "delete_object"); ("id", JStr "b")] = false /\
   hasKey "object_id" [("type", JStr "delete_object"); ("id", JStr "b")] = false) /\
  prop (normalizeTargetId
          (JObj [("type", JStr "delete_object"); ("objectId", JStr "b")])) "id"
    = Some (JStr "b").
Proof.
  split.
  - apply (proj1 (proj2 (normalizeTargetId_settles_the_target
             (JObj [("type", JStr "delete_object"); ("objectId", JStr "b")])
             (JObj [("type", JStr "delete_object"); ("id", JStr "b")])
             [("type", JStr "delete_object"); ("id", JStr "b")] "b")));
      [apply occurs_here; left; reflexivity|reflexivity|reflexivity].
  - apply (proj2 (proj2 (normalizeTargetId_settles_the_target
             (JObj [("type", JStr "delete_object"); ("objectId", JStr "b")]) JNull
             [("type", JStr "delete_object"); ("objectId", JStr "b")] "b")));
      reflexivity.
Defined.

End RepairFacts.

(** * Missing patches *)

Module PatchFacts.
Import Js Schema Director DirectorSpec PipelineExamples Induction JsFacts
  SchemaProofs NormalizerProofs DirectorMore MoreSpec NormalizerMore RepairFacts.

Lemma foldInto_keeps k v k' a ok patch :
  get k patch = Some v -> truthy (Some v) = true ->
  get k (foldInto k' a ok patch) = Some v.
Proof.
  intros Hk Hv. unfold foldInto. destruct a as [w|]; [|done].
  destruct (ok && negb (truthy (get k' patch))) eqn:E; [|done].
  destruct (String.eqb_spec k k') as [<-|Hne].
  - rewrite Hk, Hv, andb_false_r in E. discriminate.
  - by rewrite get_set_ne.
Qed.

Lemma foldFromObject_keeps k v o patch :
  get k patch = Some v -> truthy (Some v) = true ->
  get k (foldFromObject o patch) = Some v.
Proof. intros Hk Hv. unfold foldFromObject. by repeat apply foldInto_keeps. Qed.

Lemma foldInto_moves k v patch :
  truthy (Some v) = true -> truthy (get k patch) = false ->
  get k (foldInto k (Some v) (truthy (Some v)) patch) = Some v.
Proof. intros Hv Hp. unfold foldInto. rewrite Hv, Hp. apply get_set_eq. Qed.

Lemma normalizeMissingPatch_eq fs :
  normalizeMissingPatch (JObj fs) =
  if isStr (get "type" fs) "batch" && isArray (get "commands" fs) then
    match get "commands" fs with
    | Some (JArr inner) =>
        JObj (set "commands" (JArr (map normalizeMissingPatch inner)) fs)
    | _ => JObj fs
    end
  else if isUpdateCommand fs then
    let patch := startingPatch fs in
    let patch := foldInto "transform" (get "transform" fs)
                   (truthy (get "transform" fs)) patch in
    let patch := foldInto "shapes" (get "shapes" fs)
                   (truthy (get "shapes" fs)) patch in
    let patch :=
      match get "object" fs with
      | Some (JObj o) => foldFromObject (JObj o) patch
      | Some (JArr o) => foldFromObject (JArr o) patch
      | _ => patch
      end in
    match patch with
    | [] => JObj fs
    | _ =>
        JObj (set "patch" (JObj patch)
                (remove "object" (remove "shapes" (remove "transform" fs))))
    end
  else JObj fs.
Proof.
  cbn [normalizeMissingPatch]. rewrite getWith_get.
  unfold isUpdateCommand, startingPatch.
  destruct (isStr (get "type" fs) "batch" && isArray (get "commands" fs)); [|done].
  by destruct (get "commands" fs) as [[| | | | |]|].
Qed.

Lemma update_is_not_batch fs :
  isUpdateCommand fs = true -> isStr (get "type" fs) "batch" = false.
Proof.
  unfold isUpdateCommand. destruct (get "type" fs) as [[| | |ty| |]|]; try done.
  simpl. intros [->%String.eqb_eq| ->%String.eqb_eq]%orb_true_iff; reflexivity.
Qed.

Lemma normalizeMissingPatch_idempotent c :
  normalizeMissingPatch (normalizeMissingPatch c) = normalizeMissingPatch c.
Proof.
  induction c as [c IH] using nested_commands_ind.
  destruct c as [| | | | |fs]; try done.
  rewrite (normalizeMissingPatch_eq fs).
  destruct (isStr (get "type" fs) "batch" && isArray (get "commands" fs)) eqn:Hb.
  - destruct (get "commands" fs) as [[| | | |inner|]|] eqn:Hc;
      try (by rewrite andb_false_r in Hb).
    simpl in Hb. rewrite andb_true_r in Hb.
    rewrite normalizeMissingPatch_eq, get_set_ne, get_set_eq by done.
    rewrite Hb, set_set. simpl. do 3 f_equal. rewrite map_map. apply map_ext_Forall.
    exact (IH fs inner eq_refl Hc).
  - destruct (isUpdateCommand fs) eqn:Hu;
      [|by rewrite normalizeMissingPatch_eq, Hb, Hu].
    cbv zeta.
    set (patch := match get "object" fs with
                  | Some (JObj o) => _
                  | Some (JArr o) => _
                  | _ => _
                  end).
    destruct patch as [|kv patch'] eqn:Hp;
      [by rewrite normalizeMissingPatch_eq, Hb, Hu; cbv zeta; fold patch; rewrite Hp|].
    set (fs' := set "patch" _ _).
    assert (Hty : get "type" fs' = get "type" fs).
    { unfold fs'. rewrite get_set_ne by done. by rewrite !get_remove_ne. }
    assert (Ht : get "transform" fs' = None).
    { unfold fs'. rewrite get_set_ne by done.
      rewrite !(get_remove_ne "transform") by done. apply get_remove_eq. }
    assert (Hs : get "shapes" fs' = None).
    { unfold fs'. rewrite get_set_ne by done.
      rewrite (get_remove_ne "shapes" "object") by done. apply get_remove_eq. }
    assert (Ho : get "object" fs' = None).
    { unfold fs'. rewrite get_set_ne by done. apply get_remove_eq. }
    assert (Hpatch : get "patch" fs' = Some (JObj (kv :: patch'))).
    { unfold fs'. apply get_set_eq. }
    rewrite normalizeMissingPatch_eq.
    unfold isUpdateCommand, startingPatch.
    rewrite Hty. fold (isUpdateCommand fs).
    rewrite (update_is_not_batch _ Hu), Hu, Ht, Hs, Ho, Hpatch. simpl.
    f_equal.
    rewrite (remove_absent "transform") by exact Ht.
    rewrite (remove_absent "shapes") by exact Hs.
    rewrite (remove_absent "object") by exact Ho.
    by apply set_same.
Qed.

(** X15. [normalizeMissingPatch] is idempotent. An update command either comes
    back as it was, or comes back with an object under [patch] and without the
    top-level [transform], [shapes] and [object] keys; in that patch every
    truthy entry of the patch it came with is kept, and a truthy top-level
    [transform] or [shapes] stands where the patch had none. *)
Theorem normalizeMissingPatch_folds_into_patch (c : json) (fs : fields)
    (k : string) (v : json) :
  normalizeMissingPatch (normalizeMissingPatch c) = normalizeMissingPatch c /\
  (c = JObj fs -> isUpdateCommand fs = true ->
   normalizeMissingPatch c = c \/
   exists patch,
     prop (normalizeMissingPatch c) "patch" = Some (JObj patch) /\
     prop (normalizeMissingPatch c) "transform" = None /\
     prop (normalizeMissingPatch c) "shapes" = None /\
     prop (normalizeMissingPatch c) "object" = None /\
     (get k (startingPatch fs) = Some v -> truthy (Some v) = true ->
      get k patch = Some v) /\
     (k = "transform" \/ k = "shapes" ->
      get k fs = Some v -> truthy (Some v) = true ->
      truthy (get k (startingPatch fs)) = false ->
      get k patch = Some v)).
Proof.
  split; [apply normalizeMissingPatch_idempotent|].
  intros -> Hu. rewrite normalizeMissingPatch_eq.
  rewrite (update_is_not_batch _ Hu), Hu. cbv zeta. simpl andb. cbv iota.
  set (patch := match get "object" fs with
                | Some (JObj o) => _
                | Some (JArr o) => _
                | _ => _
                end).
  assert (Hkeep : forall q, get k q = Some v -> truthy (Some v) = true ->
            get k (match get "object" fs with
                   | Some (JObj o) => foldFromObject (JObj o) q
                   | Some (JArr o) => foldFromObject (JArr o) q
                   | _ => q
                   end) = Some v).
  { intros q Hq Hv.
    destruct (get "object" fs) as [[| | | | |]|]; try done;
      by apply foldFromObject_keeps. }
  destruct patch as [|kv patch'] eqn:Hp; [by left|right].
  exists (kv :: patch'). cbn [prop].
  split; [apply get_set_eq|].
  split; [rewrite get_set_ne by done;
          rewrite !(get_remove_ne "transform") by done; apply get_remove_eq|].
  split; [rewrite get_set_ne by done;
          rewrite (get_remove_ne "shapes" "object") by done; apply get_remove_eq|].
  split; [rewrite get_set_ne by done; apply get_remove_eq|].
  rewrite <- Hp. unfold patch. split.
  - intros Hk Hv. apply Hkeep; [|done]. by repeat apply foldInto_keeps.
  - intros [->| ->] Hk Hv Hnone; (apply Hkeep; [|done]).
    + apply foldInto_keeps; [|done]. rewrite Hk. by apply foldInto_moves.
    + rewrite Hk. apply foldInto_moves; [done|].
      unfold foldInto. destruct (get "transform" fs) as [w|]; [|done].
      destruct (truthy (Some w) && negb (truthy (get "transform" (startingPatch fs))));
        [|done].
      by rewrite get_set_ne.
Qed.

Lemma normalizeMissingPatch_folds_into_patch_witness :
  normalizeMissingPatch
    (JObj [("type", JStr "update_object"); ("id", JStr "a");
           ("transform", JObj [("x", JNum 10)])])
  = JObj [("type", JStr "update_object"); ("id", JStr "a");
          ("patch", JObj [("transform", JObj [("x", JNum 10)])])].
Proof.
  destruct (proj2 (normalizeMissingPatch_folds_into_patch
              (JObj [("type", JStr "update_object"); ("id", JStr "a");
                     ("transform", JObj [("x", JNum 10)])])
              [("type", JStr "update_object"); ("id", JStr "a");
               ("transform", JObj [("x", JNum 10)])]
              "transform" (JObj [("x", JNum 10)])) eq_refl eq_refl)
    as [H|(patch & Hpatch & _ & _ & _ & _ & Hmove)].
  - discriminate H.
  - reflexivity.
Defined.

End PatchFacts.

(** * The safety guard at every depth *)

Module GuardMore.
Import Js Schema Director DirectorSpec PipelineExamples Induction JsFacts
  SchemaProofs GuardProofs DirectorMore MoreSpec NormalizerMore RepairFacts
  PatchFacts.

(** The four ways out of the [flatMap] callback. *)
Lemma stripCommand_cases utterance c :
  (exists fs inner,
     c = JObj fs /\ isStr (get "type" fs) "batch" = true /\
     get "commands" fs = Some (JArr inner) /\
     stripCommand utterance c =
       {| cmds := [JObj (set "commands"
                           (JArr (cmds (stripDestructiveCommands inner utterance)))
                           fs)];
          removed := removed (stripDestructiveCommands inner utterance);
          strippedSemantic :=
            strippedSemantic (stripDestructiveCommands inner utterance) |}) \/
  ((typeIs c "delete_object" /\ userExplicitlyWantsDelete utterance = false \/
    typeIs c "cancel_preview_object" /\ userExplicitlyWantsCancel utterance = false) /\
   stripCommand utterance c = {| cmds := []; removed := 1; strippedSemantic := 0 |}) \/
  (exists fs patch,
     c = JObj fs /\ isUpdateCommand fs = true /\
     get "patch" fs = Some (JObj patch) /\ hasKey "semanticTag" patch = true /\
     userExplicitlyWantsConvert utterance = false /\
     stripCommand utterance c =
       {| cmds := [JObj (set "patch" (JObj (remove "semanticTag" patch)) fs)];
          removed := 0; strippedSemantic := 1 |}) \/
  (stripCommand utterance c = keepCommand c /\
   (forall fs inner, c = JObj fs -> isStr (get "type" fs) "batch" = true ->
                     get "commands" fs = Some (JArr inner) -> False) /\
   (typeIs c "delete_object" -> userExplicitlyWantsDelete utterance = true) /\
   (typeIs c "cancel_preview_object" -> userExplicitlyWantsCancel utterance = true) /\
   (retagsObject c -> userExplicitlyWantsConvert utterance = true)).
Proof.
  destruct c as [| | | | |fs];
    try (right; right; right; split; [reflexivity|];
         split; [discriminate|]; split; [discriminate|]; split; [discriminate|];
         intros [[?|?] _]; discriminate).
  destruct (isStr (get "type" fs) "batch") eqn:Hb.
  { destruct (get "commands" fs) as [[| | | |inner|]|] eqn:Hc.
    5: { left. exists fs, inner. repeat split; try done.
         by apply stripCommand_batch. }
    all: right; right; right.
    all: apply isStr_eq in Hb.
    all: split; [simpl; rewrite Hb, getWith_get, Hc; simpl;
                 by destruct (get "patch" fs) as [[]|]|].
    all: split; [intros ? ? [= <-] _ Hc'; congruence|].
    all: unfold retagsObject, typeIs; cbn [prop]; rewrite Hb.
    all: split; [discriminate|]; split; [discriminate|].
    all: intros [[?|?] _]; discriminate. }
  assert (Hstep : stripCommand utterance (JObj fs) =
            if isStr (get "type" fs) "delete_object"
               && negb (userExplicitlyWantsDelete utterance)
            then {| cmds := []; removed := 1; strippedSemantic := 0 |}
            else if isStr (get "type" fs) "cancel_preview_object"
                    && negb (userExplicitlyWantsCancel utterance)
            then {| cmds := []; removed := 1; strippedSemantic := 0 |}
            else
              match get "patch" fs with
              | Some (JObj patch) =>
                  if isUpdateCommand fs && hasKey "semanticTag" patch
                     && negb (userExplicitlyWantsConvert utterance)
                  then {| cmds := [JObj (set "patch"
                                           (JObj (remove "semanticTag" patch)) fs)];
                          removed := 0; strippedSemantic := 1 |}
                  else keepCommand (JObj fs)
              | _ => keepCommand (JObj fs)
              end).
  { cbn [stripCommand]. by rewrite Hb. }
  rewrite Hstep. clear Hstep.
  unfold retagsObject, typeIs. cbn [prop].
  destruct (isStr (get "type" fs) "delete_object") eqn:Hd.
  { apply isStr_eq in Hd.
    destruct (userExplicitlyWantsDelete utterance) eqn:Hw; simpl.
    - right; right; right.
      assert (Hnu : isUpdateCommand fs = false)
        by (unfold isUpdateCommand; rewrite Hd; reflexivity).
      rewrite Hd. simpl.
      split; [by destruct (get "patch" fs) as [[]|]; rewrite ?Hnu|].
      split; [intros ? ? [= <-]; congruence|].
      split; [done|]. split; [discriminate|].
      intros [[?|?] _]; discriminate.
    - right; left. split; [|done]. by left. }
  destruct (isStr (get "type" fs) "cancel_preview_object") eqn:Hc.
  { apply isStr_eq in Hc.
    destruct (userExplicitlyWantsCancel utterance) eqn:Hw; simpl.
    - right; right; right.
      assert (Hnu : isUpdateCommand fs = false)
        by (unfold isUpdateCommand; rewrite Hc; reflexivity).
      rewrite Hc. simpl.
      split; [by destruct (get "patch" fs) as [[]|]; rewrite ?Hnu|].
      split; [intros ? ? [= <-]; congruence|].
      split; [discriminate|]. split; [done|].
      intros [[?|?] _]; discriminate.
    - right; left. split; [|done]. by right. }
  simpl.
  assert (Hnd : get "type" fs <> Some (JStr "delete_object")).
  { intros E. rewrite E in Hd. discriminate. }
  assert (Hnc : get "type" fs <> Some (JStr "cancel_preview_object")).
  { intros E. rewrite E in Hc. discriminate. }
  assert (Hup : get "type" fs = Some (JStr "update_object") \/
                get "type" fs = Some (JStr "update_preview_object") ->
                isUpdateCommand fs = true).
  { unfold isUpdateCommand. intros [-> | ->]; reflexivity. }
  destruct (get "patch" fs) as [[| | | | |patch]|] eqn:Hp;
    try (right; right; right; split; [reflexivity|];
         split; [intros ? ? [= <-]; congruence|];
         split; [done|]; split; [done|];
         intros [_ (patch' & Hp' & _)]; discriminate).
  destruct (isUpdateCommand fs && hasKey "semanticTag" patch
            && negb (userExplicitlyWantsConvert utterance)) eqn:Hcond.
  - apply andb_true_iff in Hcond as [[Hu Hk]%andb_true_iff Hw].
    apply negb_true_iff in Hw.
    right; right; left. exists fs, patch. done.
  - right; right; right. split; [reflexivity|].
    split; [intros ? ? [= <-]; congruence|].
    split; [done|]. split; [done|].
    intros [Hty (patch' & [= <-] & Hk)].
    rewrite (Hup Hty), Hk in Hcond. simpl in Hcond.
    by apply negb_false_iff in Hcond.
Qed.

Lemma occursIn_app c l1 l2 :
  occursIn c (l1 ++ l2) <-> occursIn c l1 \/ occursIn c l2.
Proof.
  split.
  - intros H. remember (l1 ++ l2) as l eqn:E.
    destruct H as [l Hin|l fs inner Hin Hb Hc Hocc]; subst l.
    + apply in_app_or in Hin as [?|?]; [left|right]; by apply occurs_here.
    + apply in_app_or in Hin as [?|?]; [left|right];
        by eapply occurs_in_batch.
  - intros [H|H]; destruct H as [l Hin|l fs inner Hin Hb Hc Hocc].
    + apply occurs_here, in_or_app. by left.
    + eapply occurs_in_batch; [apply in_or_app; left|..]; done.
    + apply occurs_here, in_or_app. by right.
    + eapply occurs_in_batch; [apply in_or_app; right|..]; done.
Qed.

Lemma occursIn_one c v :
  occursIn c [v] ->
  c = v \/
  exists fs inner, v = JObj fs /\ isStr (get "type" fs) "batch" = true /\
                   get "commands" fs = Some (JArr inner) /\ occursIn c inner.
Proof.
  intros H. inversion H as [? Hin|? fs inner Hin Hb Hc Hocc]; subst.
  - destruct Hin as [<-|[]]. by left.
  - destruct Hin as [->|[]]. right. eauto 6.
Qed.

Lemma occursIn_strip utterance c l :
  occursIn c (cmds (stripDestructiveCommands l utterance)) ->
  exists x, In x l /\ occursIn c (cmds (stripCommand utterance x)).
Proof.
  unfold stripDestructiveCommands.
  induction l as [|x rest IH]; simpl.
  - intros H. inversion H as [? Hin|? ? ? Hin]; inversion Hin.
  - intros [H|H]%occursIn_app; [eauto|].
    destruct (IH H) as (y & Hy & Hocc). eauto.
Qed.

(** X16. What the guard lets through holds, at the top or inside nested batches,
    no [delete_object] command unless the utterance has a delete word, no
    [cancel_preview_object] command unless it has a cancel word, and no update
    command whose patch has a [semanticTag] key unless it has a convert
    word. *)
Theorem guard_output_has_no_unauthorized_command
    (commands : list json) (utterance : string) (c : json) :
  occursIn c (cmds (stripDestructiveCommands commands utterance)) ->
  (typeIs c "delete_object" -> userExplicitlyWantsDelete utterance = true) /\
  (typeIs c "cancel_preview_object" -> userExplicitlyWantsCancel utterance = true) /\
  (retagsObject c -> userExplicitlyWantsConvert utterance = true).
Proof.
  intros Hocc. apply occursIn_strip in Hocc as (x & _ & Hocc).
  revert c Hocc.
  induction x as [x IH] using nested_commands_ind. intros c Hocc.
  destruct (stripCommand_cases utterance x)
    as [(fs & inner & -> & Hb & Hc & Hs)
       |[[_ Hs]
        |[(fs & patch & -> & Hu & Hp & Hk & Hw & Hs)
         |(Hs & Hnb & Hd & Hcc & Hr)]]];
    rewrite Hs in Hocc; simpl in Hocc.
  - apply occursIn_one in Hocc as [->|(gs & inner' & [= <-] & _ & Hc' & Hin)].
    + apply isStr_eq in Hb. unfold retagsObject, typeIs. cbn [prop].
      rewrite get_set_ne by done. rewrite Hb.
      split; [discriminate|]. split; [discriminate|].
      intros [[?|?] _]; discriminate.
    + rewrite get_set_eq in Hc'. injection Hc' as <-.
      apply occursIn_strip in Hin as (y & Hy & Hocc).
      pose proof (IH fs inner eq_refl Hc) as IHl.
      rewrite Forall_forall in IHl. apply list_elem_of_In in Hy.
      exact (IHl y Hy c Hocc).
  - inversion Hocc as [? Hin|? ? ? Hin]; inversion Hin.
  - apply occursIn_one in Hocc as [->|(gs & inner' & [= <-] & Hb & _)].
    + unfold retagsObject, typeIs. cbn [prop]. rewrite !get_set_ne by done.
      unfold isUpdateCommand in Hu.
      split; [intros E; rewrite E in Hu; discriminate|].
      split; [intros E; rewrite E in Hu; discriminate|].
      intros [_ (patch' & Hp' & Hk')]. rewrite get_set_eq in Hp'.
      injection Hp' as <-. unfold hasKey in Hk'. by rewrite get_remove_eq in Hk'.
    + rewrite get_set_ne in Hb by done.
      apply update_is_not_batch in Hu. congruence.
  - apply occursIn_one in Hocc as [->|(gs & inner' & -> & Hb & Hc' & _)]; [done|].
    by destruct (Hnb gs inner' eq_refl Hb Hc').
Qed.

Lemma guard_output_has_no_unauthorized_command_witness :
  cmds (stripDestructiveCommands
          [JObj [("type", JStr "batch");
                 ("commands",
                  JArr [commandOfType "delete_object" "tree-1";
                        commandOfType "cancel_preview_object" "p1"])]]
          "remove the old tree")
  = [JObj [("type", JStr "batch");
           ("commands", JArr [commandOfType "delete_object" "tree-1"])]] /\
  userExplicitlyWantsDelete "remove the old tree" = true.
Proof.
  split; [reflexivity|].
  refine (proj1 (guard_output_has_no_unauthorized_command
                  [JObj [("type", JStr "batch");
                         ("commands",
                          JArr [commandOfType "delete_object" "tree-1";
                                commandOfType "cancel_preview_object" "p1"])]]
                  "remove the old tree"
                  (commandOfType "delete_object" "tree-1") _) _).
  - vm_compute.
    eapply occurs_in_batch; [left; reflexivity|reflexivity|reflexivity|].
    apply occurs_here. left. reflexivity.
  - reflexivity.
Defined.

Lemma removed_gather parts :
  removed (gather parts) = 0%nat <-> Forall (fun p => removed p = 0%nat) parts.
Proof.
  induction parts as [|p r IH]; simpl.
  - split; [constructor|done].
  - rewrite Forall_cons_iff, <- IH. lia.
Qed.

Lemma strippedSemantic_gather parts :
  strippedSemantic (gather parts) = 0%nat
  <-> Forall (fun p => strippedSemantic p = 0%nat) parts.
Proof.
  induction parts as [|p r IH]; simpl.
  - split; [constructor|done].
  - rewrite Forall_cons_iff, <- IH. lia.
Qed.

Lemma stripCommand_at_most_one utterance c :
  (length (cmds (stripCommand utterance c)) <= 1)%nat.
Proof.
  destruct (stripCommand_cases utterance c)
    as [(fs & inner & -> & _ & _ & ->)
       |[[_ ->]
        |[(fs & patch & -> & _ & _ & _ & _ & ->)
         |(-> & _)]]]; simpl; lia.
Qed.

Lemma strip_length utterance l :
  (length (cmds (stripDestructiveCommands l utterance)) <= length l)%nat.
Proof.
  unfold stripDestructiveCommands. induction l as [|x rest IH]; simpl; [lia|].
  rewrite length_app. pose proof (stripCommand_at_most_one utterance x). lia.
Qed.

(** From commands to lists: if the counters of each command are zero exactly
    when the command comes back alone and unchanged, the same holds of the
    list. *)
Lemma untouched_list utterance l :
  Forall (fun c => untouched (stripCommand utterance c)
                   <-> cmds (stripCommand utterance c) = [c]) l ->
  untouched (stripDestructiveCommands l utterance)
  <-> cmds (stripDestructiveCommands l utterance) = l.
Proof.
  induction 1 as [|x rest Hx Hrest IH].
  - by split.
  - pose proof (strip_length utterance rest) as Hlen.
    pose proof (stripCommand_at_most_one utterance x) as Hone.
    unfold untouched, stripDestructiveCommands in *. simpl.
    fold (stripDestructiveCommands rest utterance) in *.
    split.
    + intros [Hr Hs].
      assert (Hx' : cmds (stripCommand utterance x) = [x]) by (apply Hx; lia).
      assert (Hrest' : cmds (stripDestructiveCommands rest utterance) = rest)
        by (apply IH; lia).
      by rewrite Hx', Hrest'.
    + intros Heq.
      destruct (cmds (stripCommand utterance x)) as [|y [|z more]] eqn:E;
        simpl in Hone; try lia.
      * simpl in Heq. rewrite Heq in Hlen. simpl in Hlen. lia.
      * simpl in Heq. injection Heq as -> Heq.
        destruct (proj2 Hx eq_refl) as [? ?].
        destruct (proj2 IH Heq) as [? ?]. lia.
Qed.

Lemma untouched_command utterance c :
  untouched (stripCommand utterance c) <-> cmds (stripCommand utterance c) = [c].
Proof.
  induction c as [c IH] using nested_commands_ind.
  destruct (stripCommand_cases utterance c)
    as [(fs & inner & -> & Hb & Hc & Hs)
       |[[_ Hs]
        |[(fs & patch & -> & Hu & Hp & Hk & Hw & Hs)
         |(Hs & _)]]];
    rewrite Hs; unfold untouched; simpl.
  - pose proof (untouched_list utterance inner (IH fs inner eq_refl Hc)) as Hl.
    unfold untouched in Hl. rewrite Hl. split.
    + intros ->. by rewrite (set_same _ _ _ Hc).
    + intros [= Heq]. apply set_fixed_get in Heq. congruence.
  - split; [lia|discriminate].
  - split; [lia|]. intros [= Heq]. apply set_fixed_get in Heq.
    rewrite Hp in Heq. injection Heq as Heq.
    unfold hasKey in Hk. rewrite Heq, get_remove_eq in Hk. discriminate.
  - done.
Qed.

(** X17. The two counters of the guard are both zero exactly when it hands the
    command list back unchanged, nested batches included. *)
Theorem guard_counters_are_zero_iff_unchanged
    (commands : list json) (utterance : string) :
  untouched (stripDestructiveCommands commands utterance)
  <-> cmds (stripDestructiveCommands commands utterance) = commands.
Proof.
  apply untouched_list, Forall_forall. intros c _. apply untouched_command.
Qed.

Lemma guard_counters_are_zero_iff_unchanged_witness :
  untouched (stripDestructiveCommands
               [commandOfType "commit_preview_object" "p1"] "make it green").
Proof.
  apply (proj2 (guard_counters_are_zero_iff_unchanged
                  [commandOfType "commit_preview_object" "p1"] "make it green")).
  reflexivity.
Defined.

(** X18. An utterance with a delete word, a cancel word and a convert word passes
    every command list through the guard unchanged. *)
Theorem guard_passes_everything_when_authorized
    (commands : list json) (utterance : string) :
  userExplicitlyWantsDelete utterance = true ->
  userExplicitlyWantsCancel utterance = true ->
  userExplicitlyWantsConvert utterance = true ->
  stripDestructiveCommands commands utterance
  = {| cmds := commands; removed := 0; strippedSemantic := 0 |}.
Proof.
  intros Hd Hc Hv.
  assert (Hall : forall l,
            Forall (fun c => stripCommand utterance c = keepCommand c) l ->
            stripDestructiveCommands l utterance
            = {| cmds := l; removed := 0; strippedSemantic := 0 |}).
  { unfold stripDestructiveCommands.
    induction 1 as [|x rest Hx _ IH]; simpl; [done|]. by rewrite Hx, IH. }
  apply Hall, Forall_forall. intros c _.
  induction c as [c IH] using nested_commands_ind.
  destruct (stripCommand_cases utterance c)
    as [(fs & inner & -> & Hb & Hcs & Hs)
       |[[[[_ Hw]|[_ Hw]] _]
        |[(fs & patch & -> & _ & _ & _ & Hw & _)
         |(Hs & _)]]]; try congruence.
  rewrite Hs, (Hall inner (IH fs inner eq_refl Hcs)). simpl.
  by rewrite (set_same _ _ _ Hcs).
Qed.

Lemma guard_passes_everything_when_authorized_witness :
  stripDestructiveCommands
    [commandOfType "delete_object" "tree-1";
     commandOfType "cancel_preview_object" "p1"]
    "undo that, remove the tree and convert the rest"
  = {| cmds := [commandOfType "delete_object" "tree-1";
                commandOfType "cancel_preview_object" "p1"];
       removed := 0; strippedSemantic := 0 |}.
Proof.
  apply guard_passes_everything_when_authorized; reflexivity.
Defined.

End GuardMore.

(** * Band stacks: what re-tiling keeps *)

Module BandMore.
Import Js Schema Director DirectorSpec PipelineExamples Induction JsFacts
  BandProofs DirectorMore MoreSpec NormalizerMore.











End BandMore.

(** * Validated objects and the visibility boost *)

Module ObjectFacts.
Import Js Schema Director DirectorSpec PipelineExamples Induction JsFacts
  SchemaProofs ClampProofs DirectorMore MoreSpec NormalizerMore.

(** A required key of a [z.object] that validates is present and passes its
    own schema. *)
Lemma zObject_required strict spec v k c :
  zObject strict spec v = true -> In (req k c) spec ->
  exists fs w, v = JObj fs /\ get k fs = Some w /\ c w = true.
Proof.
  intros Hv Hin. destruct v as [| | | | |fs]; try discriminate.
  unfold zObject in Hv. apply andb_true_iff in Hv as [Hv _].
  rewrite forallb_forall in Hv. specialize (Hv _ Hin).
  unfold fieldOk, req in Hv. simpl in Hv.
  destruct (get k fs) as [w|] eqn:E; [|discriminate]. exists fs, w. done.
Qed.

Lemma zNumberRange_spec lo hi v :
  zNumberRange lo hi v = true -> exists q, v = JNum q /\ (lo <= q)%Q /\ (q <= hi)%Q.
Proof.
  destruct v as [| |q| | |]; try discriminate. simpl.
  intros [H1 H2]%andb_true_iff. apply Qle_bool_iff in H1, H2. eauto.
Qed.

Lemma valid_transform exact t :
  TransformSchema exact t = true ->
  exists tfs x y s r,
    t = JObj tfs /\
    get "x" tfs = Some (JNum x) /\ get "y" tfs = Some (JNum y) /\
    get "scale" tfs = Some (JNum s) /\ get "rotation" tfs = Some (JNum r) /\
    (0 <= x /\ x <= 100)%Q /\ (0 <= y /\ y <= 100)%Q /\
    ((1 # 10) <= s /\ s <= 3)%Q /\ (-180 <= r /\ r <= 180)%Q.
Proof.
  intros Hv. unfold TransformSchema in Hv.
  destruct (zObject_required _ _ _ "x" _ Hv ltac:(left; reflexivity))
    as (tfs & wx & -> & Hx & (x & -> & Bx)%zNumberRange_spec).
  destruct (zObject_required _ _ _ "y" _ Hv ltac:(right; left; reflexivity))
    as (? & wy & [= <-] & Hy & (y & -> & By)%zNumberRange_spec).
  destruct (zObject_required _ _ _ "scale" _ Hv
              ltac:(do 2 right; left; reflexivity))
    as (? & ws & [= <-] & Hs & (s & -> & Bs)%zNumberRange_spec).
  destruct (zObject_required _ _ _ "rotation" _ Hv
              ltac:(do 3 right; left; reflexivity))
    as (? & wr & [= <-] & Hr & (r & -> & Br)%zNumberRange_spec).
  exists tfs, x, y, s, r. done.
Qed.

Lemma valid_object_clamp exact obj :
  SceneObjectSchema exact obj = true -> stabilizeNewObject_clamp obj = obj.
Proof.
  intros Hv. unfold SceneObjectSchema in Hv.
  destruct (zObject_required _ _ _ "transform" _ Hv
              ltac:(do 3 right; left; reflexivity))
    as (fs & t & -> & Ht & Hvt).
  destruct (valid_transform _ _ Hvt)
    as (tfs & x & y & s & r & -> & Hx & Hy & Hs & Hr & Bx & By & Bs & Br).
  unfold stabilizeNewObject_clamp. f_equal. apply set_same. rewrite Ht. f_equal.
  unfold clampedTransform, transformNumber, Director.clamp. cbn [prop].
  rewrite Ht. cbn [prop nullish spread]. rewrite Hx, Hy, Hs, Hr.
  rewrite !clamp_inside by tauto.
  rewrite (set_same "x") by done. rewrite (set_same "y") by done.
  rewrite (set_same "scale") by done. by rewrite (set_same "rotation").
Qed.

Lemma valid_add exact fs ty st :
  DrawingCommandSchema exact (JObj fs) = true ->
  get "type" fs = Some (JStr ty) ->
  ty = "add_preview_object" /\ st = "preview" \/
  ty = "add_object" /\ st = "committed" ->
  exists obj, get "object" fs = Some obj /\
              SceneObjectSchema exact obj = true /\
              prop obj "status" = Some (JStr st).
Proof.
  intros Hv Ht Hcase. cbn [DrawingCommandSchema] in Hv. rewrite Ht in Hv.
  destruct Hcase as [[-> ->]|[-> ->]];
    cbv [String.eqb Ascii.eqb Bool.eqb] in Hv;
    match type of Hv with
    | zObject _ ?spec _ = true =>
        destruct (zObject_required _ spec _ "object" _ Hv
                    ltac:(right; left; reflexivity))
          as (? & obj & [= <-] & Ho & Hobj)
    end;
    unfold objectWithStatus in Hobj;
    apply andb_true_iff in Hobj as [Hs Hst]; apply isStr_eq in Hst; eauto.
Qed.

(** X21. In an envelope that validates, every [add_preview_object] command, at
    the top or inside nested batches, carries an object with status
    [preview], and every [add_object] command one with status [committed];
    the transform of that object is inside the declared bounds, so the opening
    clamp of [stabilizeNewObject] leaves the object as it is. *)
Theorem validated_add_commands_are_settled
    (envelope : fields) (commands : list json) (c : json) (ty st : string) :
  validates (JObj envelope) = true ->
  get "commands" envelope = Some (JArr commands) ->
  occursIn c commands ->
  typeIs c ty ->
  ty = "add_preview_object" /\ st = "preview" \/
  ty = "add_object" /\ st = "committed" ->
  exists obj, prop c "object" = Some obj /\
              prop obj "status" = Some (JStr st) /\
              stabilizeNewObject_clamp obj = obj.
Proof.
  intros Hv Hc Hocc Hty Hcase.
  destruct (valid_envelope_commands _ _ Hv) as (commands' & Hc' & Hall).
  rewrite Hc in Hc'. injection Hc' as <-.
  pose proof (valid_commands_occurs _ _ _ Hall Hocc) as Hvc.
  destruct c as [| | | | |fs]; try discriminate.
  destruct (valid_add _ _ _ _ Hvc Hty Hcase) as (obj & Ho & Hobj & Hst).
  exists obj. split; [exact Ho|]. split; [exact Hst|].
  by eapply valid_object_clamp.
Qed.

Lemma validated_add_commands_are_settled_witness :
  validates validEnvelope = true /\
  exists obj, prop (JObj [("type", JStr "add_object");
                          ("object", treeObjectJson)]) "object" = Some obj /\
              prop obj "status" = Some (JStr "committed") /\
              stabilizeNewObject_clamp obj = obj.
Proof.
  split; [reflexivity|].
  refine (validated_add_commands_are_settled
            [("commands",
              JArr [JObj [("type", JStr "add_object"); ("object", treeObjectJson)];
                    JObj [("type", JStr "batch");
                          ("commands",
                           JArr [commandOfType "commit_preview_object" "p1";
                                 JObj [("type", JStr "update_object");
                                       ("id", JStr "tree-1");
                                       ("patch", JObj [("layer", JStr "ground")])]])];
                    JObj [("type", JStr "set_ground_fill");
                          ("fill", JStr "#3db85a")]]);
             ("notes", JStr "ok")]
            _ _ "add_object" "committed" _ _ _ _ _).
  - reflexivity.
  - reflexivity.
  - apply occurs_here. left. reflexivity.
  - reflexivity.
  - right. split; reflexivity.
Defined.

End ObjectFacts.

(** * The visibility boost and the refusal envelope *)

Module BoostFacts.
Import Js Schema Director DirectorSpec PipelineExamples Induction JsFacts
  SchemaProofs DirectorMore MoreSpec NormalizerMore.

Lemma boostShape_not_thin s : thinPath (boostShape s) = false.
Proof.
  unfold boostShape. destruct (thinPath s) eqn:E; [|exact E].
  unfold thinPath in *. cbn [prop]. apply andb_true_iff in E as [Ht _].
  rewrite get_set_eq. simpl. apply andb_false_r.
Qed.

Lemma boostShape_fixed shapes :
  existsb thinPath shapes = false -> map boostShape shapes = shapes.
Proof.
  induction shapes as [|s rest IH]; simpl; [done|].
  intros [Hs Hrest]%orb_false_iff. unfold boostShape at 1. rewrite Hs.
  by rewrite IH.
Qed.

Lemma boosted_none_thin shapes : existsb thinPath (map boostShape shapes) = false.
Proof.
  induction shapes as [|s rest IH]; simpl; [done|].
  by rewrite boostShape_not_thin, IH.
Qed.

Lemma boostVisibility_shapes obj r shapes :
  boostVisibility obj = Some r ->
  prop obj "shapes" = Some (JArr shapes) ->
  prop r "shapes" = Some (JArr (map boostShape shapes)).
Proof.
  intros Hb Hs. destruct obj as [| | | | |fs]; try discriminate.
  unfold boostVisibility in Hb. rewrite Hs in Hb.
  destruct (existsb thinPath shapes) eqn:E; injection Hb as <-.
  - cbn [prop spread]. apply get_set_eq.
  - by rewrite boostShape_fixed.
Qed.

Lemma boostVisibility_array obj r shapes :
  boostVisibility obj = Some r ->
  prop r "shapes" = Some (JArr shapes) ->
  exists shapes0, prop obj "shapes" = Some (JArr shapes0) /\
                  shapes = map boostShape shapes0.
Proof.
  intros Hb Hs.
  destruct (prop obj "shapes") as [[| | | |shapes0|]|] eqn:E.
  5: { exists shapes0. split; [done|].
       rewrite (boostVisibility_shapes _ _ _ Hb E) in Hs. congruence. }
  all: destruct obj; try discriminate; unfold boostVisibility in Hb;
    rewrite ?E in Hb; injection Hb as <-; congruence.
Qed.

(** X22. [boostVisibility] keeps every property of the object other than
    [shapes], maps the shapes one to one, leaves no [path] shape with a
    missing, non-numeric or below-3 [strokeWidth], and changes nothing when
    run again. *)
Theorem boostVisibility_leaves_no_thin_path
    (obj r s : json) (shapes : list json) (k : string) :
  boostVisibility obj = Some r ->
  boostVisibility r = Some r /\
  (k <> "shapes" -> prop r k = prop obj k) /\
  (prop obj "shapes" = Some (JArr shapes) ->
   prop r "shapes" = Some (JArr (map boostShape shapes))) /\
  (prop r "shapes" = Some (JArr shapes) -> In s shapes ->
   isStr (prop s "type") "path" = true ->
   exists w, prop s "strokeWidth" = Some (JNum w) /\ (3 <= w)%Q).
Proof.
  intros Hb. split; [|split; [|split]].
  - destruct obj as [|b|q|str|l|fs]; try discriminate;
      try (injection Hb as <-; reflexivity).
    unfold boostVisibility in Hb. cbn [prop] in Hb.
    destruct (get "shapes" fs) as [[| | | |shapes0|]|] eqn:E;
      try (injection Hb as <-; unfold boostVisibility; cbn [prop]; by rewrite E).
    destruct (existsb thinPath shapes0) eqn:Hthin; injection Hb as <-.
    + unfold boostVisibility. cbn [prop spread].
      by rewrite get_set_eq, boosted_none_thin.
    + unfold boostVisibility. cbn [prop]. by rewrite E, Hthin.
  - intros Hk. destruct obj as [|b|q|str|l|fs]; try discriminate;
      try (injection Hb as <-; reflexivity).
    unfold boostVisibility in Hb. cbn [prop] in Hb.
    destruct (get "shapes" fs) as [[| | | |shapes0|]|];
      try (injection Hb as <-; reflexivity).
    destruct (existsb thinPath shapes0); injection Hb as <-; [|done].
    cbn [prop spread]. by rewrite get_set_ne.
  - by apply boostVisibility_shapes.
  - intros Hs Hin Hpath.
    destruct (boostVisibility_array _ _ _ Hb Hs) as (shapes0 & _ & ->).
    apply in_map_iff in Hin as (s0 & <- & _).
    pose proof (boostShape_not_thin s0) as Hthin.
    unfold thinPath in Hthin. rewrite Hpath in Hthin. simpl in Hthin.
    unfold Qltb in Hthin. apply negb_false_iff, Qle_bool_iff in Hthin.
    destruct (prop (boostShape s0) "strokeWidth") as [[| |w| | |]|];
      simpl in Hthin; try (exfalso; revert Hthin; apply Qlt_not_le; reflexivity).
    by exists w.
Qed.

Lemma boostVisibility_leaves_no_thin_path_witness :
  exists r,
    boostVisibility
      (JObj [("id", JStr "river");
             ("shapes", JArr [JObj [("type", JStr "path"); ("d", JStr "M0 0")]])])
    = Some r /\
    prop r "shapes"
    = Some (JArr [JObj [("type", JStr "path"); ("d", JStr "M0 0");
                        ("strokeWidth", JNum 5)]]) /\
    boostVisibility r = Some r.
Proof.
  eexists. split; [reflexivity|].
  pose proof (boostVisibility_leaves_no_thin_path
                (JObj [("id", JStr "river");
                       ("shapes",
                        JArr [JObj [("type", JStr "path"); ("d", JStr "M0 0")]])])
                _ JNull [JObj [("type", JStr "path"); ("d", JStr "M0 0")]] "id"
                eq_refl) as (Hagain & _ & Hshapes & _).
  split; [exact (Hshapes eq_refl)|exact Hagain].
Defined.

(** X23. The envelope [createRefusedEnvelope] builds validates whatever the two
    strings are, carries no command and no key the grammar does not declare,
    and passes the normalizer and the safety guard unchanged. *)
Theorem refused_envelope_passes_the_pipeline
    (syntheticId : option json -> string) (reason notes utterance : string) :
  validates (createRefusedEnvelope reason notes) = true /\
  wellFormedExactly (createRefusedEnvelope reason notes) = true /\
  prop (createRefusedEnvelope reason notes) "commands" = Some (JArr []) /\
  normalizeCandidate syntheticId (createRefusedEnvelope reason notes)
    = Some (createRefusedEnvelope reason notes) /\
  stripDestructiveCommands [] utterance
    = {| cmds := []; removed := 0; strippedSemantic := 0 |}.
Proof. repeat split; reflexivity. Qed.

End BoostFacts.

(** * The event log, the last touched object and the bracket scan *)

Module RoutesMore.
Import Reducer ReducerSpec Induction MoreSpec Routes.

Lemma recordEvent_sliceLast {A} (events : list A) (event : A) :
  recordEvent (sliceLast 100 events) event = sliceLast 100 (events ++ [event]).
Proof.
  unfold recordEvent, sliceLast.
  rewrite drop_drop, length_drop, length_app. simpl.
  destruct (decide (length events < 100)%nat) as [Hlt|Hge].
  - replace (length events - 100 + (length events - (length events - 100) - 99))%nat
      with (length events - 99)%nat by lia.
    replace (length events + 1 - 100)%nat with (length events - 99)%nat by lia.
    rewrite drop_app_le by lia. done.
  - replace (length events - 100 + (length events - (length events - 100) - 99))%nat
      with (length events - 99)%nat by lia.
    replace (length events + 1 - 100)%nat with (length events - 99)%nat by lia.
    rewrite drop_app_le by lia. done.
Qed.

Lemma fold_recordEvent {A} (history before : list A) :
  fold_left recordEvent history (sliceLast 100 before)
  = sliceLast 100 (before ++ history).
Proof.
  revert before. induction history as [|e rest IH]; intros before; simpl.
  - by rewrite app_nil_r.
  - rewrite recordEvent_sliceLast, IH. by rewrite <- app_assoc.
Qed.

(** X24. The event log never holds more than 100 events, its last event is the one
    recorded last, and after any history of recorded events, starting from an
    empty log, it holds the last 100 of them in the order they came. *)
Theorem event_log_holds_the_latest_hundred {A}
    (sessionEvents history : list A) (event : A) :
  (length (recordEvent sessionEvents event) <= 100)%nat /\
  last (recordEvent sessionEvents event) = Some event /\
  fold_left recordEvent history [] = sliceLast 100 history /\
  (length (fold_left recordEvent history []) <= 100)%nat.
Proof.
  split; [|split; [|split]].
  - unfold recordEvent, sliceLast.
    rewrite length_app, length_drop. simpl. lia.
  - unfold recordEvent. by rewrite last_snoc.
  - exact (fold_recordEvent history []).
  - rewrite (fold_recordEvent history []
               : fold_left recordEvent history [] = sliceLast 100 history).
    unfold sliceLast. rewrite length_drop. lia.
Qed.

(** *** inferLastTouched *)

Lemma lastTouchedAfter_batch prev commands :
  lastTouchedAfter prev (batch commands) =
  match inferLastTouched commands with
  | Some id => if nonEmpty id then Some id else prev
  | None => prev
  end.
Proof.
  unfold inferLastTouched. cbn [lastTouchedAfter].
  assert (H : forall l init,
            (fix loop (l : list DrawingCommand) (last : option string) :=
               match l with
               | [] => last
               | c :: rest => loop rest (lastTouchedAfter last c)
               end) l init = fold_left lastTouchedAfter l init).
  { induction l as [|c rest IH]; intros init; simpl; [done|]. apply IH. }
  by rewrite H.
Qed.

Lemma fold_lastTouched commands :
  Forall (fun c => forall prev,
            Forall (fun id => id <> "") (touchedIds c) ->
            lastTouchedAfter prev c
            = match last (touchedIds c) with
              | Some id => Some id
              | None => prev
              end) commands ->
  forall init,
    Forall (fun id => id <> "") (flat_map touchedIds commands) ->
    fold_left lastTouchedAfter commands init
    = match last (flat_map touchedIds commands) with
      | Some id => Some id
      | None => init
      end.
Proof.
  induction 1 as [|c rest Hc _ IH]; intros init Hne; simpl; [done|].
  simpl in Hne. apply Forall_app in Hne as [Hne1 Hne2].
  rewrite IH by done. rewrite Hc by done. rewrite last_app.
  by destruct (last (flat_map touchedIds rest)).
Qed.

Lemma lastTouchedAfter_last c : forall prev,
  Forall (fun id => id <> "") (touchedIds c) ->
  lastTouchedAfter prev c
  = match last (touchedIds c) with
    | Some id => Some id
    | None => prev
    end.
Proof.
  induction c as [cs IH|c Hleaf] using command_ind_nested; intros prev Hne.
  - rewrite lastTouchedAfter_batch. unfold inferLastTouched.
    cbn [touchedIds] in *.
    rewrite (fold_lastTouched cs IH None Hne).
    destruct (last (flat_map touchedIds cs)) as [id|] eqn:E; [|done].
    assert (Hid : id <> "").
    { rewrite Forall_forall in Hne. apply Hne.
      apply last_Some in E as [l' ->]. apply elem_of_app. right. by left. }
    unfold nonEmpty. apply String.eqb_neq in Hid. by rewrite Hid.
  - destruct c; try done;
      try (by match goal with H : forall cs, batch ?x <> batch cs |- _ =>
                destruct (H x) end).
    all: simpl in *; apply Forall_cons in Hne as [Hid _];
      unfold nonEmpty; apply String.eqb_neq in Hid; by rewrite Hid.
Qed.

(** X25. When no command names an empty id, [inferLastTouched] returns the id
    named last in the command list, nested batches read in place; it returns
    nothing exactly when no command names an object. *)
Theorem inferLastTouched_is_the_last_named_id (commands : list DrawingCommand) :
  Forall (fun id => id <> "") (flat_map touchedIds commands) ->
  inferLastTouched commands = last (flat_map touchedIds commands) /\
  inferLastTouched (flattenCommands commands) = inferLastTouched commands /\
  (inferLastTouched commands = None <-> flat_map touchedIds commands = []).
Proof.
  intros Hne.
  assert (Hlast : forall cs,
            Forall (fun id => id <> "") (flat_map touchedIds cs) ->
            inferLastTouched cs = last (flat_map touchedIds cs)).
  { intros cs Hcs. unfold inferLastTouched. rewrite fold_lastTouched; [|
      apply Forall_forall; intros c _ prev; apply lastTouchedAfter_last|done].
    by destruct (last (flat_map touchedIds cs)). }
  assert (Hflat : forall cs,
            flat_map touchedIds (flattenCommands cs) = flat_map touchedIds cs).
  { assert (Hc : forall c, flat_map touchedIds (flattenCommand c) = touchedIds c).
    { induction c as [cs IH|c Hleaf] using command_ind_nested.
      - cbn [flattenCommand touchedIds].
        induction IH as [|c rest Hc _ IHl]; simpl; [done|].
        by rewrite flat_map_app, Hc, IHl.
      - destruct c; try (simpl; by rewrite ?app_nil_r).
        by match goal with H : forall cs, batch ?x <> batch cs |- _ =>
             destruct (H x) end. }
    unfold flattenCommands. induction cs as [|c rest IH]; simpl; [done|].
    by rewrite flat_map_app, Hc, IH. }
  split; [by apply Hlast|split].
  - rewrite !Hlast; rewrite ?Hflat; done.
  - rewrite Hlast by done. apply last_None.
Qed.

Lemma inferLastTouched_is_the_last_named_id_witness :
  inferLastTouched
    [add_object Examples.skyObject;
     batch [commit_preview_object "tree-1"; set_ground_fill "#3db85a"]]
  = Some "tree-1".
Proof.
  refine (eq_trans (proj1 (inferLastTouched_is_the_last_named_id
            [add_object Examples.skyObject;
             batch [commit_preview_object "tree-1"; set_ground_fill "#3db85a"]] _))
            _).
  - repeat constructor; discriminate.
  - reflexivity.
Defined.

End RoutesMore.

(** * The bracket scan of extractJson *)

Module ExtractJsonFacts.
Import ExtractJson.

(** One iteration of the loop, as an equation. *)
Lemma scan_step stack inString escape ch rest :
  scan stack inString escape (String ch rest) =
  if inString then
    if escape then String ch (scan stack inString false rest)
    else if Ascii.eqb ch backslash then String ch (scan stack inString true rest)
    else if Ascii.eqb ch doubleQuote then String ch (scan stack false escape rest)
    else String ch (scan stack inString escape rest)
  else if Ascii.eqb ch doubleQuote then String ch (scan stack true escape rest)
  else
    match (if isClose ch
           then if closes ch (if isOpen ch then ch :: stack else stack)
                then tl (if isOpen ch then ch :: stack else stack)
                else if isOpen ch then ch :: stack else stack
           else if isOpen ch then ch :: stack else stack) with
    | [] => if isClose ch then String ch EmptyString
            else String ch (scan [] inString escape rest)
    | top :: more =>
        String ch (scan (top :: more) inString escape rest)
    end.
Proof.
  cbn [scan]. destruct inString; [reflexivity|].
  destruct (Ascii.eqb ch doubleQuote); [reflexivity|].
  destruct (isClose ch).
  - by destruct (if closes ch (if isOpen ch then ch :: stack else stack)
                 then tl (if isOpen ch then ch :: stack else stack)
                 else if isOpen ch then ch :: stack else stack).
  - by destruct (if isOpen ch then ch :: stack else stack).
Qed.

Lemma scan_idempotent rest : forall stack inString escape,
  scan stack inString escape (scan stack inString escape rest)
  = scan stack inString escape rest.
Proof.
  induction rest as [|ch rest IH]; intros stack inString escape; [done|].
  rewrite (scan_step stack inString escape ch rest).
  destruct inString.
  - destruct escape; [by rewrite scan_step, IH|].
    destruct (Ascii.eqb ch backslash) eqn:Eb; [by rewrite scan_step, Eb, IH|].
    destruct (Ascii.eqb ch doubleQuote) eqn:Eq; by rewrite scan_step, Eb, Eq, IH.
  - destruct (Ascii.eqb ch doubleQuote) eqn:Eq; [by rewrite scan_step, Eq, IH|].
    destruct (if isClose ch
              then if closes ch (if isOpen ch then ch :: stack else stack)
                   then tl (if isOpen ch then ch :: stack else stack)
                   else if isOpen ch then ch :: stack else stack
              else if isOpen ch then ch :: stack else stack)
      as [|top more] eqn:Es.
    + destruct (isClose ch) eqn:Ec; rewrite scan_step, Eq, Ec, Es; [done|].
      by rewrite IH.
    + rewrite scan_step, Eq, Es. by rewrite IH.
Qed.

Lemma scan_prefix rest : forall stack inString escape,
  exists post, rest = (scan stack inString escape rest ++ post)%string /\
    (post <> EmptyString ->
     exists body ch, scan stack inString escape rest
                     = (body ++ String ch EmptyString)%string /\
                     isClose ch = true).
Proof.
  induction rest as [|ch rest IH]; intros stack inString escape.
  - exists EmptyString. split; [done|]. by intros [].
  - assert (Hcont : forall st i e,
              exists post,
                String ch rest = (String ch (scan st i e rest) ++ post)%string /\
                (post <> EmptyString ->
                 exists body c, String ch (scan st i e rest)
                                = (body ++ String c EmptyString)%string /\
                                isClose c = true)).
    { intros st i e. destruct (IH st i e) as (post & Heq & Hend).
      exists post.
      split; [change (String ch rest
                      = String ch (scan st i e rest ++ post)%string);
              f_equal; exact Heq|].
      intros Hne. destruct (Hend Hne) as (body & c & Hb & Hc).
      exists (String ch body), c. split; [|done].
      change (String ch (scan st i e rest)
              = String ch (body ++ String c EmptyString)%string).
      f_equal. exact Hb. }
    rewrite scan_step.
    destruct inString.
    + destruct escape; [apply Hcont|].
      destruct (Ascii.eqb ch backslash); [apply Hcont|].
      destruct (Ascii.eqb ch doubleQuote); apply Hcont.
    + destruct (Ascii.eqb ch doubleQuote); [apply Hcont|].
      destruct (if isClose ch
                then if closes ch (if isOpen ch then ch :: stack else stack)
                     then tl (if isOpen ch then ch :: stack else stack)
                     else if isOpen ch then ch :: stack else stack
                else if isOpen ch then ch :: stack else stack)
        as [|top more]; [|apply Hcont].
      destruct (isClose ch) eqn:Ec; [|apply Hcont].
      exists rest. split; [done|]. intros _. by exists EmptyString, ch.
Qed.

Lemma fromFirstBracket_suffix s t :
  fromFirstBracket s = Some t ->
  exists pre ch rest, s = (pre ++ t)%string /\ t = String ch rest /\
                      isOpen ch = true /\ fromFirstBracket pre = None.
Proof.
  induction s as [|c s IH]; [discriminate|]. simpl.
  destruct (isOpen c) eqn:E.
  - intros [= <-]. by exists EmptyString, c, s.
  - intros H. destruct (IH H) as (pre & ch & rest & -> & -> & Ho & Hpre).
    exists (String c pre), ch, rest. simpl. by rewrite E.
Qed.

Lemma scan_first ch rest :
  isOpen ch = true ->
  scan [] false false (String ch rest) = String ch (scan [ch] false false rest).
Proof.
  intros Ho. unfold isOpen in Ho.
  apply orb_true_iff in Ho as [->%Ascii.eqb_eq| ->%Ascii.eqb_eq]; reflexivity.
Qed.

(** X26. The scan takes one contiguous piece of the text: nothing of it when the
    text has no opening bracket, and otherwise a piece that begins at the
    first opening bracket, with no opening bracket before it. A piece that
    stops short of the end of the text ends with a closing bracket, and
    scanning the piece again gives the piece back. *)
Theorem extractJsonScan_takes_one_piece (s : string) :
  extractJsonScan (extractJsonScan s) = extractJsonScan s /\
  (fromFirstBracket s = None -> extractJsonScan s = s) /\
  (fromFirstBracket s <> None ->
   exists pre post ch rest,
     s = (pre ++ extractJsonScan s ++ post)%string /\
     fromFirstBracket pre = None /\
     extractJsonScan s = String ch rest /\ isOpen ch = true /\
     (post <> EmptyString ->
      exists body c, extractJsonScan s = (body ++ String c EmptyString)%string /\
                     isClose c = true)).
Proof.
  destruct (fromFirstBracket s) as [t|] eqn:E.
  - assert (Hx : extractJsonScan s = scan [] false false t)
      by (unfold extractJsonScan; by rewrite E).
    destruct (fromFirstBracket_suffix _ _ E) as (pre & ch & rest & Hs & -> & Ho & Hpre).
    rewrite Hx.
    split; [|split; [discriminate|]].
    + unfold extractJsonScan. rewrite scan_first by done. simpl. rewrite Ho.
      rewrite <- scan_first by done. apply scan_idempotent.
    + intros _. destruct (scan_prefix (String ch rest) [] false false)
        as (post & Heq & Hend).
      exists pre, post, ch, (scan [ch] false false rest).
      split; [by rewrite <- Heq|]. split; [done|].
      split; [by apply scan_first|]. split; [done|]. exact Hend.
  - assert (Hx : extractJsonScan s = s) by (unfold extractJsonScan; by rewrite E).
    rewrite !Hx. split; [done|]. split; [done|congruence].
Qed.

Lemma extractJsonScan_takes_one_piece_witness :
  extractJsonScan "ok: {a: [1, 2]} and more" = "{a: [1, 2]}"
  /\ extractJsonScan "no brackets here" = "no brackets here".
Proof.
  split.
  - destruct (proj2 (proj2 (extractJsonScan_takes_one_piece
                              "ok: {a: [1, 2]} and more")))
      as (pre & post & ch & rest & _); [discriminate|]. reflexivity.
  - apply (proj1 (proj2 (extractJsonScan_takes_one_piece "no brackets here"))).
    reflexivity.
Defined.

End ExtractJsonFacts.

(** * The command normalizer is idempotent *)

Module IdempotenceProofs.
Import Js Schema Director DirectorSpec PipelineExamples Induction JsFacts
  SchemaProofs NormalizerProofs DirectorMore MoreSpec NormalizerMore RepairFacts
  PatchFacts.

Lemma normalizeOneCommand_stages syntheticId c :
  normalizeOneCommand syntheticId c
  = normalizeShapesOfCommand
      (normalizeMissingPatch
         (normalizeTargetId (normalizeLegacyCommand syntheticId c))).
Proof. reflexivity. Qed.

(** *** The legacy repair *)

Lemma legacy_output_settled syntheticId c :
  legacySettled (normalizeLegacyCommand syntheticId c) = true.
Proof.
  destruct c as [| | | | |fs]; try done.
  unfold normalizeLegacyCommand.
  set (fs1 := match get "command_type" fs with
              | Some (JStr ct) =>
                  if negb (truthy (get "type" fs))
                  then remove "command_type" (set "type" (JStr ct) fs)
                  else fs
              | _ => fs
              end).
  assert (H1 : isString (get "command_type" fs1)
               && negb (truthy (get "type" fs1)) = false).
  { unfold fs1. destruct (get "command_type" fs) as [[| | |ct| |]|] eqn:E;
      rewrite ?E; try done.
    destruct (truthy (get "type" fs)) eqn:Et; simpl.
    - by rewrite E, Et.
    - by rewrite get_remove_eq. }
  set (fs2 := match get "object_id" fs1 with
              | Some (JStr oid) =>
                  if negb (truthy (get "objectId" fs1))
                  then remove "object_id" (set "objectId" (JStr oid) fs1)
                  else fs1
              | _ => fs1
              end).
  assert (H2 : isString (get "object_id" fs2)
               && negb (truthy (get "objectId" fs2)) = false).
  { unfold fs2. destruct (get "object_id" fs1) as [[| | |oid| |]|] eqn:E;
      rewrite ?E; try done.
    destruct (truthy (get "objectId" fs1)) eqn:Et; simpl.
    - by rewrite E, Et.
    - by rewrite get_remove_eq. }
  assert (H12 : isString (get "command_type" fs2)
                && negb (truthy (get "type" fs2)) = false).
  { assert (Hsame : get "command_type" fs2 = get "command_type" fs1 /\
                    get "type" fs2 = get "type" fs1).
    { unfold fs2. destruct (get "object_id" fs1) as [[| | |oid| |]|]; try done.
      destruct (negb (truthy (get "objectId" fs1))); [|done].
      by rewrite !get_remove_ne, !get_set_ne. }
    destruct Hsame as [-> ->]. exact H1. }
  destruct ((isStr (get "type" fs2) "add_preview_object"
             || isStr (get "type" fs2) "add_object")
            && negb (truthy (get "object" fs2))) eqn:Hadd.
  - cbn [legacySettled get String.eqb Ascii.eqb Bool.eqb isString truthy].
    simpl. by rewrite !andb_false_r.
  - cbn [legacySettled]. by rewrite H12, H2, Hadd.
Qed.

Lemma legacy_settled_fixed syntheticId c :
  legacySettled c = true -> normalizeLegacyCommand syntheticId c = c.
Proof.
  destruct c as [| | | | |fs]; try done. cbn [legacySettled].
  intros [[H1 H2]%andb_true_iff H3]%andb_true_iff.
  apply negb_true_iff in H1, H2, H3.
  unfold normalizeLegacyCommand.
  assert (E1 : match get "command_type" fs with
               | Some (JStr ct) =>
                   if negb (truthy (get "type" fs))
                   then remove "command_type" (set "type" (JStr ct) fs)
                   else fs
               | _ => fs
               end = fs).
  { destruct (get "command_type" fs) as [[| | |ct| |]|]; try done.
    simpl in H1. by rewrite H1. }
  rewrite E1.
  assert (E2 : match get "object_id" fs with
               | Some (JStr oid) =>
                   if negb (truthy (get "objectId" fs))
                   then remove "object_id" (set "objectId" (JStr oid) fs)
                   else fs
               | _ => fs
               end = fs).
  { destruct (get "object_id" fs) as [[| | |oid| |]|]; try done.
    simpl in H2. by rewrite H2. }
  rewrite E2. by rewrite H3.
Qed.

(** Two field lists that agree on the keys the legacy repair tests. *)
Lemma legacySettled_agree fs fs' :
  get "command_type" fs' = get "command_type" fs ->
  get "type" fs' = get "type" fs ->
  (isString (get "object_id" fs') = true ->
   get "object_id" fs' = get "object_id" fs /\
   get "objectId" fs' = get "objectId" fs) ->
  ((isStr (get "type" fs) "add_preview_object"
    || isStr (get "type" fs) "add_object") = true ->
   truthy (get "object" fs) = true -> truthy (get "object" fs') = true) ->
  legacySettled (JObj fs) = true -> legacySettled (JObj fs') = true.
Proof.
  intros Hc Ht Ho Hobj. cbn [legacySettled]. rewrite Hc, Ht.
  intros [[H1 H2]%andb_true_iff H3]%andb_true_iff.
  rewrite H1. simpl.
  apply andb_true_iff. split.
  - destruct (isString (get "object_id" fs')) eqn:E; [|done].
    destruct (Ho eq_refl) as [E1 E2]. rewrite E2. rewrite E1 in E.
    by rewrite E in H2.
  - destruct (isStr (get "type" fs) "add_preview_object"
              || isStr (get "type" fs) "add_object") eqn:Hadd; [|done].
    simpl in *. apply negb_true_iff, negb_false_iff in H3.
    by rewrite (Hobj eq_refl H3).
Qed.

Lemma legacySettled_targetId c :
  legacySettled c = true -> legacySettled (normalizeTargetId c) = true.
Proof.
  destruct c as [| | | | |fs]; try done. intros Hs.
  rewrite normalizeTargetId_eq.
  destruct (requiresTargetId fs) eqn:Hreq.
  - revert Hs. apply legacySettled_agree.
    + by apply get_retarget.
    + by apply get_retarget.
    + destruct (retarget_no_aliases fs) as [_ ->]. discriminate.
    + intros _. by rewrite get_retarget.
  - destruct (isStr (get "type" fs) "batch"); [|done].
    destruct (get "commands" fs) as [[| | | |inner|]|]; try done.
    revert Hs. apply legacySettled_agree; intros; by rewrite ?get_set_ne.
Qed.

Lemma legacySettled_missingPatch c :
  legacySettled c = true -> legacySettled (normalizeMissingPatch c) = true.
Proof.
  destruct c as [| | | | |fs]; try done. intros Hs.
  rewrite normalizeMissingPatch_eq.
  destruct (isStr (get "type" fs) "batch" && isArray (get "commands" fs)).
  - destruct (get "commands" fs) as [[| | | |inner|]|]; try done.
    revert Hs. apply legacySettled_agree; intros; by rewrite ?get_set_ne.
  - destruct (isUpdateCommand fs) eqn:Hu; [|done]. cbv zeta.
    match goal with |- legacySettled (match ?p with _ => _ end) = true =>
      destruct p as [|kv patch']; [done|] end.
    revert Hs. apply legacySettled_agree.
    + rewrite get_set_ne by done. by rewrite !get_remove_ne.
    + rewrite get_set_ne by done. by rewrite !get_remove_ne.
    + intros _. rewrite !get_set_ne by done. by rewrite !get_remove_ne.
    + intros Hadd _. exfalso. unfold isUpdateCommand in Hu.
      destruct (get "type" fs) as [[| | |ty| |]|]; try done. simpl in *.
      apply orb_true_iff in Hadd as [->%String.eqb_eq| ->%String.eqb_eq];
        discriminate.
Qed.

Lemma normalizeShapesInObject_truthy o :
  truthy (Some o) = true -> truthy (Some (normalizeShapesInObject o)) = true.
Proof.
  destruct o as [| | | | |fs]; try done. simpl.
  by destruct (get "shapes" fs) as [[| | | | |]|].
Qed.

Lemma legacySettled_shapes c c' :
  normalizeShapesOfCommand c = Some c' ->
  legacySettled c = true -> legacySettled c' = true.
Proof.
  destruct c as [| | | | |fs]; try (by intros [= <-]).
  cbn [normalizeShapesOfCommand].
  destruct ((isStr (get "type" fs) "add_preview_object"
             || isStr (get "type" fs) "add_object")
            && truthy (get "object" fs)) eqn:Hadd.
  - intros [= <-].
    apply legacySettled_agree; try (intros; by rewrite ?get_set_ne).
    intros _ _. rewrite get_set_eq.
    apply andb_true_iff in Hadd as [_ Ho].
    destruct (get "object" fs) as [o|]; [|done].
    by apply normalizeShapesInObject_truthy.
  - destruct ((isStr (get "type" fs) "update_preview_object"
               || isStr (get "type" fs) "update_object")
              && truthy (match get "patch" fs with
                         | Some JNull | None => None
                         | Some p => prop p "shapes"
                         end)); [|by intros [= <-]].
    destruct (get "patch" fs) as [[| | | | |patch]|]; try discriminate.
    destruct (get "shapes" patch) as [[| | | |shapes|]|]; try discriminate.
    intros [= <-]. apply legacySettled_agree; intros; by rewrite ?get_set_ne.
Qed.

(** *** The target repair, after the later steps *)

Lemma retarget_fixed_agree fs fs' :
  get "id" fs' = get "id" fs ->
  get "objectId" fs' = get "objectId" fs ->
  get "object_id" fs' = get "object_id" fs ->
  retarget fs = fs -> retarget fs' = fs'.
Proof.
  intros Hi Ha Hb Hfix.
  destruct (retarget_no_aliases fs) as [A B]. rewrite Hfix in A, B.
  assert (C : forall t, targetOf fs = Some t -> get "id" fs = Some (JStr t)).
  { intros t Ht. rewrite <- Hfix at 1. by rewrite get_id_retarget, Ht. }
  assert (Ht : targetOf fs' = targetOf fs).
  { unfold targetOf. by rewrite Hi, Ha, Hb. }
  unfold retarget. rewrite Ht.
  assert (X : match targetOf fs with
              | Some target => set "id" (JStr target) fs'
              | None => fs'
              end = fs').
  { destruct (targetOf fs) as [t|] eqn:E; [|done].
    apply set_same. rewrite Hi. by apply C. }
  rewrite X. rewrite (remove_absent "objectId") by congruence.
  apply remove_absent. congruence.
Qed.

Lemma requiresTargetId_agree fs fs' :
  get "type" fs' = get "type" fs -> requiresTargetId fs' = requiresTargetId fs.
Proof. unfold requiresTargetId. by intros ->. Qed.

Lemma update_requires_target fs :
  isUpdateCommand fs = true -> requiresTargetId fs = true.
Proof.
  unfold isUpdateCommand, requiresTargetId.
  destruct (get "type" fs) as [[| | |ty| |]|]; try done. simpl.
  intros [->%String.eqb_eq| ->%String.eqb_eq]%orb_true_iff; reflexivity.
Qed.

Lemma add_is_plain fs :
  isStr (get "type" fs) "add_preview_object"
  || isStr (get "type" fs) "add_object" = true ->
  requiresTargetId fs = false /\ isStr (get "type" fs) "batch" = false /\
  isUpdateCommand fs = false.
Proof.
  unfold isUpdateCommand, requiresTargetId.
  destruct (get "type" fs) as [[| | |ty| |]|]; try done. simpl.
  intros [->%String.eqb_eq| ->%String.eqb_eq]%orb_true_iff; done.
Qed.

Lemma map_fixed_each {A} (f : A -> A) l :
  map f l = l -> Forall (fun y => f y = y) l.
Proof.
  induction l as [|x rest IH]; simpl; [constructor|].
  intros [= Hx Hrest]. constructor; [done|by apply IH].
Qed.

Lemma targetId_fixed_unfold fs :
  normalizeTargetId (JObj fs) = JObj fs ->
  (requiresTargetId fs = true -> retarget fs = fs) /\
  (forall inner, isStr (get "type" fs) "batch" = true ->
                 get "commands" fs = Some (JArr inner) ->
                 Forall (fun y => normalizeTargetId y = y) inner).
Proof.
  rewrite normalizeTargetId_eq. intros H. split.
  - intros Hreq. rewrite Hreq in H. by injection H.
  - intros inner Hb Hc.
    rewrite (requiresTargetId_not_batch _ Hb), Hb, Hc in H.
    injection H as H. apply set_fixed_get in H. rewrite Hc in H.
    injection H as H. by apply map_fixed_each.
Qed.

Lemma targetId_after_missingPatch c :
  normalizeTargetId c = c ->
  normalizeTargetId (normalizeMissingPatch c) = normalizeMissingPatch c.
Proof.
  induction c as [c IH] using nested_commands_ind. intros Hfix.
  destruct c as [| | | | |fs]; try done.
  destruct (targetId_fixed_unfold fs Hfix) as [Hret Hinner].
  rewrite normalizeMissingPatch_eq.
  destruct (isStr (get "type" fs) "batch" && isArray (get "commands" fs)) eqn:Hb.
  - apply andb_true_iff in Hb as [Hb Harr].
    destruct (get "commands" fs) as [[| | | |inner|]|] eqn:Hc; try done.
    rewrite normalizeTargetId_eq.
    rewrite (requiresTargetId_agree fs) by (by rewrite get_set_ne).
    rewrite (requiresTargetId_not_batch _ Hb).
    rewrite get_set_ne by done. rewrite Hb, get_set_eq, set_set.
    do 3 f_equal. rewrite map_map. apply map_ext_Forall.
    pose proof (IH fs inner eq_refl Hc) as IHl.
    pose proof (Hinner inner Hb eq_refl) as Hl.
    rewrite Forall_forall in IHl, Hl. apply Forall_forall.
    intros y Hy. by apply IHl, Hl.
  - destruct (isUpdateCommand fs) eqn:Hu; [|exact Hfix]. cbv zeta.
    match goal with |- normalizeTargetId (match ?p with _ => _ end) = _ =>
      destruct p as [|kv patch']; [exact Hfix|] end.
    rewrite normalizeTargetId_eq.
    pose proof (update_requires_target _ Hu) as Hreq.
    rewrite (requiresTargetId_agree fs), Hreq
      by (rewrite get_set_ne by done; by rewrite !get_remove_ne).
    f_equal. apply (retarget_fixed_agree fs); [..|by apply Hret];
      rewrite get_set_ne by done; by rewrite !get_remove_ne.
Qed.

Lemma targetId_after_shapes c c' :
  normalizeShapesOfCommand c = Some c' ->
  normalizeTargetId c = c -> normalizeTargetId c' = c'.
Proof.
  destruct c as [| | | | |fs]; try (by intros [= <-]).
  cbn [normalizeShapesOfCommand]. intros Hs Hfix.
  destruct (targetId_fixed_unfold fs Hfix) as [Hret _].
  destruct ((isStr (get "type" fs) "add_preview_object"
             || isStr (get "type" fs) "add_object")
            && truthy (get "object" fs)) eqn:Hadd.
  - injection Hs as <-. apply andb_true_iff in Hadd as [Hadd _].
    destruct (add_is_plain _ Hadd) as (Hreq & Hb & _).
    rewrite normalizeTargetId_eq.
    rewrite (requiresTargetId_agree fs), Hreq by (by rewrite get_set_ne).
    rewrite get_set_ne by done. by rewrite Hb.
  - destruct ((isStr (get "type" fs) "update_preview_object"
               || isStr (get "type" fs) "update_object")
              && truthy (match get "patch" fs with
                         | Some JNull | None => None
                         | Some p => prop p "shapes"
                         end)) eqn:Hup; [|by injection Hs as <-].
    destruct (get "patch" fs) as [[| | | | |patch]|]; try discriminate.
    destruct (get "shapes" patch) as [[| | | |shapes|]|]; try discriminate.
    injection Hs as <-. apply andb_true_iff in Hup as [Hup _].
    assert (Hu : isUpdateCommand fs = true).
    { unfold isUpdateCommand. by rewrite orb_comm. }
    pose proof (update_requires_target _ Hu) as Hreq.
    rewrite normalizeTargetId_eq.
    rewrite (requiresTargetId_agree fs), Hreq by (by rewrite get_set_ne).
    f_equal. apply (retarget_fixed_agree fs); [..|by apply Hret];
      by rewrite get_set_ne.
Qed.

(** *** The patch repair, after the shapes step *)

Lemma missingPatch_after_shapes c c' :
  normalizeShapesOfCommand c = Some c' ->
  normalizeMissingPatch c = c -> normalizeMissingPatch c' = c'.
Proof.
  destruct c as [| | | | |fs]; try (by intros [= <-]).
  cbn [normalizeShapesOfCommand]. intros Hs Hfix.
  destruct ((isStr (get "type" fs) "add_preview_object"
             || isStr (get "type" fs) "add_object")
            && truthy (get "object" fs)) eqn:Hadd.
  - injection Hs as <-. apply andb_true_iff in Hadd as [Hadd _].
    destruct (add_is_plain _ Hadd) as (_ & Hb & Hu).
    rewrite normalizeMissingPatch_eq.
    unfold isUpdateCommand in *. rewrite !get_set_ne by done.
    by rewrite Hb, Hu.
  - destruct ((isStr (get "type" fs) "update_preview_object"
               || isStr (get "type" fs) "update_object")
              && truthy (match get "patch" fs with
                         | Some JNull | None => None
                         | Some p => prop p "shapes"
                         end)) eqn:Hup; [|by injection Hs as <-].
    destruct (get "patch" fs) as [[| | | | |patch]|] eqn:Hp; try discriminate.
    destruct (get "shapes" patch) as [[| | | |shapes|]|] eqn:Hsh; try discriminate.
    injection Hs as <-. apply andb_true_iff in Hup as [Hup _].
    assert (Hu : isUpdateCommand fs = true).
    { unfold isUpdateCommand. by rewrite orb_comm. }
    pose proof (update_is_not_batch _ Hu) as Hb.
    (* what the fixed point says of [fs] *)
    rewrite normalizeMissingPatch_eq in Hfix. rewrite Hb, Hu in Hfix.
    cbv zeta in Hfix. simpl andb in Hfix. cbv iota in Hfix.
    assert (Hstart : startingPatch fs = patch).
    { unfold startingPatch. by rewrite Hp. }
    rewrite Hstart in Hfix.
    set (patch1 := match get "object" fs with
                   | Some (JObj o) => _
                   | Some (JArr o) => _
                   | _ => _
                   end) in Hfix.
    assert (Hkept : get "shapes" patch1 = Some (JArr shapes)).
    { unfold patch1.
      assert (H0 : get "shapes"
                (foldInto "shapes" (get "shapes" fs) (truthy (get "shapes" fs))
                   (foldInto "transform" (get "transform" fs)
                      (truthy (get "transform" fs)) patch)) = Some (JArr shapes))
        by (by repeat apply foldInto_keeps).
      destruct (get "object" fs) as [[| | | | |]|]; try done;
        by apply foldFromObject_keeps. }
    destruct patch1 as [|kv patch'] eqn:E1; [discriminate|].
    injection Hfix as Hfix.
    assert (Hpatch1 : kv :: patch' = patch).
    { assert (Hg : get "patch" fs = Some (JObj (kv :: patch')))
        by (rewrite <- Hfix; apply get_set_eq).
      rewrite Hp in Hg. by injection Hg. }
    assert (Ht : get "transform" fs = None).
    { rewrite <- Hfix. rewrite get_set_ne by done.
      rewrite !(get_remove_ne "transform") by done. apply get_remove_eq. }
    assert (Hs : get "shapes" fs = None).
    { rewrite <- Hfix. rewrite get_set_ne by done.
      rewrite (get_remove_ne "shapes" "object") by done. apply get_remove_eq. }
    assert (Ho : get "object" fs = None).
    { rewrite <- Hfix. rewrite get_set_ne by done. apply get_remove_eq. }
    clear Hfix E1 Hkept.
    (* the second run *)
    rewrite normalizeMissingPatch_eq.
    unfold isUpdateCommand, startingPatch in *.
    rewrite !get_set_ne by done. rewrite get_set_eq.
    rewrite Hb, Hu, Ht, Hs, Ho. simpl.
    destruct (set "shapes" (JArr (map normalizeLineShape shapes)) patch)
      as [|kv' more] eqn:E.
    { pose proof (get_set_eq "shapes" (JArr (map normalizeLineShape shapes)) patch)
        as Hg. rewrite E in Hg. discriminate. }
    f_equal.
    rewrite (remove_absent "transform") by (by rewrite get_set_ne).
    rewrite (remove_absent "shapes") by (by rewrite get_set_ne).
    rewrite (remove_absent "object") by (by rewrite get_set_ne).
    apply set_set.
Qed.

(** *** The shapes step, twice *)

Lemma normalizeShapesInObject_idempotent o :
  normalizeShapesInObject (normalizeShapesInObject o) = normalizeShapesInObject o.
Proof.
  destruct o as [| | | | |fs]; try done. simpl.
  destruct (get "shapes" fs) as [[| | | |shapes|]|] eqn:E;
    try (by simpl; rewrite E).
  simpl. rewrite get_set_eq, set_set. do 3 f_equal.
  rewrite map_map. apply map_ext. intros s.
  apply settled_shape_fixed, settled_after_normalizeLineShape.
Qed.

Lemma shapes_step_idempotent c c' :
  normalizeShapesOfCommand c = Some c' -> normalizeShapesOfCommand c' = Some c'.
Proof.
  destruct c as [| | | | |fs]; try (by intros [= <-]).
  cbn [normalizeShapesOfCommand].
  destruct ((isStr (get "type" fs) "add_preview_object"
             || isStr (get "type" fs) "add_object")
            && truthy (get "object" fs)) eqn:Hadd.
  - intros [= <-]. cbn [normalizeShapesOfCommand].
    rewrite get_set_ne by done. rewrite get_set_eq.
    apply andb_true_iff in Hadd as [Hadd Ho]. rewrite Hadd.
    destruct (get "object" fs) as [o|]; [|done]. cbn [orNull].
    rewrite (normalizeShapesInObject_truthy _ Ho). simpl.
    by rewrite normalizeShapesInObject_idempotent, set_set.
  - destruct ((isStr (get "type" fs) "update_preview_object"
               || isStr (get "type" fs) "update_object")
              && truthy (match get "patch" fs with
                         | Some JNull | None => None
                         | Some p => prop p "shapes"
                         end)) eqn:Hup.
    + destruct (get "patch" fs) as [[| | | | |patch]|] eqn:Hp; try discriminate.
      destruct (get "shapes" patch) as [[| | | |shapes|]|] eqn:Hsh;
        try discriminate.
      intros [= <-]. cbn [normalizeShapesOfCommand].
      rewrite !get_set_ne by done. rewrite get_set_eq. cbn [prop].
      rewrite get_set_eq.
      rewrite Hadd.
      apply andb_true_iff in Hup as [Hup _]. rewrite Hup. simpl.
      rewrite !set_set. do 6 f_equal.
      rewrite map_map. apply map_ext. intros s.
      apply settled_shape_fixed, settled_after_normalizeLineShape.
    + intros [= <-]. cbn [normalizeShapesOfCommand]. by rewrite Hadd, Hup.
Qed.

(** *** All four steps *)

Lemma mapThrowing_each f l l' :
  mapThrowing f l = Some l' -> Forall2 (fun x y => f x = Some y) l l'.
Proof.
  revert l'. induction l as [|x rest IH]; intros l'; simpl.
  - intros [= <-]. constructor.
  - destruct (f x) as [y|] eqn:E; [|discriminate].
    destruct (mapThrowing f rest) as [ys|]; [|discriminate].
    intros [= <-]. constructor; [done|by apply IH].
Qed.

(** X27. Normalizing a command or a command array a second time changes nothing:
    whatever [normalizeCommandArray] returns, it returns again when run on
    its own result. *)
Theorem normalizeCommandArray_is_idempotent
    (syntheticId : option json -> string) (c c' : json)
    (commands commands' : list json) :
  (normalizeOneCommand syntheticId c = Some c' ->
   normalizeOneCommand syntheticId c' = Some c') /\
  (normalizeCommandArray syntheticId commands = Some commands' ->
   normalizeCommandArray syntheticId commands' = Some commands').
Proof.
  assert (Hone : forall x y, normalizeOneCommand syntheticId x = Some y ->
                             normalizeOneCommand syntheticId y = Some y).
  { intros x y. rewrite !normalizeOneCommand_stages.
    set (l := normalizeLegacyCommand syntheticId x).
    set (t := normalizeTargetId l).
    set (m := normalizeMissingPatch t).
    intros Hs.
    assert (Hl : normalizeLegacyCommand syntheticId y = y).
    { apply legacy_settled_fixed, (legacySettled_shapes m); [done|].
      apply legacySettled_missingPatch, legacySettled_targetId.
      apply legacy_output_settled. }
    assert (Ht : normalizeTargetId y = y).
    { apply (targetId_after_shapes m); [done|].
      apply targetId_after_missingPatch, normalizeTargetId_idempotent. }
    assert (Hm : normalizeMissingPatch y = y).
    { apply (missingPatch_after_shapes m); [done|].
      apply normalizeMissingPatch_idempotent. }
    rewrite Hl, Ht, Hm. by apply (shapes_step_idempotent m). }
  split; [apply Hone|].
  unfold normalizeCommandArray. intros H%mapThrowing_each.
  apply mapThrowing_fixed. induction H as [|x y l l' Hxy _ IH]; constructor;
    [by apply (Hone x)|exact IH].
Qed.

Lemma normalizeCommandArray_is_idempotent_witness :
  normalizeOneCommand frozenClock
    (JObj [("type", JStr "update_object"); ("id", JStr "t1");
           ("patch", JObj [("shapes", JArr [normalizeLineShape legacyLine])])])
  = Some (JObj [("type", JStr "update_object"); ("id", JStr "t1");
                ("patch", JObj [("shapes", JArr [normalizeLineShape legacyLine])])])
  /\
  normalizeCommandArray frozenClock
    [JObj [("type", JStr "delete_object"); ("id", JStr "b")]]
  = Some [JObj [("type", JStr "delete_object"); ("id", JStr "b")]].
Proof.
  split.
  - apply (proj1 (normalizeCommandArray_is_idempotent frozenClock
                    (JObj [("command_type", JStr "update_object");
                           ("object_id", JStr "t1");
                           ("shapes", JArr [legacyLine])]) _ [] [])).
    reflexivity.
  - apply (proj2 (normalizeCommandArray_is_idempotent frozenClock JNull JNull
                    [JObj [("type", JStr "delete_object");
                           ("objectId", JStr "b")]] _)).
    reflexivity.
Defined.

End IdempotenceProofs.
